(** * toolplex/ai-engine: tool-invocation pipeline and session registry

    A shallow embedding of [src/utils/schema.ts], [src/utils/models.ts],
    [src/mcp/MCPClient.ts], the [closeTransport] of
    [src/mcp/DefaultStdioTransportFactory.ts] and [src/core/ToolBuilder.ts],
    with the properties of the pipeline stated and proved over it.

    JavaScript values are modelled as follows.
    - A string is the list of its UTF-16 code units ([jsstring]).
    - A JSON value is the sum type [json]; an object is the list of its
      own enumerable entries in the order they were added (the engine
      lists integer-like names first; the loops modelled here add the
      entries in the order they read them, so entries listed in the
      engine's order stay in it). An object whose prototype was
      replaced by an assignment to the name [__proto__] carries that
      prototype ([JProto]); assignments and property reads follow the
      prototype chain, [Object.entries], spreads and [JSON.stringify]
      see the own entries only.
    - A number is carried as its literal: no function modelled here
      computes with a number, only its truthiness is ever read.
    - [undefined] is [None] at the places where the source can meet it. *)

From Stdlib Require Import NArith ZArith List Ascii String Lia Bool DecimalString.
From stdpp Require Import base option list gmap.

Local Open Scope N_scope.
Local Open Scope nat_scope.

(** ** JavaScript strings *)

Module JS.

Definition jsstring := list N.

(** A Rocq literal read as code units. *)
Definition lit (s : string) : jsstring :=
  map N_of_ascii (list_ascii_of_string s).

(** A literal in which every apostrophe stands for a double quote. *)
Definition qlit (s : string) : jsstring :=
  map (fun c : N => if (c =? 39)%N then 34%N else c) (lit s).

Definition str_eqb (a b : jsstring) : bool := bool_decide (a = b).

(** [String.prototype.startsWith]. *)
Fixpoint startsWith (s p : jsstring) : bool :=
  match p, s with
  | [], _ => true
  | c :: p', d :: s' => (c =? d)%N && startsWith s' p'
  | _ :: _, [] => false
  end.

(** WhiteSpace and LineTerminator code units, as [String.prototype.trim]
    strips them. *)
Definition is_js_space (c : N) : bool :=
  ((9 <=? c) && (c <=? 13) || (c =? 32) || (c =? 160) || (c =? 5760)
   || (8192 <=? c) && (c <=? 8202) || (c =? 8232) || (c =? 8233)
   || (c =? 8239) || (c =? 8287) || (c =? 12288) || (c =? 65279))%N.

Fixpoint trimStart (s : jsstring) : jsstring :=
  match s with
  | c :: r => if is_js_space c then trimStart r else s
  | [] => []
  end.

Definition trim (s : jsstring) : jsstring :=
  rev (trimStart (rev (trimStart s))).

(** Decimal rendering of a natural number, as [String(n)] gives it. *)
Definition decimal (n : N) : jsstring :=
  lit (NilZero.string_of_uint (N.to_uint n)).

Definition is_digit (c : N) : bool := ((48 <=? c) && (c <=? 57))%N.

(** A canonical array index: the decimal rendering of some [i]. *)
Definition to_index (k : jsstring) : option nat :=
  if forallb is_digit k && negb (bool_decide (k = [])) then
    let n := fold_left (fun acc c => (10 * acc + (c - 48))%N) k 0%N in
    if str_eqb (decimal n) k && (n <? 4294967295)%N
    then Some (N.to_nat n) else None
  else None.

End JS.

Export JS.

(** ** JSON values

    [JSON.parse] gives objects whose prototype is [Object.prototype]:
    these are [JObj], also when one of their own properties is called
    [__proto__]. An assignment [o["__proto__"] = v] to such an object
    calls the setter of [Object.prototype] instead of adding a property;
    [JProto proto entries] is an object whose prototype was replaced that
    way, by the object or array [proto], or removed ([proto] is [JNull]). *)

Module Json.

Unset Elimination Schemes.
Inductive json : Type :=
| JNull
| JBool (b : bool)
| JNum (lexeme : jsstring)
| JStr (s : jsstring)
| JArr (items : list json)
| JObj (entries : list (jsstring * json))
| JProto (proto : json) (entries : list (jsstring * json)).
Set Elimination Schemes.

(** Induction with the hypotheses for the children of arrays and objects. *)
Section json_induction.
Variable P : json -> Prop.
Hypothesis Hnull : P JNull.
Hypothesis Hbool : forall b, P (JBool b).
Hypothesis Hnum : forall n, P (JNum n).
Hypothesis Hstr : forall s, P (JStr s).
Hypothesis Harr : forall items, Forall P items -> P (JArr items).
Hypothesis Hobj : forall entries, Forall (fun kv => P kv.2) entries -> P (JObj entries).
Hypothesis Hproto : forall proto entries,
  P proto -> Forall (fun kv => P kv.2) entries -> P (JProto proto entries).

Fixpoint json_induction (v : json) : P v :=
  match v with
  | JNull => Hnull
  | JBool b => Hbool b
  | JNum n => Hnum n
  | JStr s => Hstr s
  | JArr items =>
      Harr items
        ((fix go (l : list json) : Forall P l :=
            match l with
            | [] => @List.Forall_nil _ P
            | x :: l' => @List.Forall_cons _ P x l' (json_induction x) (go l')
            end) items)
  | JObj entries =>
      Hobj entries
        ((fix go (l : list (jsstring * json)) : Forall (fun kv => P kv.2) l :=
            match l with
            | [] => @List.Forall_nil _ _
            | kv :: l' => @List.Forall_cons _ (fun kv => P kv.2) kv l' (json_induction kv.2) (go l')
            end) entries)
  | JProto proto entries =>
      Hproto proto entries (json_induction proto)
        ((fix go (l : list (jsstring * json)) : Forall (fun kv => P kv.2) l :=
            match l with
            | [] => @List.Forall_nil _ _
            | kv :: l' => @List.Forall_cons _ (fun kv => P kv.2) kv l' (json_induction kv.2) (go l')
            end) entries)
  end.
End json_induction.

Fixpoint json_eqb (a b : json) {struct a} : bool :=
  match a, b with
  | JNull, JNull => true
  | JBool x, JBool y => Bool.eqb x y
  | JNum x, JNum y => str_eqb x y
  | JStr x, JStr y => str_eqb x y
  | JArr xs, JArr ys =>
      (fix go (xs ys : list json) {struct xs} : bool :=
         match xs, ys with
         | [], [] => true
         | x :: xs', y :: ys' => json_eqb x y && go xs' ys'
         | _, _ => false
         end) xs ys
  | JObj xs, JObj ys =>
      (fix go (xs ys : list (jsstring * json)) {struct xs} : bool :=
         match xs, ys with
         | [], [] => true
         | (k, x) :: xs', (k', y) :: ys' => str_eqb k k' && json_eqb x y && go xs' ys'
         | _, _ => false
         end) xs ys
  | JProto p xs, JProto q ys =>
      json_eqb p q &&
      (fix go (xs ys : list (jsstring * json)) {struct xs} : bool :=
         match xs, ys with
         | [], [] => true
         | (k, x) :: xs', (k', y) :: ys' => str_eqb k k' && json_eqb x y && go xs' ys'
         | _, _ => false
         end) xs ys
  | _, _ => false
  end.

(** *** Objects as entry lists *)

(** The own property [k] among the entries [es]. *)
Fixpoint obj_get (es : list (jsstring * json)) (k : jsstring) : option json :=
  match es with
  | [] => None
  | (k', v) :: es' => if str_eqb k' k then Some v else obj_get es' k
  end.

(** The own property [k] set to [v]: an existing property keeps its
    place, a new one is added last. *)
Fixpoint obj_set (es : list (jsstring * json)) (k : jsstring) (v : json)
  : list (jsstring * json) :=
  match es with
  | [] => [(k, v)]
  | (k', v') :: es' =>
      if str_eqb k' k then (k, v) :: es' else (k', v') :: obj_set es' k v
  end.

(** [delete obj[k]], and the rest pattern [{k: _, ...rest}]. *)
Fixpoint obj_del (es : list (jsstring * json)) (k : jsstring)
  : list (jsstring * json) :=
  match es with
  | [] => []
  | (k', v') :: es' =>
      if str_eqb k' k then obj_del es' k else (k', v') :: obj_del es' k
  end.

Definition has_key (es : list (jsstring * json)) (k : jsstring) : bool :=
  bool_decide (is_Some (obj_get es k)).

(** [Object.entries] of an array: the indices, rendered in decimal. *)
Definition array_entries (l : list json) : list (jsstring * json) :=
  imap (fun i v => (decimal (N.of_nat i), v)) l.

(** The own property [k] of a value [v]. For a value as [JSON.parse] gives
    it this is what [v[k]] reads: the members it inherits from the
    built-in prototypes are functions (or, for [__proto__], a prototype
    object); none of them carries a [type], [items] or [properties] of its
    own, so wherever this development reads one as a schema it behaves
    as [undefined], and [None] stands for it. *)
Definition js_get (v : json) (k : jsstring) : option json :=
  match v with
  | JObj es | JProto _ es => obj_get es k
  | JArr l =>
      if str_eqb k (lit "length") then Some (JNum (decimal (N.of_nat (length l))))
      else i ← to_index k; l !! i
  | JStr s =>
      if str_eqb k (lit "length") then Some (JNum (decimal (N.of_nat (length s))))
      else i ← to_index k; c ← s !! i; Some (JStr [c])
  | _ => None
  end.

(** The data property [k] found on [v] or along its prototype chain, up to
    the built-in prototype. *)
Fixpoint chain_get (v : json) (k : jsstring) : option json :=
  match v with
  | JProto proto es =>
      match obj_get es k with
      | Some x => Some x
      | None => chain_get proto k
      end
  | _ => js_get v k
  end.

(** The prototype chain of [v] ends in [Object.prototype], where the
    accessor [__proto__] lives; it does not when a prototype was removed. *)
Fixpoint reaches_Object_prototype (v : json) : bool :=
  match v with
  | JArr _ | JObj _ => true
  | JProto proto _ => reaches_Object_prototype proto
  | _ => false
  end.

(** Property read [v[k]] for a value [v] that is not [null]: an own
    property, or one of a replaced prototype; [v.__proto__] on an object
    whose prototype was replaced gives that prototype, through the getter
    of [Object.prototype]. The members of the built-in prototypes are
    left out, as in [js_get]. *)
Definition js_read (v : json) (k : jsstring) : option json :=
  match chain_get v k with
  | Some x => Some x
  | None =>
      match v with
      | JProto proto _ =>
          if str_eqb k (lit "__proto__") && reaches_Object_prototype proto
          then Some proto else None
      | _ => None
      end
  end.

(** Optional chaining [v?.k], where [v] may be [undefined] or [null]. *)
Definition opt_get (v : option json) (k : jsstring) : option json :=
  match v with
  | None | Some JNull => None
  | Some v => js_read v k
  end.

(** [typeof v === "object" && v !== null]. *)
Definition is_object (v : json) : bool :=
  match v with
  | JArr _ | JObj _ | JProto _ _ => true
  | _ => false
  end.

(** What the setter of [Object.prototype.__proto__] does to the object
    with the entries [es] and the prototype [current] ([None] for
    [Object.prototype]): an object, an array or [null] becomes the
    prototype, any other value is ignored. *)
Definition set_prototype (current : option json) (es : list (jsstring * json))
    (v : json) : json :=
  if is_object v || match v with JNull => true | _ => false end then JProto v es
  else match current with
       | Some proto => JProto proto es
       | None => JObj es
       end.

(** The assignment [o[k] = v] on an object [o] that is not an array. A
    name other than [__proto__] becomes an own property. The name
    [__proto__] does too when [o] has it as an own property already, when
    a replaced prototype of [o] has a property of that name, or when the
    prototype chain no longer reaches [Object.prototype]; otherwise the
    assignment calls the setter. *)
Definition assign (o : json) (k : jsstring) (v : json) : json :=
  match o with
  | JObj es =>
      if str_eqb k (lit "__proto__") && negb (has_key es k)
      then set_prototype None es v
      else JObj (obj_set es k v)
  | JProto proto es =>
      if str_eqb k (lit "__proto__") && negb (has_key es k)
         && negb (bool_decide (is_Some (chain_get proto k)))
         && reaches_Object_prototype proto
      then set_prototype (Some proto) es v
      else JProto proto (obj_set es k v)
  | _ => o
  end.

(** [Object.entries(v)] for an object that is not an array. *)
Definition own_entries (v : json) : list (jsstring * json) :=
  match v with
  | JObj es | JProto _ es => es
  | _ => []
  end.

(** [JSON.parse(JSON.stringify(v))]: the own properties of [v], at every
    level, in objects with the built-in prototype. *)
Fixpoint own_content (v : json) : json :=
  match v with
  | JArr items => JArr (map own_content items)
  | JObj es | JProto _ es => JObj (map (fun kv => (kv.1, own_content kv.2)) es)
  | _ => v
  end.

(** A number literal denotes zero when its mantissa (the part before an
    exponent) has no non-zero digit. *)
Fixpoint num_is_zero (lexeme : jsstring) : bool :=
  match lexeme with
  | [] => true
  | c :: r =>
      if ((c =? 101) || (c =? 69))%N then true
      else (negb (is_digit c) || (c =? 48)%N) && num_is_zero r
  end.

(** ToBoolean. *)
Definition truthy (v : json) : bool :=
  match v with
  | JNull => false
  | JBool b => b
  | JNum n => negb (num_is_zero n)
  | JStr s => negb (bool_decide (s = []))
  | JArr _ | JObj _ | JProto _ _ => true
  end.

Definition opt_truthy (v : option json) : bool :=
  match v with Some v => truthy v | None => false end.

(** *** Size *)

Fixpoint jsize (v : json) : nat :=
  match v with
  | JNull | JBool _ | JNum _ => 1
  | JStr s => 2 + length s
  | JArr items => 2 + list_sum (map jsize items)
  | JObj entries => 2 + list_sum (map (fun kv => S (jsize kv.2)) entries)
  | JProto proto entries =>
      2 + jsize proto + list_sum (map (fun kv => S (jsize kv.2)) entries)
  end.

Definition entries_size (es : list (jsstring * json)) : nat :=
  list_sum (map (fun kv => S (jsize kv.2)) es).

End Json.

Export Json.

(** ** [JSON.parse]

    The grammar of ECMA-404 as [JSON.parse] reads it: four whitespace
    characters, no control character inside a string, the eight short
    escapes and [\uXXXX], numbers without a leading zero or a bare dot.
    A repeated member name overwrites the earlier value in place.

    The members of an object are kept in the order of the text, where
    the engine lists integer-like names first, and a number is kept as
    its literal, where the engine reads [1.0] and [1] as one number.
    What is proved of parsed values (their size, one entry per name, an
    object or an array for a text that starts with a brace or a bracket)
    holds for either order and for either reading of numbers. *)

Module JsonParse.

Inductive presult (A : Type) : Type :=
| POk (a : A)
| PFail
| POutOfFuel.
Arguments POk {A} a.
Arguments PFail {A}.
Arguments POutOfFuel {A}.

Definition is_json_ws (c : N) : bool :=
  ((c =? 9) || (c =? 10) || (c =? 13) || (c =? 32))%N.

Fixpoint skip_ws (s : jsstring) : jsstring :=
  match s with
  | c :: r => if is_json_ws c then skip_ws r else s
  | [] => []
  end.

Definition hex_val (c : N) : option N :=
  if is_digit c then Some (c - 48)%N
  else if ((97 <=? c) && (c <=? 102))%N then Some (c - 87)%N
  else if ((65 <=? c) && (c <=? 70))%N then Some (c - 55)%N
  else None.

Definition hex4 (a b c d : N) : option N :=
  x ← hex_val a; y ← hex_val b; z ← hex_val c; w ← hex_val d;
  Some (4096 * x + 256 * y + 16 * z + w)%N.

Definition short_escape (c : N) : option N :=
  if (c =? 34)%N then Some 34%N          (* quote *)
  else if (c =? 92)%N then Some 92%N     (* backslash *)
  else if (c =? 47)%N then Some 47%N     (* slash *)
  else if (c =? 98)%N then Some 8%N      (* backspace *)
  else if (c =? 102)%N then Some 12%N    (* form feed *)
  else if (c =? 110)%N then Some 10%N    (* line feed *)
  else if (c =? 114)%N then Some 13%N    (* carriage return *)
  else if (c =? 116)%N then Some 9%N     (* tab *)
  else None.

(** The characters of a string literal, after its opening quote. *)
Fixpoint parse_string_chars (s : jsstring) : option (jsstring * jsstring) :=
  match s with
  | [] => None
  | c :: r =>
      if (c =? 34)%N then Some ([], r)
      else if (c =? 92)%N then
        match r with
        | [] => None
        | e :: r1 =>
            if (e =? 117)%N then
              match r1 with
              | h1 :: h2 :: h3 :: h4 :: r2 =>
                  match hex4 h1 h2 h3 h4 with
                  | Some u =>
                      match parse_string_chars r2 with
                      | Some (str, rest) => Some (u :: str, rest)
                      | None => None
                      end
                  | None => None
                  end
              | _ => None
              end
            else
              match short_escape e with
              | Some u =>
                  match parse_string_chars r1 with
                  | Some (str, rest) => Some (u :: str, rest)
                  | None => None
                  end
              | None => None
              end
        end
      else if (c <? 32)%N then None
      else
        match parse_string_chars r with
        | Some (str, rest) => Some (c :: str, rest)
        | None => None
        end
  end.

(** The longest prefix of digits, and what follows it. *)
Fixpoint span_digits (s : jsstring) : jsstring * jsstring :=
  match s with
  | c :: r =>
      if is_digit c then let '(ds, rest) := span_digits r in (c :: ds, rest)
      else ([], s)
  | [] => ([], [])
  end.

(** The four parts of a number literal; each returns the text it read
    and what follows it. *)
Definition number_sign (s : jsstring) : jsstring * jsstring :=
  match s with
  | c :: r => if (c =? 45)%N then ([c], r) else ([], s)
  | [] => ([], s)
  end.

Definition number_int (s : jsstring) : option (jsstring * jsstring) :=
  match s with
  | c :: r =>
      if (c =? 48)%N then Some ([c], r)
      else if is_digit c then Some (span_digits s)
      else None
  | [] => None
  end.

Definition number_frac (s : jsstring) : option (jsstring * jsstring) :=
  match s with
  | c :: r =>
      if (c =? 46)%N then
        let '(ds, rest) := span_digits r in
        match ds with [] => None | _ => Some (c :: ds, rest) end
      else Some ([], s)
  | [] => Some ([], s)
  end.

Definition number_exp (s : jsstring) : option (jsstring * jsstring) :=
  match s with
  | e :: r =>
      if ((e =? 101) || (e =? 69))%N then
        let '(sg, r1) :=
          match r with
          | g :: r' => if ((g =? 43) || (g =? 45))%N then ([g], r') else ([], r)
          | [] => ([], r)
          end in
        let '(ds, rest) := span_digits r1 in
        match ds with [] => None | _ => Some (e :: sg ++ ds, rest) end
      else Some ([], s)
  | [] => Some ([], s)
  end.

(** A number literal: its text and what follows it. *)
Definition parse_number (s : jsstring) : option (jsstring * jsstring) :=
  let '(sign, s1) := number_sign s in
  '(int, s2) ← number_int s1;
  '(frac, s3) ← number_frac s2;
  '(exp, s4) ← number_exp s3;
  Some (sign ++ int ++ frac ++ exp, s4).

Definition parse_keyword (kw : jsstring) (v : json) (s : jsstring)
  : presult (json * jsstring) :=
  if startsWith s kw then POk (v, drop (length kw) s) else PFail.

(** The next character, when it is [c]. *)
Definition expect (c : N) (s : jsstring) : option jsstring :=
  match s with
  | d :: r => if (d =? c)%N then Some r else None
  | [] => None
  end.

Fixpoint parse_value (fuel : nat) (s : jsstring) {struct fuel}
  : presult (json * jsstring) :=
  match fuel with
  | 0 => POutOfFuel
  | S fuel =>
      match skip_ws s with
      | [] => PFail
      | c :: r =>
          if (c =? 123)%N then               (* left brace *)
            match expect 125 (skip_ws r) with
            | Some r' => POk (JObj [], r')
            | None => parse_members fuel r []
            end
          else if (c =? 91)%N then           (* left bracket *)
            match expect 93 (skip_ws r) with
            | Some r' => POk (JArr [], r')
            | None =>
                match parse_elements fuel r with
                | POk (vs, r') => POk (JArr vs, r')
                | PFail => PFail
                | POutOfFuel => POutOfFuel
                end
            end
          else if (c =? 34)%N then
            match parse_string_chars r with
            | Some (str, r') => POk (JStr str, r')
            | None => PFail
            end
          else if (c =? 116)%N then parse_keyword (lit "true") (JBool true) (c :: r)
          else if (c =? 102)%N then parse_keyword (lit "false") (JBool false) (c :: r)
          else if (c =? 110)%N then parse_keyword (lit "null") JNull (c :: r)
          else
            match parse_number (c :: r) with
            | Some (lexeme, r') => POk (JNum lexeme, r')
            | None => PFail
            end
      end
  end
with parse_elements (fuel : nat) (s : jsstring) {struct fuel}
  : presult (list json * jsstring) :=
  match fuel with
  | 0 => POutOfFuel
  | S fuel =>
      match parse_value fuel s with
      | POk (v, r) =>
          match skip_ws r with
          | d :: r' =>
              if (d =? 44)%N then
                match parse_elements fuel r' with
                | POk (vs, r2) => POk (v :: vs, r2)
                | PFail => PFail
                | POutOfFuel => POutOfFuel
                end
              else if (d =? 93)%N then POk ([v], r')
              else PFail
          | [] => PFail
          end
      | PFail => PFail
      | POutOfFuel => POutOfFuel
      end
  end
with parse_members (fuel : nat) (s : jsstring) (acc : list (jsstring * json))
  {struct fuel} : presult (json * jsstring) :=
  match fuel with
  | 0 => POutOfFuel
  | S fuel =>
      match expect 34 (skip_ws s) with
      | Some r =>
          match parse_string_chars r with
          | Some (k, r1) =>
              match expect 58 (skip_ws r1) with
              | Some r2 =>
                  match parse_value fuel r2 with
                  | POk (v, r3) =>
                      match skip_ws r3 with
                      | d :: r4 =>
                          if (d =? 44)%N then parse_members fuel r4 (obj_set acc k v)
                          else if (d =? 125)%N then POk (JObj (obj_set acc k v), r4)
                          else PFail
                      | [] => PFail
                      end
                  | PFail => PFail
                  | POutOfFuel => POutOfFuel
                  end
              | None => PFail
              end
          | None => PFail
          end
      | None => PFail
      end
  end.

(** The whole text is one value, with whitespace around it. *)
Definition parse_text (fuel : nat) (s : jsstring) : presult json :=
  match parse_value fuel s with
  | POk (v, r) => match skip_ws r with [] => POk v | _ => PFail end
  | PFail => PFail
  | POutOfFuel => POutOfFuel
  end.

Definition parse_fuel (s : jsstring) : nat := 2 * length s + 1.

(** [JSON.parse(s)]: [None] is the [SyntaxError]. *)
Definition JSON_parse (s : jsstring) : option json :=
  match parse_text (parse_fuel s) s with
  | POk v => Some v
  | _ => None
  end.

End JsonParse.

Export JsonParse.

(** ** [src/utils/schema.ts]

    The optional [logger] argument only records diagnostics; it has no
    part in the value returned and is left out. Where the source fills a
    fresh object with [result[key] = value], the key [__proto__] replaces
    the prototype of the object ([assign]), and what the source then
    reads from the object is read through it ([js_read]). *)

Module Schema.

(** [schema?.type === t]. *)
Definition schema_type_is (schema : option json) (t : string) : bool :=
  match opt_get schema (lit "type") with
  | Some (JStr s) => str_eqb s (lit t)
  | _ => false
  end.

(** [trimmed.startsWith("{") || trimmed.startsWith("[")]. *)
Definition looks_like_json (s : jsstring) : bool :=
  let trimmed := trim s in
  startsWith trimmed (lit "{") || startsWith trimmed (lit "[").

(** [schema?.properties || {}]. *)
Definition schema_properties (schema : option json) : json :=
  match opt_get schema (lit "properties") with
  | Some p => if truthy p then p else JObj []
  | None => JObj []
  end.

Definition is_arguments (fieldName : option jsstring) : bool :=
  match fieldName with
  | Some f => str_eqb f (lit "arguments")
  | None => false
  end.

Section walk.
(** The recursive call on the value parsed out of a string. *)
Variable recurse : json -> option json -> option jsstring -> json.

(** The body of [deepSanitizeParams]. *)
Fixpoint walk (params : json) (schema : option json)
    (fieldName : option jsstring) {struct params} : json :=
  match params with
  | JNull => params
  | JStr s =>
      if looks_like_json s then
        if schema_type_is schema "string" then params
        else if schema_type_is schema "object" || schema_type_is schema "array" then
          match JSON_parse s with
          | Some parsed => recurse parsed schema fieldName
          | None => params
          end
        else if is_arguments fieldName then
          match JSON_parse s with
          | Some parsed => recurse parsed schema fieldName
          | None => params
          end
        else params
      else params
  | JArr items =>
      let itemSchema := opt_get schema (lit "items") in
      JArr (map (fun item => walk item itemSchema fieldName) items)
  | JObj entries | JProto _ entries =>
      let properties := schema_properties schema in
      fold_left
        (fun sanitized kv =>
           assign sanitized kv.1 (walk kv.2 (js_read properties kv.1) (Some kv.1)))
        entries (JObj [])
  | JBool _ | JNum _ => params
  end.
End walk.

(** [deepSanitizeParams] with a bound on the nesting of texts inside
    texts. *)
Fixpoint sanitize_fuel (fuel : nat) : json -> option json -> option jsstring -> json :=
  match fuel with
  | 0 => fun params _ _ => params
  | S n => walk (sanitize_fuel n)
  end.

(** A text is longer than the value it holds, so the size of [params]
    bounds the nesting ([SchemaFacts.sanitize_fuel_irrelevant]). *)
Definition deepSanitizeParams (params : json) (schema : option json)
    (fieldName : option jsstring) : json :=
  sanitize_fuel (jsize params) params schema fieldName.

(** *** [sanitizeSchemaForGemini] *)

Definition unsupported_construct (key : jsstring) : bool :=
  str_eqb key (lit "oneOf") || str_eqb key (lit "anyOf")
  || str_eqb key (lit "allOf") || str_eqb key (lit "const").

(** [typeof v === "object"]: objects, arrays and [null]. *)
Definition typeof_object (v : json) : bool :=
  match v with
  | JNull | JArr _ | JObj _ | JProto _ _ => true
  | _ => false
  end.

(** [o.type === t], for an object [o]. *)
Definition type_is (o : json) (t : string) : bool :=
  match js_read o (lit "type") with
  | Some (JStr s) => str_eqb s (lit t)
  | _ => false
  end.

Section gemini.
(** The recursive call; [None] is a [TypeError] thrown on the way. *)
Variable sanitize : json -> option json.

(** [schema.map((item) => sanitizeSchemaForGemini(item))]. *)
Fixpoint sanitize_items (l : list json) : option (list json) :=
  match l with
  | [] => Some []
  | item :: l' =>
      item' ← sanitize item;
      rest ← sanitize_items l';
      Some (item' :: rest)
  end.

(** The inner loop over [Object.entries(value)], filling the object
    [result[key]], here [acc]. *)
Fixpoint sanitize_properties (ps : list (jsstring * json)) (acc : json)
  : option json :=
  match ps with
  | [] => Some acc
  | (propName, propValue) :: ps' =>
      v ← sanitize propValue;
      sanitize_properties ps' (assign acc propName v)
  end.

(** The same loop when [value] is an array: the names are the indices. *)
Fixpoint sanitize_indexed (i : nat) (ps : list json) (acc : json) : option json :=
  match ps with
  | [] => Some acc
  | propValue :: ps' =>
      v ← sanitize propValue;
      sanitize_indexed (S i) ps' (assign acc (decimal (N.of_nat i)) v)
  end.

(** The loop over [Object.entries(schema)], filling the object [result]. *)
Fixpoint gemini_loop (type_is_string : bool) (l : list (jsstring * json))
    (result : json) : option json :=
  match l with
  | [] => Some result
  | (key, value) :: l' =>
      if unsupported_construct key then gemini_loop type_is_string l' result
      else if str_eqb key (lit "enum") && negb type_is_string then
        gemini_loop type_is_string l' result
      else if str_eqb key (lit "required") then gemini_loop type_is_string l' result
      else if str_eqb key (lit "properties") && typeof_object value then
        props ←
          match value with
          | JObj ps | JProto _ ps => sanitize_properties ps (JObj [])
          | JArr ps => sanitize_indexed 0 ps (JObj [])
          | _ => None
          end;
        gemini_loop type_is_string l' (assign result key props)
      else if (str_eqb key (lit "items") || str_eqb key (lit "additionalProperties"))
              && typeof_object value then
        v ← sanitize value;
        gemini_loop type_is_string l' (assign result key v)
      else if typeof_object value && negb (json_eqb value JNull) then
        v ← sanitize value;
        gemini_loop type_is_string l' (assign result key v)
      else gemini_loop type_is_string l' (assign result key value)
  end.
End gemini.

(** [if (result.type === "object" && !result.properties) result.properties = {}]. *)
Definition ensure_properties (result : json) : json :=
  if type_is result "object" && negb (opt_truthy (js_read result (lit "properties")))
  then assign result (lit "properties") (JObj [])
  else result.

(** [None] is a [TypeError] thrown on the way. *)
Fixpoint sanitizeSchemaForGemini (schema : json) {struct schema} : option json :=
  match schema with
  | JNull | JBool _ | JNum _ | JStr _ => Some schema
  | JArr items => JArr <$> sanitize_items sanitizeSchemaForGemini items
  | JObj entries | JProto _ entries =>
      result ← gemini_loop sanitizeSchemaForGemini (type_is schema "string") entries (JObj []);
      Some (ensure_properties result)
  end.

End Schema.

Export Schema.

(** ** Promises and thrown values *)

Module Effects.

(** What a [throw] carries: an [Error] with its message, or some other
    value, of which only [String(e)] is ever read. *)
Inductive thrown : Type :=
| Error (message : jsstring)
| NonError (rendering : jsstring).

(** How an awaited promise settles. *)
Inductive outcome (A : Type) : Type :=
| Resolved (a : A)
| Rejected (e : thrown).
Arguments Resolved {A} a.
Arguments Rejected {A} e.

(** [e instanceof Error ? e.message : other]. *)
Definition message_or (e : thrown) (other : thrown -> jsstring) : jsstring :=
  match e with
  | Error m => m
  | NonError _ => other e
  end.

Definition rendering (e : thrown) : jsstring :=
  match e with
  | Error m => lit "Error: " ++ m
  | NonError r => r
  end.

End Effects.

Export Effects.

(** ** [src/mcp/MCPClient.ts]

    The transport factory, the connected SDK client inside a session and
    the image handler are supplied by the host. They are modelled as
    operations on a state [W] of the outside world, each returning how its
    promise settles. The state of the client is the [sessions] map; [calls]
    records, oldest first, the calls made to the transport factory. *)

Module MCPClient.

Section client.
Context {Session W : Type}.

Record TransportFactory := {
  createTransport : jsstring -> option jsstring -> W -> outcome Session * W;
  closeTransport : Session -> W -> outcome () * W;
}.

Record Processed := {
  processed_content : json;
  savedImages : option json;
}.

Record ImageHandler := {
  initialize : jsstring -> W -> outcome () * W;
  processToolResult : json -> W -> outcome Processed * W;
}.

Record MCPClientConfig := {
  transportFactory : TransportFactory;
  imageHandler : option ImageHandler;
  getCurrentUserId : option (W -> option jsstring);
  (** [session.client.callTool(toolCall)] and [session.client.listTools()]. *)
  client_callTool : Session -> jsstring -> json -> W -> outcome json * W;
  client_listTools : Session -> W -> outcome json * W;
}.

Inductive FactoryCall :=
| CreateTransport (settled : outcome Session)
| CloseTransport (session : Session) (settled : outcome ()).

Record State := {
  sessions : gmap jsstring Session;
  world : W;
  calls : list FactoryCall;
}.

Record MCPResult := {
  success : bool;
  error : option jsstring;
}.

(** *** Asynchronous methods as state transformers *)

Definition M (A : Type) : Type := State -> outcome A * State.

Definition ret {A} (a : A) : M A := fun st => (Resolved a, st).
Definition throw {A} (e : thrown) : M A := fun st => (Rejected e, st).
Definition bind {A B} (m : M A) (k : A -> M B) : M B :=
  fun st =>
    match m st with
    | (Resolved a, st') => k a st'
    | (Rejected e, st') => (Rejected e, st')
    end.
Definition try_catch {A} (m : M A) (handler : thrown -> M A) : M A :=
  fun st =>
    match m st with
    | (Resolved a, st') => (Resolved a, st')
    | (Rejected e, st') => handler e st'
    end.

#[local] Instance M_ret : MRet M := @ret.
#[local] Instance M_bind : MBind M := fun A B k m => bind m k.

(** An awaited call to the host, run on the world. *)
Definition host {A} (op : W -> outcome A * W) : M A :=
  fun st =>
    let '(r, w) := op (world st) in
    (r, {| sessions := sessions st; world := w; calls := calls st |}).

Definition factory_close (f : TransportFactory) (session : Session) : M () :=
  fun st =>
    let '(r, w) := closeTransport f session (world st) in
    (r, {| sessions := sessions st; world := w;
           calls := calls st ++ [CloseTransport session r] |}).

Definition factory_create (f : TransportFactory) (apiKey : jsstring)
    (sessionResumeHistory : option jsstring) : M Session :=
  fun st =>
    let '(r, w) := createTransport f apiKey sessionResumeHistory (world st) in
    (r, {| sessions := sessions st; world := w;
           calls := calls st ++ [CreateTransport r] |}).

Definition sessions_get (sessionId : jsstring) : M (option Session) :=
  fun st => (Resolved (sessions st !! sessionId), st).

Definition sessions_set (sessionId : jsstring) (session : Session) : M () :=
  fun st =>
    (Resolved (), {| sessions := <[sessionId := session]> (sessions st);
                     world := world st; calls := calls st |}).

Definition sessions_delete (sessionId : jsstring) : M () :=
  fun st =>
    (Resolved (), {| sessions := delete sessionId (sessions st);
                     world := world st; calls := calls st |}).

Definition unknown_error (e : thrown) : jsstring :=
  message_or e (fun _ => lit "Unknown error").

Variable config : MCPClientConfig.

Definition destroySession (sessionId : jsstring) : M MCPResult :=
  try_catch
    (session ← sessions_get sessionId;
     match session with
     | Some session =>
         factory_close (transportFactory config) session;;
         sessions_delete sessionId
     | None => ret ()
     end;;
     ret {| success := true; error := None |})
    (fun e => ret {| success := false; error := Some (unknown_error e) |}).

Definition createSession (sessionId apiKey : jsstring)
    (sessionResumeHistory : option jsstring) : M MCPResult :=
  try_catch
    (destroySession sessionId;;
     session ← factory_create (transportFactory config) apiKey sessionResumeHistory;
     sessions_set sessionId session;;
     ret {| success := true; error := None |})
    (fun e => ret {| success := false; error := Some (unknown_error e) |}).

Definition no_client (sessionId : jsstring) : thrown :=
  Error (lit "No MCP client found for session: " ++ sessionId).

Definition listTools (sessionId : jsstring) : M json :=
  session ← sessions_get sessionId;
  match session with
  | None => throw (no_client sessionId)
  | Some session =>
      try_catch (host (client_listTools config session)) (fun e => throw e)
  end.

(** [item?.type === "image" && item?.data]. *)
Definition is_image (item : json) : bool :=
  match opt_get (Some item) (lit "type") with
  | Some (JStr t) => str_eqb t (lit "image")
  | _ => false
  end && opt_truthy (opt_get (Some item) (lit "data")).

(** [result?.content], when it is truthy and an array. *)
Definition content_array (result : json) : option (list json) :=
  match opt_get (Some result) (lit "content") with
  | Some (JArr items) => Some items
  | _ => None
  end.

(** [{...result, content: processed.content, savedImages: processed.savedImages}].
    The spread copies the own properties of [result]; [savedImages] is
    always written over what [result] had under that name, and a
    [savedImages] that is [undefined] reads as no entry. *)
Definition with_processed (result : json) (p : Processed) : json :=
  let with_content := obj_set (own_entries result) (lit "content") (processed_content p) in
  JObj match savedImages p with
       | Some imgs => obj_set with_content (lit "savedImages") imgs
       | None => obj_del with_content (lit "savedImages")
       end.

Definition callTool (sessionId toolName : jsstring) (args : json) : M json :=
  session ← sessions_get sessionId;
  match session with
  | None => throw (no_client sessionId)
  | Some session =>
      let arguments := if truthy args then args else JObj [] in
      result ← host (client_callTool config session toolName arguments);
      match imageHandler config, getCurrentUserId config, content_array result with
      | Some handler, Some currentUserId, Some content =>
          if existsb is_image content then
            userId ← (fun st => (Resolved (currentUserId (world st)), st));
            match userId with
            | Some userId =>
                if negb (bool_decide (userId = [])) then
                  host (initialize handler userId);;
                  processed ← host (processToolResult handler result);
                  ret (with_processed result processed)
                else ret result
            | None => ret result
            end
          else ret result
      | _, _, _ => ret result
      end
  end.

Record SessionInfo := {
  exists_ : bool;
  isConnected : option bool;
}.

Definition getSessionInfo (sessionId : jsstring) : M SessionInfo :=
  session ← sessions_get sessionId;
  match session with
  | None => ret {| exists_ := false; isConnected := None |}
  | Some _ => ret {| exists_ := true; isConnected := Some true |}
  end.

Definition hasSession (sessionId : jsstring) (st : State) : bool :=
  bool_decide (is_Some (sessions st !! sessionId)).

(** [Array.from(this.sessions.keys())]: the keys, each once. The source
    lists them in the order the sessions were registered; the list here
    is in no particular order. *)
Definition getActiveSessions (st : State) : list jsstring :=
  (map_to_list (sessions st)).*1.

End client.

Arguments TransportFactory : clear implicits.
Arguments ImageHandler : clear implicits.
Arguments MCPClientConfig : clear implicits.
Arguments State : clear implicits.
Arguments FactoryCall : clear implicits.

End MCPClient.

(** ** [src/utils/models.ts] *)

Module Models.

Definition isChatGPTModel (modelId : jsstring) : bool :=
  startsWith modelId (lit "gpt-") || startsWith modelId (lit "openai/gpt-").

Definition isGoogleGeminiModel (modelId : jsstring) : bool :=
  startsWith modelId (lit "google/") || startsWith modelId (lit "gemini").

End Models.

Export Models.

(** ** [src/core/ToolBuilder.ts]

    One call of [buildMCPTools] serves one turn. Its closure holds the
    turn's [abortSignal] and the [activeToolExecutions] map; every call of
    a tool's [execute] adds an execution with an [AbortController] of its
    own. Executions run interleaved: each runs until its next [await] and
    goes on when the awaited promise settles. The host decides when a
    promise settles and with what, and when the turn is aborted; these are
    the events of the model. *)

Module ToolBuilder.

Record ConfirmationRequest := {
  request_type : jsstring;
  request_data : list (jsstring * option json);
}.

Record ConfirmationResult := {
  allowed : bool;
  reason : option jsstring;
  editedConfig : option json;
  wasEdited : option bool;
}.

Record Tool := {
  name : jsstring;
  inputSchema : option json;
}.

Record BuildToolsOptions := {
  sessionId : jsstring;
  streamId : jsstring;
  modelId : jsstring;
  (** Whether an [onArgsEdited] callback was given. *)
  onArgsEdited : bool;
}.

(** Reading [params.k] throws on [null]. *)
Definition null_read (k : string) : thrown :=
  Error (lit "Cannot read properties of null (reading '" ++ lit k ++ lit "')").

Definition is_named (toolName : jsstring) (n : string) : bool :=
  str_eqb toolName (lit n).

Definition read (params : json) (k : string) : option json :=
  js_read params (lit k).

Definition checkToolConfirmation (toolName : jsstring) (params : json)
  : outcome (option ConfirmationRequest) :=
  if is_named toolName "install_server" || is_named toolName "install_mcp_server" then
    match params with
    | JNull => Rejected (null_read "server_id")
    | _ =>
        Resolved (Some {| request_type := lit "install";
                          request_data := [(lit "serverId", read params "server_id");
                                           (lit "serverName", read params "server_name");
                                           (lit "config", read params "config")] |})
    end
  else if is_named toolName "uninstall_server" || is_named toolName "uninstall_mcp_server" then
    match params with
    | JNull => Rejected (null_read "server_id")
    | _ =>
        Resolved (Some {| request_type := lit "uninstall";
                          request_data := [(lit "serverId", read params "server_id");
                                           (lit "serverName", read params "server_name")] |})
    end
  else if is_named toolName "save_playbook" then
    match params with
    | JNull => Rejected (null_read "playbook_name")
    | _ =>
        Resolved (Some {| request_type := lit "save-playbook";
                          request_data := [(lit "playbookName", read params "playbook_name");
                                           (lit "description", read params "description");
                                           (lit "actions", read params "actions");
                                           (lit "privacy", read params "privacy")] |})
    end
  else if is_named toolName "submit_feedback" then
    match params with
    | JNull => Rejected (null_read "vote")
    | _ =>
        Resolved (Some {| request_type := lit "submit-feedback";
                          request_data := [(lit "vote", read params "vote");
                                           (lit "message", read params "message")] |})
    end
  else Resolved None.

(** Where an execution is suspended, with the locals it still needs. *)
Inductive Await : Type :=
| AwaitCheckToolConfirmation (settled : outcome (option ConfirmationRequest))
    (sanitizedParams : json)
| AwaitRequestConfirmation (confirmationRequest : ConfirmationRequest)
    (sanitizedParams : json)
| AwaitCallTool (finalParams : json).

Inductive Status : Type :=
| Running
| Suspended (at_ : Await)
| Returned (result : json)
| Threw (e : thrown).

(** One call of [execute]. [controller_aborted] is
    [toolAbortController.signal.aborted]. *)
Record Execution := {
  tool : Tool;
  toolExecutionId : jsstring;
  controller_aborted : bool;
  status : Status;
}.

(** The closure of [buildMCPTools]. A controller is named by the index of
    the execution that created it. [mcp_calls] and [args_edited] record the
    calls made to [adapter.mcp.callTool] and to [onArgsEdited]. *)
Record Turn := {
  abortSignal_aborted : bool;
  activeToolExecutions : gmap jsstring nat;
  executions : list Execution;
  mcp_calls : list (nat * jsstring * json);
  args_edited : list (jsstring * json * bool);
}.

Definition start : Turn :=
  {| abortSignal_aborted := false; activeToolExecutions := ∅;
     executions := []; mcp_calls := []; args_edited := [] |}.

Definition with_active (f : gmap jsstring nat -> gmap jsstring nat) (t : Turn) : Turn :=
  {| abortSignal_aborted := abortSignal_aborted t;
     activeToolExecutions := f (activeToolExecutions t);
     executions := executions t; mcp_calls := mcp_calls t;
     args_edited := args_edited t |}.

Definition with_executions (f : list Execution -> list Execution) (t : Turn) : Turn :=
  {| abortSignal_aborted := abortSignal_aborted t;
     activeToolExecutions := activeToolExecutions t;
     executions := f (executions t); mcp_calls := mcp_calls t;
     args_edited := args_edited t |}.

Definition set_status (s : Status) (e : Execution) : Execution :=
  {| tool := tool e; toolExecutionId := toolExecutionId e;
     controller_aborted := controller_aborted e; status := s |}.

Definition set_aborted (e : Execution) : Execution :=
  {| tool := tool e; toolExecutionId := toolExecutionId e;
     controller_aborted := true; status := status e |}.

(** Execution [i] settles or suspends. *)
Definition settle (i : nat) (s : Status) (t : Turn) : Turn :=
  with_executions (alter (set_status s) i) t.

Definition text_result (is_error : bool) (text : jsstring) : json :=
  let content :=
    (lit "content", JArr [JObj [(lit "type", JStr (lit "text"));
                                (lit "text", JStr text)]]) in
  JObj (if is_error then [(lit "isError", JBool true); content] else [content]).

Definition cancelled : thrown := Error (lit "Tool execution cancelled").

Definition has_message (e : thrown) (m : string) : bool :=
  match e with
  | Error m' => str_eqb m' (lit m)
  | NonError _ => false
  end.

(** The [catch] block of [execute]. *)
Definition catch_block (i : nat) (ex : Execution) (e : thrown) (t : Turn) : Turn :=
  let t := with_active (delete (toolExecutionId ex)) t in
  if controller_aborted ex || abortSignal_aborted t
     || has_message e "Tool execution cancelled"
  then settle i (Threw cancelled) t
  else settle i (Returned (text_result true
         (lit "Tool execution failed: " ++ message_or e rendering))) t.

(** From the check before the MCP call to the [await] of the call. *)
Definition dispatch (opts : BuildToolsOptions) (i : nat) (ex : Execution)
    (finalParams : json) (t : Turn) : Turn :=
  if controller_aborted ex then catch_block i ex cancelled t
  else
    settle i (Suspended (AwaitCallTool finalParams))
      {| abortSignal_aborted := abortSignal_aborted t;
         activeToolExecutions := activeToolExecutions t;
         executions := executions t;
         mcp_calls := mcp_calls t ++ [(i, name (tool ex), finalParams)];
         args_edited := args_edited t |}.

(** [const { args, ...rest } = params; params = { ...rest, arguments: args }],
    under its guard. *)
Definition rename_args (opts : BuildToolsOptions) (tl : Tool) (params : json) : json :=
  if str_eqb (name tl) (lit "call_tool") && isChatGPTModel (modelId opts)
     && opt_truthy (opt_get (Some params) (lit "args"))
     && negb (opt_truthy (opt_get (Some params) (lit "arguments")))
  then
    match params, js_read params (lit "args") with
    | JObj es, Some args | JProto _ es, Some args =>
        JObj (obj_set (obj_del es (lit "args")) (lit "arguments") args)
    | _, _ => params
    end
  else params.

(** [mcpTool.inputSchema || { type: "object", properties: {} }]. *)
Definition toolSchema (tl : Tool) : json :=
  match inputSchema tl with
  | Some s =>
      if truthy s then s
      else JObj [(lit "type", JStr (lit "object")); (lit "properties", JObj [])]
  | None => JObj [(lit "type", JStr (lit "object")); (lit "properties", JObj [])]
  end.

(** The own enumerable properties a spread [{...v}] copies. *)
Definition spread (v : json) : list (jsstring * json) :=
  match v with
  | JObj es | JProto _ es => es
  | JArr l => array_entries l
  | JStr s => imap (fun i c => (decimal (N.of_nat i), JStr [c])) s
  | _ => []
  end.

(** A call of [execute(params)] at time [now], up to its first [await].
    [interactive] is what [adapter.confirmations.isInteractive()] answers. *)
Definition execute (opts : BuildToolsOptions) (tl : Tool) (now : N) (params : json)
    (interactive : bool) (t : Turn) : Turn :=
  let i := length (executions t) in
  let id := name tl ++ lit "-" ++ decimal now in
  let ex := {| tool := tl; toolExecutionId := id; controller_aborted := false;
               status := Running |} in
  let t := with_executions (fun l => l ++ [ex]) (with_active <[id := i]> t) in
  if abortSignal_aborted t then
    settle i (Threw (Error (lit "Stream cancelled"))) (with_active (delete id) t)
  else
    let params := rename_args opts tl params in
    let sanitizedParams := deepSanitizeParams params (Some (toolSchema tl)) None in
    if controller_aborted ex then catch_block i ex cancelled t
    else if interactive then
      settle i (Suspended (AwaitCheckToolConfirmation
                             (checkToolConfirmation (name tl) sanitizedParams)
                             sanitizedParams)) t
    else dispatch opts i ex sanitizedParams t.

(** What the host answers to a suspended execution. *)
Inductive Response : Type :=
| Continue
| Confirmation (settled : outcome ConfirmationResult)
| ToolResult (settled : outcome json).

Definition denial (result : ConfirmationResult) : json :=
  text_result false
    (lit "Operation cancelled: " ++
     match reason result with
     | Some r => if bool_decide (r = []) then lit "User denied the operation" else r
     | None => lit "User denied the operation"
     end).

(** The part of [execute] that follows an [await], up to the next one. *)
Definition resume (opts : BuildToolsOptions) (i : nat) (r : Response) (t : Turn) : Turn :=
  match executions t !! i with
  | Some ex =>
      match status ex, r with
      | Suspended (AwaitCheckToolConfirmation settled sanitizedParams), Continue =>
          match settled with
          | Resolved (Some confirmationRequest) =>
              settle i (Suspended (AwaitRequestConfirmation confirmationRequest
                                     sanitizedParams)) t
          | Resolved None => dispatch opts i ex sanitizedParams t
          | Rejected e => catch_block i ex e t
          end
      | Suspended (AwaitRequestConfirmation confirmationRequest sanitizedParams),
        Confirmation settled =>
          match settled with
          | Resolved result =>
              if negb (allowed result) then settle i (Returned (denial result)) t
              else
                match editedConfig result with
                | Some config =>
                    if truthy config then
                      let copy := spread sanitizedParams in
                      let finalParams :=
                        JObj (if str_eqb (request_type confirmationRequest) (lit "install")
                              then obj_set copy (lit "config") config
                              else copy) in
                      let t :=
                        if onArgsEdited opts then
                          {| abortSignal_aborted := abortSignal_aborted t;
                             activeToolExecutions := activeToolExecutions t;
                             executions := executions t;
                             mcp_calls := mcp_calls t;
                             args_edited := args_edited t ++
                               [(name (tool ex), finalParams,
                                 bool_decide (wasEdited result = Some true))] |}
                        else t in
                      dispatch opts i ex finalParams t
                    else dispatch opts i ex sanitizedParams t
                | None => dispatch opts i ex sanitizedParams t
                end
          | Rejected e =>
              if has_message e "Stream cancelled by user"
              then catch_block i ex cancelled t
              else catch_block i ex e t
          end
      | Suspended (AwaitCallTool _), ToolResult settled =>
          match settled with
          | Resolved result => settle i (Returned result) t
          | Rejected e => catch_block i ex e t
          end
      | _, _ => t
      end
  | None => t
  end.

(** The listener on the turn's signal. The signal fires it once. *)
Definition abort (t : Turn) : Turn :=
  if abortSignal_aborted t then t
  else
    {| abortSignal_aborted := true;
       activeToolExecutions := ∅;
       executions :=
         map_fold (fun _ controller l => alter set_aborted controller l)
           (executions t) (activeToolExecutions t);
       mcp_calls := mcp_calls t;
       args_edited := args_edited t |}.

Inductive Event : Type :=
| Execute (tl : Tool) (now : N) (params : json) (interactive : bool)
| Resume (i : nat) (r : Response)
| Abort.

Definition step (opts : BuildToolsOptions) (t : Turn) (ev : Event) : Turn :=
  match ev with
  | Execute tl now params interactive => execute opts tl now params interactive t
  | Resume i r => resume opts i r t
  | Abort => abort t
  end.

Definition run (opts : BuildToolsOptions) (t : Turn) (evs : list Event) : Turn :=
  fold_left (step opts) evs t.

End ToolBuilder.

(** ** What the properties below are stated with *)

Module SchemaSpec.

(** The name whose assignment replaces a prototype. *)
Definition proto_key : jsstring := lit "__proto__".

(** An object that is not an array. *)
Definition is_record (v : json) : Prop :=
  match v with
  | JObj _ | JProto _ _ => True
  | _ => False
  end.

(** The object a loop [for (const [key, value] of Object.entries(...))
    result[key] = g(key, value)] fills, entry by entry, from the entries
    [es], starting from the object [acc]. *)
Definition fill (g : jsstring -> json -> json) (es : list (jsstring * json))
    (acc : json) : json :=
  fold_left (fun result kv => assign result kv.1 (g kv.1 kv.2)) es acc.

(** The entries such a loop adds when no name is [__proto__]. *)
Definition build (g : jsstring -> json -> json) (es acc : list (jsstring * json))
  : list (jsstring * json) :=
  fold_left (fun sanitized kv => obj_set sanitized kv.1 (g kv.1 kv.2)) es acc.

(** The entries of [es] that become own properties: all but the one
    called [__proto__]. *)
Definition own_part (es : list (jsstring * json)) : list (jsstring * json) :=
  filter (fun kv => kv.1 <> proto_key) es.

(** No object of the value has two entries of one name. *)
Fixpoint unique_keys (v : json) : bool :=
  match v with
  | JObj es => bool_decide (NoDup es.*1) && forallb (fun kv => unique_keys kv.2) es
  | JProto proto es =>
      bool_decide (NoDup es.*1) && unique_keys proto
      && forallb (fun kv => unique_keys kv.2) es
  | JArr l => forallb unique_keys l
  | _ => true
  end.


(** A plain value no object of which has an own property called
    [__proto__]. *)
Fixpoint proto_free (v : json) : bool :=
  match v with
  | JObj es => negb (has_key es proto_key) && forallb (fun kv => proto_free kv.2) es
  | JArr l => forallb proto_free l
  | JProto _ _ => false
  | _ => true
  end.





(** No object of the value has [properties: null]. *)
Fixpoint no_null_properties (v : json) : bool :=
  match v with
  | JObj es | JProto _ es =>
      forallb (fun kv => negb (str_eqb kv.1 (lit "properties") && json_eqb kv.2 JNull)
                         && no_null_properties kv.2) es
  | JArr l => forallb no_null_properties l
  | _ => true
  end.

(** The recursive call [f] returns on [v]. *)
Definition returns (f : json -> option json) (v : json) : Prop :=
  exists out, f v = Some out.

(** What the loop needs of an entry to go past it. *)
Definition passable (f : json -> option json) (kv : jsstring * json) : Prop :=
  returns f kv.2 /\
  (kv.1 = lit "properties" ->
   match kv.2 with
   | JNull => False
   | JObj ps | JProto _ ps => Forall (fun p => returns f p.2) ps
   | JArr ps => Forall (returns f) ps
   | _ => True
   end).









(** An object with an own property called [__proto__], as
    [JSON.parse] gives it for such a text. *)
Definition with_proto_entry : json :=
  JObj [(proto_key, JObj [(lit "a", JNum (lit "1"))])].

(** A node of type "object" whose [properties] are under an own
    [__proto__] entry. *)
Definition properties_in_prototype : json :=
  JObj [(lit "type", JStr (lit "object"));
        (proto_key, JObj [(lit "properties", JObj [(lit "q", JObj [])])])].

(** [{type: "string"}]. *)
Definition string_schema : json := JObj [(lit "type", JStr (lit "string"))].

(** A tool with one parameter, called [required]. *)
Definition parameter_named_required : json :=
  JObj [(lit "type", JStr (lit "object"));
        (lit "properties",
         JObj [(lit "required", JObj [(lit "type", JStr (lit "boolean"))])])].

(** A schema with every construct the restricted provider refuses. *)
Definition mixed_schema : json :=
  JObj [(lit "type", JStr (lit "object"));
        (lit "required", JArr [JStr (lit "q")]);
        (lit "properties",
         JObj [(lit "q", JObj [(lit "type", JStr (lit "string"));
                               (lit "enum", JArr [JStr (lit "a"); JStr (lit "b")])]);
               (lit "n", JObj [(lit "type", JStr (lit "number"));
                               (lit "enum", JArr [JNum (lit "1")]);
                               (lit "const", JNum (lit "1"))]);
               (lit "o", JObj [(lit "type", JStr (lit "object"))])]);
        (lit "anyOf", JArr [JObj []])].

End SchemaSpec.

Export SchemaSpec.

Module ClientExamples.

Import MCPClient.

(** A host whose sessions are numbered in the order they are opened. The
    world is the number of the next session. The factory opens at most
    [max_sessions] sessions and rejects after that; with [close_fails] it
    rejects every close. *)
Definition scripted_factory (close_fails : bool) (max_sessions : nat)
  : TransportFactory nat nat :=
  {| createTransport := fun _ _ w =>
       if decide (w < max_sessions) then (Resolved w, S w)
       else (Rejected (Error (lit "spawn failed")), w);
     closeTransport := fun _ w =>
       if close_fails then (Rejected (Error (lit "close failed")), w)
       else (Resolved (), w) |}.

Definition image_result : json :=
  JObj [(lit "content",
         JArr [JObj [(lit "type", JStr (lit "image")); (lit "data", JStr (lit "iVBOR"))]])].

(** An image handler that initializes and then fails to process. *)
Definition failing_handler : ImageHandler nat :=
  {| initialize := fun _ w => (Resolved (), w);
     processToolResult := fun _ w => (Rejected (Error (lit "disk full")), w) |}.

Definition scripted_config (close_fails : bool) (max_sessions : nat)
    (handler : option (ImageHandler nat)) : MCPClientConfig nat nat :=
  {| transportFactory := scripted_factory close_fails max_sessions;
     imageHandler := handler;
     getCurrentUserId := Some (fun _ => Some (lit "user-1"));
     client_callTool := fun _ _ _ w => (Resolved image_result, w);
     client_listTools := fun _ w => (Resolved (JObj [(lit "tools", JArr [])]), w) |}.

(** A raw result that already has a [savedImages] field. *)
Definition stale_result : json :=
  JObj [(lit "content",
         JArr [JObj [(lit "type", JStr (lit "image")); (lit "data", JStr (lit "iVBOR"))]]);
        (lit "savedImages", JArr [JStr (lit "old.png")]);
        (lit "isError", JBool false)].

(** An image handler that puts a text in the place of the image and
    reports no saved image. *)
Definition text_handler : ImageHandler nat :=
  {| initialize := fun _ w => (Resolved (), w);
     processToolResult := fun _ w =>
       (Resolved {| processed_content :=
                      JArr [JObj [(lit "type", JStr (lit "text"));
                                  (lit "text", JStr (lit "[image]"))]];
                    savedImages := None |}, w) |}.

(** A client with that handler, whose tool calls resolve with
    [stale_result]. *)
Definition stale_config : MCPClientConfig nat nat :=
  {| transportFactory := scripted_factory false 1;
     imageHandler := Some text_handler;
     getCurrentUserId := Some (fun _ => Some (lit "user-1"));
     client_callTool := fun _ _ _ w => (Resolved stale_result, w);
     client_listTools := fun _ w => (Resolved (JObj [(lit "tools", JArr [])]), w) |}.

Definition no_session : State nat nat :=
  {| sessions := ∅; world := 0; calls := [] |}.

(** A registry holding session 0 under the key [chat]. *)
Definition one_session : State nat nat :=
  {| sessions := {[ lit "chat" := 0 ]}; world := 1; calls := [] |}.

End ClientExamples.

Export ClientExamples.

Module TurnSpec.

Import ToolBuilder.

(** Suspended before the MCP call was made. *)
Definition pre_dispatch (s : Status) : Prop :=
  match s with
  | Suspended (AwaitCheckToolConfirmation _ _)
  | Suspended (AwaitRequestConfirmation _ _) => True
  | _ => False
  end.

(** What the host's answer makes of an execution whose controller is
    aborted, from its status [s]. Before the confirmation request it goes
    on to the request when there is one to make, and otherwise meets the
    check before the MCP call, which throws. Awaiting the answer to its
    request it returns the denial notice when the answer is
    [allowed: false] and meets that check when it is [allowed: true];
    a request that fails ends as cancelled too. Awaiting its MCP call,
    which no check follows, it returns the result when the call resolves,
    and ends as cancelled when the call rejects. An answer it does not
    await changes nothing. *)
Definition next_after_abort (s : Status) (r : Response) : Status :=
  match s, r with
  | Suspended (AwaitCheckToolConfirmation (Resolved (Some confirmationRequest))
                 sanitizedParams), Continue =>
      Suspended (AwaitRequestConfirmation confirmationRequest sanitizedParams)
  | Suspended (AwaitCheckToolConfirmation _ _), Continue => Threw cancelled
  | Suspended (AwaitRequestConfirmation _ _), Confirmation (Resolved result) =>
      if allowed result then Threw cancelled else Returned (denial result)
  | Suspended (AwaitRequestConfirmation _ _), Confirmation (Rejected _) =>
      Threw cancelled
  | Suspended (AwaitCallTool _), ToolResult (Resolved result) => Returned result
  | Suspended (AwaitCallTool _), ToolResult (Rejected _) => Threw cancelled
  | _, _ => s
  end.

(** The status of execution [i], its controller aborted, after the
    events [evs], from the status [s]: only the answers given to [i]
    count. *)
Definition status_after (i : nat) (s : Status) (evs : list Event) : Status :=
  fold_left (fun s ev =>
               match ev with
               | Resume j r => if decide (j = i) then next_after_abort s r else s
               | _ => s
               end) evs s.

(** The calls to [adapter.mcp.callTool] made by execution [i]. *)
Definition calls_of (i : nat) (t : Turn) : list (nat * jsstring * json) :=
  filter (fun c => c.1.1 = i) (mcp_calls t).

Definition gpt : BuildToolsOptions :=
  {| sessionId := lit "chat"; streamId := lit "stream-1"; modelId := lit "gpt-4o";
     onArgsEdited := true |}.

Definition search_servers : Tool :=
  {| name := lit "search_servers"; inputSchema := None |}.

Definition install_server : Tool :=
  {| name := lit "install_server";
     inputSchema :=
       Some (JObj [(lit "type", JStr (lit "object"));
                   (lit "properties",
                    JObj [(lit "server_id", JObj [(lit "type", JStr (lit "string"))])])]) |}.

Definition weather : json := JObj [(lit "server_id", JStr (lit "weather"))].

Definition found : json :=
  JObj [(lit "content", JArr [JObj [(lit "type", JStr (lit "text"));
                                    (lit "text", JStr (lit "3 servers"))]])].

Definition deny : ConfirmationResult :=
  {| allowed := false; reason := None; editedConfig := None; wasEdited := None |}.

Definition allow : ConfirmationResult :=
  {| allowed := true; reason := None; editedConfig := None; wasEdited := None |}.

(** The events after which one execution of [install_server] awaits the
    answer to its confirmation request. *)
Definition awaiting_confirmation : list Event :=
  [Execute install_server 1762150000000 weather true; Resume 0 Continue].

(** How one resumption changes the status of the execution resumed. *)
Definition resumed (controller : bool) (s s' : Status) : Prop :=
  match s with
  | Suspended (AwaitCallTool _) =>
      s' = s \/ s' = Threw cancelled \/ exists result, s' = Returned result
  | Suspended _ =>
      s' = s \/ pre_dispatch s' \/ s' = Threw cancelled
      \/ (exists result, s' = Returned (denial result))
      \/ (controller = false /\
          ((exists p, s' = Suspended (AwaitCallTool p)) \/ exists result, s' = Returned result))
  | _ => s' = s
  end.

(** Every MCP call on record was made by an execution that is past the
    confirmation gate. *)
Definition calls_dispatched (t : Turn) : Prop :=
  forall c, c ∈ mcp_calls t ->
    exists ex, executions t !! c.1.1 = Some ex /\ ~ pre_dispatch (status ex).

End TurnSpec.

Export TurnSpec.

Module ArgumentSpec.

(** Some object of the value has an entry called [arguments]. *)
Fixpoint mentions_arguments (v : json) : bool :=
  match v with
  | JObj es | JProto _ es =>
      existsb (fun kv => str_eqb kv.1 (lit "arguments") || mentions_arguments kv.2) es
  | JArr l => existsb mentions_arguments l
  | _ => false
  end.

(** Boolean tests on code units, read as propositions. *)
Ltac bools :=
  repeat first
    [ rewrite orb_true_iff in * | rewrite andb_true_iff in *
    | rewrite orb_false_iff in * | rewrite andb_false_iff in *
    | rewrite N.eqb_eq in * | rewrite N.eqb_neq in *
    | rewrite N.leb_le in * | rewrite N.leb_gt in * ].

End ArgumentSpec.
Export ArgumentSpec.

(** ** [src/mcp/DefaultStdioTransportFactory.ts] *)

Module DefaultTransport.

Import MCPClient.

Section factory.
Context {Session W : Type}.

(** [closeTransport]: [try { await session.client.close() } catch {}].
    [client_close] is the close of the SDK client inside the session. *)
Definition default_closeTransport (client_close : Session -> W -> outcome () * W)
    (session : Session) (w : W) : outcome () * W :=
  let '(_, w') := client_close session w in (Resolved (), w').

End factory.

End DefaultTransport.
Export DefaultTransport.

Module RegistryExamples.

Import MCPClient.

(** An SDK client whose [close] always rejects. *)
Definition failing_close : nat -> nat -> outcome () * nat :=
  fun _ w => (Rejected (Error (lit "socket hang up")), w).

(** The scripted factory, closing the way the default factory does. *)
Definition default_factory (max_sessions : nat) : TransportFactory nat nat :=
  {| createTransport := createTransport (scripted_factory false max_sessions);
     closeTransport := default_closeTransport failing_close |}.

(** A host whose tools answer with text only. *)
Definition text_config : MCPClientConfig nat nat :=
  {| transportFactory := default_factory 1;
     imageHandler := Some failing_handler;
     getCurrentUserId := Some (fun _ => Some (lit "user-1"));
     client_callTool := fun _ _ _ w => (Resolved found, w);
     client_listTools := fun _ w => (Resolved (JObj [(lit "tools", JArr [])]), w) |}.

End RegistryExamples.
Export RegistryExamples.

Module LifecycleSpec.

Import ToolBuilder.

(** What [execute] throws on a turn that is already aborted. *)
Definition stream_cancelled : thrown := Error (lit "Stream cancelled").

(** The tools [checkToolConfirmation] asks a confirmation for, with the
    type of the request. *)
Definition confirmation_table : list (jsstring * jsstring) :=
  [(lit "install_server", lit "install");
   (lit "install_mcp_server", lit "install");
   (lit "uninstall_server", lit "uninstall");
   (lit "uninstall_mcp_server", lit "uninstall");
   (lit "save_playbook", lit "save-playbook");
   (lit "submit_feedback", lit "submit-feedback")].

(** An execution that threw did so with one of the two cancellations. *)
Definition throws_only_cancellation (t : Turn) : Prop :=
  forall i ex e, executions t !! i = Some ex -> status ex = Threw e ->
    e = cancelled \/ e = stream_cancelled.

(** Every entry of the map belongs to an execution of that id which has
    not thrown. *)
Definition registered_live (t : Turn) : Prop :=
  forall id i, activeToolExecutions t !! id = Some i ->
    exists ex, executions t !! i = Some ex /\ toolExecutionId ex = id
      /\ forall e, status ex <> Threw e.

(** The execution a call of [execute] adds, in the state [s] it reaches
    before its first [await]. *)
Definition started (tl : Tool) (now : N) (s : Status) : Execution :=
  {| tool := tl; toolExecutionId := name tl ++ lit "-" ++ decimal now;
     controller_aborted := false; status := s |}.

(** How one resumption changes the map, seen with the new status [s'] of
    the execution resumed. *)
Definition moves (j : nat) (ex : Execution) (t t' : Turn) : Prop :=
  exists s', executions t' !! j = Some (set_status s' ex)
    /\ ((activeToolExecutions t' = activeToolExecutions t
         /\ forall e, s' = Threw e -> status ex = Threw e)
        \/ activeToolExecutions t' = delete (toolExecutionId ex) (activeToolExecutions t)).

(** What holds of index [i] on a turn that is aborted with an empty map,
    [cs] being the MCP calls recorded for [i]. *)
Definition closed (i : nat) (cs : list (nat * jsstring * json)) (t : Turn) : Prop :=
  abortSignal_aborted t = true
  /\ activeToolExecutions t = ∅
  /\ calls_of i t = cs
  /\ forall ex, executions t !! i = Some ex -> status ex = Threw stream_cancelled.

End LifecycleSpec.
Export LifecycleSpec.

(** ** [src/utils/schema.ts]: [resolveSchemaRefs] and [cleanToolSchema]

    A definition that refers to itself makes [resolveSchemaRefs] recurse
    until the engine gives up with a [RangeError], so the function is
    given with a bound [fuel] on the depth of its calls; [None] says that
    the bound was reached. As in [Schema], the [logger] is left out, the
    loop that fills [result] assigns ([assign]) and the properties of a
    schema are read through a replaced prototype ([js_read]). *)

Module SchemaRefs.

(** LineTerminator code units, which [.] of a regular expression does not
    match. *)
Definition is_line_terminator (c : N) : bool :=
  ((c =? 10) || (c =? 13) || (c =? 8232) || (c =? 8233))%N.

Definition strip_prefix (p s : jsstring) : option jsstring :=
  if startsWith s p then Some (drop (length p) s) else None.

(** Group 2 of [ref.match(/^#\/(\$defs|definitions)\/(.+)$/)], when the
    pattern matches. *)
Definition ref_name (ref : jsstring) : option jsstring :=
  defName ← match strip_prefix (lit "#/$defs/") ref with
            | Some n => Some n
            | None => strip_prefix (lit "#/definitions/") ref
            end;
  if negb (bool_decide (defName = []))
     && forallb (fun c => negb (is_line_terminator c)) defName
  then Some defName else None.

(** What [defs[defName]] finds. *)
Inductive Member : Type :=
| Own (value : json)
| Inherited
| Missing.

(** [{ ...resolved, ...otherProps }]. *)
Definition merge (resolved : json) (otherProps : list (jsstring * json)) : json :=
  JObj (fold_left (fun acc kv => obj_set acc kv.1 kv.2) otherProps
          (ToolBuilder.spread resolved)).

Section resolve.
(** [inherited v k]: reading [v[k]] finds a member of a built-in
    prototype ([toString], [constructor], [__proto__], ...), and no
    property of [v] or of a prototype that replaced its own. Such a
    member is a function or a built-in prototype object: it is truthy,
    [resolveSchemaRefs] gives for it a value without own enumerable
    properties, and a spread of that value copies nothing. *)
Variable inherited : json -> jsstring -> bool.

Definition member (defs : json) (defName : jsstring) : Member :=
  match js_read defs defName with
  | Some value => Own value
  | None => if inherited defs defName then Inherited else Missing
  end.

Section step.
(** The recursive call. *)
Variable recurse : json -> option json -> option json.

(** The loop over [Object.entries(schema)], filling the object [result]. *)
Fixpoint resolve_entries (defs : option json) (l : list (jsstring * json))
    (result : json) : option json :=
  match l with
  | [] => Some result
  | (key, value) :: l' =>
      if str_eqb key (lit "$defs") || str_eqb key (lit "definitions") then
        resolve_entries defs l' (assign result key value)
      else
        v ← recurse value defs;
        resolve_entries defs l' (assign result key v)
  end.

(** The body of [resolveSchemaRefs]. *)
Definition resolve_body (schema : json) (defs : option json) : option json :=
  match schema with
  | JNull | JBool _ | JNum _ | JStr _ => Some schema
  | JArr items => JArr <$> mapM (fun item => recurse item defs) items
  | JObj entries | JProto _ entries =>
      let defs :=
        if negb (opt_truthy defs) && opt_truthy (js_read schema (lit "$defs"))
        then js_read schema (lit "$defs") else defs in
      match js_read schema (lit "$ref") with
      | Some (JStr ref) =>
          if bool_decide (ref = []) then resolve_entries defs entries (JObj [])
          else
            let otherProps := obj_del entries (lit "$ref") in
            match ref_name ref, defs with
            | Some defName, Some d =>
                if truthy d then
                  match member d defName with
                  | Own resolvedDef =>
                      if truthy resolvedDef then
                        resolved ← recurse resolvedDef defs;
                        Some (merge resolved otherProps)
                      else Some (JObj [])
                  | Inherited => Some (merge (JObj []) otherProps)
                  | Missing => Some (JObj [])
                  end
                else Some (JObj [])
            | _, _ => Some (JObj [])
            end
      | _ => resolve_entries defs entries (JObj [])
      end
  end.
End step.

Fixpoint resolveSchemaRefs (fuel : nat) (schema : json) (defs : option json)
  : option json :=
  match fuel with
  | 0 => None
  | S n => resolve_body (resolveSchemaRefs n) schema defs
  end.

(** How a call of [cleanToolSchema] ends. *)
Inductive Cleaning : Type :=
| Cleaned (schema : json)
| TypeError
| Unbounded.

(** [delete v[k]]: an own property goes, an inherited one stays. *)
Definition delete_key (v : json) (k : jsstring) : json :=
  match v with
  | JObj es => JObj (obj_del es k)
  | JProto proto es => JProto proto (obj_del es k)
  | _ => v
  end.

(** [schema] is [None] for [undefined]. The deep clone is
    [JSON.parse(JSON.stringify(schema))]. *)
Definition cleanToolSchema (fuel : nat) (schema : option json) (isGemini : bool)
  : Cleaning :=
  if negb (opt_truthy schema) then
    Cleaned (JObj [(lit "type", JStr (lit "object")); (lit "properties", JObj [])])
  else
    let cleanedSchema :=
      delete_key (own_content (default JNull schema)) (lit "$schema") in
    match resolveSchemaRefs fuel cleanedSchema None with
    | None => Unbounded
    | Some resolvedSchema =>
        let resolvedSchema :=
          delete_key (delete_key resolvedSchema (lit "$defs")) (lit "definitions") in
        if isGemini then
          match sanitizeSchemaForGemini resolvedSchema with
          | Some out => Cleaned out
          | None => TypeError
          end
        else Cleaned resolvedSchema
    end.

End resolve.

End SchemaRefs.
Export SchemaRefs.

(** ** [src/utils/models.ts]: [isAnthropicModel] and [parseModelId] *)

Module ModelIds.

Definition isAnthropicModel (modelId : jsstring) : bool :=
  startsWith modelId (lit "anthropic/") || startsWith modelId (lit "claude").

(** [s.split("/")]. *)
Fixpoint split (s : jsstring) : list jsstring :=
  match s with
  | [] => [[]]
  | c :: r =>
      if (c =? 47)%N then [] :: split r
      else match split r with
           | part :: parts => (c :: part) :: parts
           | [] => [[c]]
           end
  end.

(** [parts.join("/")]. *)
Fixpoint join (parts : list jsstring) : jsstring :=
  match parts with
  | [] => []
  | [part] => part
  | part :: parts' => part ++ 47%N :: join parts'
  end.

Record ParsedModelId := {
  providerId : jsstring;
  actualModelId : jsstring;
}.

Definition parseModelId (modelId : jsstring) : ParsedModelId :=
  let parts := split modelId in
  if Nat.eqb (length parts) 1 then
    if startsWith modelId (lit "gpt-") || startsWith modelId (lit "o1") then
      {| providerId := lit "openai"; actualModelId := modelId |}
    else if startsWith modelId (lit "claude") then
      {| providerId := lit "anthropic"; actualModelId := modelId |}
    else if startsWith modelId (lit "gemini") then
      {| providerId := lit "google"; actualModelId := modelId |}
    else {| providerId := lit "toolplex"; actualModelId := modelId |}
  else
    {| providerId := default [] (head parts);
       actualModelId := join (tail parts) |}.

End ModelIds.
Export ModelIds.

Module RefSpec.

(** [key === "$defs" || key === "definitions"]. *)
Definition defs_key (key : jsstring) : bool :=
  str_eqb key (lit "$defs") || str_eqb key (lit "definitions").

(** The object has a [$ref] that is a non-empty string. *)
Definition is_ref (entries : list (jsstring * json)) : bool :=
  match obj_get entries (lit "$ref") with
  | Some (JStr ref) => negb (bool_decide (ref = []))
  | _ => false
  end.

(** No object of the value is a reference, the values under [$defs] and
    [definitions] apart. *)
Fixpoint ref_free (v : json) : bool :=
  match v with
  | JObj es => negb (is_ref es) && forallb (fun kv => defs_key kv.1 || ref_free kv.2) es
  | JArr l => forallb ref_free l
  | _ => true
  end.

(** No object of the value has a truthy [$defs], the values under [$defs]
    and [definitions] apart. *)
Fixpoint no_defs (v : json) : bool :=
  match v with
  | JObj es =>
      negb (opt_truthy (obj_get es (lit "$defs")))
      && forallb (fun kv => defs_key kv.1 || no_defs kv.2) es
  | JArr l => forallb no_defs l
  | _ => true
  end.

(** The value with every reference replaced by the empty schema. *)
Fixpoint drop_refs (v : json) : json :=
  match v with
  | JObj es =>
      if is_ref es then JObj []
      else JObj (map (fun kv => (kv.1, if defs_key kv.1 then kv.2 else drop_refs kv.2)) es)
  | JArr l => JArr (map drop_refs l)
  | _ => v
  end.

(** The definitions in reach inside an object: [if (!defs && schema.$defs)
    defs = schema.$defs]. *)
Definition found_defs (entries : list (jsstring * json)) (defs : option json)
  : option json :=
  if negb (opt_truthy defs) && opt_truthy (obj_get entries (lit "$defs"))
  then obj_get entries (lit "$defs") else defs.

(** A schema whose definition [Node] refers to itself. *)
Definition linked_list : json :=
  JObj [(lit "type", JStr (lit "object"));
        (lit "properties", JObj [(lit "head", JObj [(lit "$ref", JStr (lit "#/$defs/Node"))])]);
        (lit "$defs",
         JObj [(lit "Node", JObj [(lit "$ref", JStr (lit "#/$defs/Node"))])])].

(** A schema that keeps its definitions under [definitions]. *)
Definition draft7 : json :=
  JObj [(lit "type", JStr (lit "object"));
        (lit "properties",
         JObj [(lit "voice", JObj [(lit "$ref", JStr (lit "#/definitions/Voice"))])]);
        (lit "definitions",
         JObj [(lit "Voice", JObj [(lit "type", JStr (lit "string"))])])].

(** A schema that keeps them under [$defs]. *)
Definition draft2020 : json :=
  JObj [(lit "$schema", JStr (lit "https://json-schema.org/draft/2020-12/schema"));
        (lit "type", JStr (lit "object"));
        (lit "properties",
         JObj [(lit "voice", JObj [(lit "$ref", JStr (lit "#/$defs/Voice"));
                                   (lit "description", JStr (lit "the voice"))])]);
        (lit "$defs",
         JObj [(lit "Voice", JObj [(lit "type", JStr (lit "string"));
                                   (lit "description", JStr (lit "a voice"))])])].


Definition voice : json :=
  JObj [(lit "type", JStr (lit "string")); (lit "description", JStr (lit "a voice"))].

Definition voice_defs : json := JObj [(lit "Voice", voice)].

Definition node_defs : json :=
  JObj [(lit "Node", JObj [(lit "$ref", JStr (lit "#/$defs/Node"))])].

(** No member is inherited: the prototypes are left out. *)
Definition no_prototype (v : json) (k : jsstring) : bool := false.

End RefSpec.
Export RefSpec.

(** * Properties *)

(** ** The parser: size of the value read, and enough fuel *)

Module ParseFacts.

Lemma str_eqb_eq a b : str_eqb a b = true <-> a = b.
Proof. unfold str_eqb. apply bool_decide_eq_true. Qed.

Lemma str_eqb_refl a : str_eqb a a = true.
Proof. by apply str_eqb_eq. Qed.

Lemma str_eqb_neq a b : str_eqb a b = false <-> a <> b.
Proof. unfold str_eqb. apply bool_decide_eq_false. Qed.

Lemma skip_ws_length s : length (skip_ws s) <= length s.
Proof. induction s as [|c r IH]; simpl; [lia|]. destruct (is_json_ws c); simpl; lia. Qed.

Lemma expect_length c s r : expect c s = Some r -> length s = S (length r).
Proof.
  destruct s as [|d s]; simpl; [done|].
  destruct (d =? c)%N; [|done]. by intros [= ->].
Qed.

Lemma parse_string_chars_length_aux n :
  forall s str r, length s <= n ->
    parse_string_chars s = Some (str, r) -> length str + length r + 1 <= length s.
Proof.
  induction n as [|n IH]; intros s str r Hn H.
  - destruct s; simpl in *; [discriminate | lia].
  - destruct s as [|c s]; simpl in H; [discriminate|].
    destruct (c =? 34)%N.
    { injection H as <- <-. simpl. lia. }
    destruct (c =? 92)%N.
    { destruct s as [|e s]; [discriminate|].
      destruct (e =? 117)%N.
      - destruct s as [|h1 [|h2 [|h3 [|h4 s]]]]; try discriminate.
        destruct (hex4 h1 h2 h3 h4); [|discriminate].
        destruct (parse_string_chars s) as [[str' r']|] eqn:E; [|discriminate].
        injection H as <- <-. apply IH in E; simpl in *; lia.
      - destruct (short_escape e); [|discriminate].
        destruct (parse_string_chars s) as [[str' r']|] eqn:E; [|discriminate].
        injection H as <- <-. apply IH in E; simpl in *; lia. }
    destruct (c <? 32)%N; [discriminate|].
    destruct (parse_string_chars s) as [[str' r']|] eqn:E; [|discriminate].
    injection H as <- <-. apply IH in E; simpl in *; lia.
Qed.

Lemma parse_string_chars_length s str r :
  parse_string_chars s = Some (str, r) -> length str + length r + 1 <= length s.
Proof. by apply (parse_string_chars_length_aux (length s)). Qed.

Lemma span_digits_length s ds r :
  span_digits s = (ds, r) -> length ds + length r = length s.
Proof.
  revert ds r. induction s as [|c s IH]; intros ds r H; simpl in H.
  - by injection H as <- <-.
  - destruct (is_digit c).
    + destruct (span_digits s) as [ds' r'] eqn:E. injection H as <- <-.
      specialize (IH _ _ eq_refl). simpl. lia.
    + injection H as <- <-. simpl. lia.
Qed.

Lemma number_sign_length s sg r : number_sign s = (sg, r) -> length r <= length s.
Proof.
  destruct s as [|c s]; simpl; [by intros [= <- <-]|].
  destruct (c =? 45)%N; intros [= <- <-]; simpl; lia.
Qed.

Lemma number_int_length s ds r : number_int s = Some (ds, r) -> length r < length s.
Proof.
  destruct s as [|c s]; simpl; [done|].
  destruct (c =? 48)%N; [intros [= <- <-]; simpl; lia|].
  destruct (is_digit c); [|done].
  destruct (span_digits s) as [ds' r'] eqn:E. apply span_digits_length in E.
  intros [= <- <-]. lia.
Qed.

Lemma number_frac_length s ds r : number_frac s = Some (ds, r) -> length r <= length s.
Proof.
  destruct s as [|c s]; simpl; [by intros [= <- <-]|].
  destruct (c =? 46)%N; [|by intros [= <- <-]].
  destruct (span_digits s) as [ds' r'] eqn:E. apply span_digits_length in E.
  destruct ds'; [done|]. intros [= <- <-]. simpl in *. lia.
Qed.

Lemma number_exp_length s ds r : number_exp s = Some (ds, r) -> length r <= length s.
Proof.
  destruct s as [|e s]; simpl; [by intros [= <- <-]|].
  destruct ((e =? 101) || (e =? 69))%N; [|by intros [= <- <-]].
  set (q := match s with
            | g :: r' => if ((g =? 43) || (g =? 45))%N then ([g], r') else ([], s)
            | [] => ([], s) end).
  assert (Hq : length q.2 <= length s).
  { subst q. destruct s as [|g s]; simpl; [lia|].
    destruct ((g =? 43) || (g =? 45))%N; simpl; lia. }
  destruct q as [sg r1]. simpl in Hq.
  destruct (span_digits r1) as [ds' rest] eqn:E. apply span_digits_length in E.
  destruct ds'; [done|]. intros [= <- <-]. simpl in *. lia.
Qed.

Lemma parse_number_length s lx r :
  parse_number s = Some (lx, r) -> length r < length s.
Proof.
  unfold parse_number. intros H.
  destruct (number_sign s) as [sg s1] eqn:E0. apply number_sign_length in E0.
  destruct (number_int s1) as [[int s2]|] eqn:E1; simpl in H; [|done].
  apply number_int_length in E1.
  destruct (number_frac s2) as [[frac s3]|] eqn:E2; simpl in H; [|done].
  apply number_frac_length in E2.
  destruct (number_exp s3) as [[ex s4]|] eqn:E3; simpl in H; [|done].
  apply number_exp_length in E3.
  injection H as <- <-. lia.
Qed.

Lemma startsWith_length s p : startsWith s p = true -> length p <= length s.
Proof.
  revert s. induction p as [|c p IH]; intros [|d s]; simpl; try lia; try done.
  intros [_ H]%andb_prop. apply IH in H. lia.
Qed.

Lemma parse_keyword_length kw v s v' r :
  kw <> [] -> parse_keyword kw v s = POk (v', r) -> v' = v /\ length r < length s.
Proof.
  unfold parse_keyword. intros Hkw H.
  destruct (startsWith s kw) eqn:E; [|discriminate].
  injection H as <- <-. split; [done|].
  apply startsWith_length in E. rewrite length_drop.
  destruct kw; [done|]. simpl in *. lia.
Qed.

Lemma entries_size_obj_set acc k v :
  entries_size (obj_set acc k v) <= entries_size acc + S (jsize v).
Proof.
  unfold entries_size.
  induction acc as [|[k' v'] acc IH]; simpl; [lia|].
  destruct (str_eqb k' k); simpl; lia.
Qed.

Lemma jsize_pos v : 1 <= jsize v.
Proof. destruct v; simpl; lia. Qed.

(** The value parsed is no larger than the text consumed. *)
Lemma parse_size fuel :
  (forall s v r, parse_value fuel s = POk (v, r) -> jsize v + length r <= length s) /\
  (forall s vs r, parse_elements fuel s = POk (vs, r) ->
     list_sum (map jsize vs) + 1 + length r <= length s) /\
  (forall s acc v r, parse_members fuel s acc = POk (v, r) ->
     exists es, v = JObj es /\ entries_size es + 1 + length r <= entries_size acc + length s).
Proof.
  induction fuel as [|fuel (IHv & IHe & IHm)]; [by repeat split|].
  repeat split.
  - intros s v r H. simpl in H.
    pose proof (skip_ws_length s) as Hws.
    destruct (skip_ws s) as [|c s1]; [discriminate|]. simpl in Hws.
    destruct (c =? 123)%N.
    { pose proof (skip_ws_length s1) as Hws1.
      destruct (expect 125 (skip_ws s1)) as [r'|] eqn:E.
      - apply expect_length in E. injection H as <- <-. simpl. lia.
      - apply IHm in H as (es & -> & H). unfold entries_size in *. simpl in *. lia. }
    destruct (c =? 91)%N.
    { pose proof (skip_ws_length s1) as Hws1.
      destruct (expect 93 (skip_ws s1)) as [r'|] eqn:E.
      - apply expect_length in E. injection H as <- <-. simpl. lia.
      - destruct (parse_elements fuel s1) as [[vs r']| |] eqn:E'; try discriminate.
        injection H as <- <-. apply IHe in E'. simpl. lia. }
    destruct (c =? 34)%N.
    { destruct (parse_string_chars s1) as [[str r']|] eqn:E; [|discriminate].
      injection H as <- <-. apply parse_string_chars_length in E. simpl. lia. }
    destruct (c =? 116)%N.
    { apply parse_keyword_length in H as [-> H]; [|done]. simpl in *. lia. }
    destruct (c =? 102)%N.
    { apply parse_keyword_length in H as [-> H]; [|done]. simpl in *. lia. }
    destruct (c =? 110)%N.
    { apply parse_keyword_length in H as [-> H]; [|done]. simpl in *. lia. }
    destruct (parse_number (c :: s1)) as [[lx r']|] eqn:E; [|discriminate].
    injection H as <- <-. apply parse_number_length in E. simpl in *. lia.
  - intros s vs r H. simpl in H.
    destruct (parse_value fuel s) as [[v r1]| |] eqn:E; try discriminate.
    apply IHv in E. pose proof (skip_ws_length r1) as Hws.
    destruct (skip_ws r1) as [|d r2]; [discriminate|]. simpl in Hws.
    destruct (d =? 44)%N.
    { destruct (parse_elements fuel r2) as [[vs' r3]| |] eqn:E'; try discriminate.
      injection H as <- <-. apply IHe in E'. simpl. lia. }
    destruct (d =? 93)%N; [|discriminate].
    injection H as <- <-. simpl. lia.
  - intros s acc v r H. simpl in H.
    pose proof (skip_ws_length s) as Hws.
    destruct (expect 34 (skip_ws s)) as [s1|] eqn:E1; [|discriminate].
    apply expect_length in E1.
    destruct (parse_string_chars s1) as [[k s2]|] eqn:E2; [|discriminate].
    apply parse_string_chars_length in E2.
    pose proof (skip_ws_length s2) as Hws2.
    destruct (expect 58 (skip_ws s2)) as [s3|] eqn:E3; [|discriminate].
    apply expect_length in E3.
    destruct (parse_value fuel s3) as [[v' s4]| |] eqn:E4; try discriminate.
    apply IHv in E4. pose proof (skip_ws_length s4) as Hws4.
    destruct (skip_ws s4) as [|d s5]; [discriminate|]. simpl in Hws4.
    pose proof (entries_size_obj_set acc k v') as Hset.
    destruct (d =? 44)%N.
    { apply IHm in H as (es & -> & H). exists es. split; [done|]. lia. }
    destruct (d =? 125)%N; [|discriminate].
    injection H as <- <-. eexists; split; [done|]. lia.
Qed.

(** The fuel [JSON_parse] gives is enough. *)
Lemma parse_fuel_enough fuel :
  (forall s, 2 * length s + 1 <= fuel -> parse_value fuel s <> POutOfFuel) /\
  (forall s, 2 * length s + 2 <= fuel -> parse_elements fuel s <> POutOfFuel) /\
  (forall s acc, 2 * length s + 2 <= fuel -> parse_members fuel s acc <> POutOfFuel).
Proof.
  induction fuel as [|fuel (IHv & IHe & IHm)]; [repeat split; intros; lia|].
  repeat split.
  - intros s Hf. simpl.
    pose proof (skip_ws_length s) as Hws.
    destruct (skip_ws s) as [|c s1]; [done|]. simpl in Hws.
    destruct (c =? 123)%N.
    { destruct (expect 125 (skip_ws s1)); [done|]. apply IHm. lia. }
    destruct (c =? 91)%N.
    { destruct (expect 93 (skip_ws s1)); [done|].
      specialize (IHe s1 ltac:(lia)).
      destruct (parse_elements fuel s1) as [[??]| |]; done. }
    destruct (c =? 34)%N.
    { destruct (parse_string_chars s1) as [[??]|]; done. }
    unfold parse_keyword.
    repeat match goal with |- context [if ?b then _ else _] => destruct b end; try done.
    destruct (parse_number (c :: s1)) as [[??]|]; done.
  - intros s Hf. simpl.
    specialize (IHv s ltac:(lia)).
    destruct (parse_value fuel s) as [[v r1]| |] eqn:E; try done.
    apply (proj1 (parse_size fuel)) in E. pose proof (jsize_pos v).
    pose proof (skip_ws_length r1) as Hws.
    destruct (skip_ws r1) as [|d r2]; [done|]. simpl in Hws.
    destruct (d =? 44)%N.
    { specialize (IHe r2 ltac:(lia)).
      destruct (parse_elements fuel r2) as [[??]| |]; done. }
    destruct (d =? 93)%N; done.
  - intros s acc Hf. simpl.
    pose proof (skip_ws_length s) as Hws.
    destruct (expect 34 (skip_ws s)) as [s1|] eqn:E1; [|done].
    apply expect_length in E1.
    destruct (parse_string_chars s1) as [[k s2]|] eqn:E2; [|done].
    apply parse_string_chars_length in E2.
    pose proof (skip_ws_length s2) as Hws2.
    destruct (expect 58 (skip_ws s2)) as [s3|] eqn:E3; [|done].
    apply expect_length in E3.
    specialize (IHv s3 ltac:(lia)).
    destruct (parse_value fuel s3) as [[v' s4]| |] eqn:E4; try done.
    apply (proj1 (parse_size fuel)) in E4. pose proof (skip_ws_length s4) as Hws4.
    destruct (skip_ws s4) as [|d s5]; [done|]. simpl in Hws4.
    destruct (d =? 44)%N; [apply IHm; lia|].
    destruct (d =? 125)%N; done.
Qed.

Lemma JSON_parse_total s : parse_text (parse_fuel s) s <> POutOfFuel.
Proof.
  unfold parse_text, parse_fuel.
  pose proof (proj1 (parse_fuel_enough (2 * length s + 1)) s ltac:(lia)) as H.
  destruct (parse_value _ s) as [[v r]| |]; try done.
  destruct (skip_ws r); done.
Qed.

Lemma JSON_parse_size s v : JSON_parse s = Some v -> jsize v <= length s.
Proof.
  unfold JSON_parse, parse_text. intros H.
  destruct (parse_value _ s) as [[v' r]| |] eqn:E; try discriminate.
  apply (proj1 (parse_size _)) in E.
  destruct (skip_ws r); [|discriminate]. injection H as <-. lia.
Qed.

End ParseFacts.

Export ParseFacts.

(** ** Argument normalization *)

Module SchemaFacts.

(** *** Objects built entry by entry *)

Lemma obj_set_fresh acc k v : k ∉ acc.*1 -> obj_set acc k v = acc ++ [(k, v)].
Proof.
  induction acc as [|[k' v'] acc IH]; simpl; [done|].
  intros Hk. apply not_elem_of_cons in Hk as [Hne Hk].
  destruct (str_eqb k' k) eqn:E; [by apply str_eqb_eq in E|].
  by rewrite IH.
Qed.




Lemma obj_get_set_eq es k v : obj_get (obj_set es k v) k = Some v.
Proof.
  induction es as [|[k' v'] es IH]; simpl.
  - by rewrite str_eqb_refl.
  - destruct (str_eqb k' k) eqn:E; simpl; [by rewrite str_eqb_refl|by rewrite E].
Qed.

Lemma obj_get_set_ne es k k' v : k <> k' -> obj_get (obj_set es k v) k' = obj_get es k'.
Proof.
  intros Hne. induction es as [|[k0 v0] es IH]; simpl.
  - by apply str_eqb_neq in Hne as ->.
  - destruct (str_eqb k0 k) eqn:E; simpl.
    + apply str_eqb_eq in E as ->. by apply str_eqb_neq in Hne as ->.
    + by rewrite IH.
Qed.

Lemma obj_get_del_eq es k : obj_get (obj_del es k) k = None.
Proof.
  induction es as [|[k' v'] es IH]; simpl; [done|].
  destruct (str_eqb k' k) eqn:E; [done|]. simpl. by rewrite E.
Qed.

Lemma obj_get_del_ne es k k' : k <> k' -> obj_get (obj_del es k) k' = obj_get es k'.
Proof.
  intros Hne. induction es as [|[k0 v0] es IH]; simpl; [done|].
  destruct (str_eqb k0 k) eqn:E.
  - apply str_eqb_eq in E as ->. by apply str_eqb_neq in Hne as ->.
  - simpl. by rewrite IH.
Qed.

Lemma build_get_other g es acc k :
  k ∉ es.*1 -> obj_get (build g es acc) k = obj_get acc k.
Proof.
  revert acc. induction es as [|[k' v'] es IH]; intros acc Hk; simpl; [done|].
  apply not_elem_of_cons in Hk as [Hne Hk]. simpl in Hne.
  rewrite IH by done. by apply obj_get_set_ne.
Qed.

(** With one entry per name, the object built holds [g k v] under [k]. *)
Lemma build_get g es acc k v :
  NoDup es.*1 -> (k, v) ∈ es -> obj_get (build g es acc) k = Some (g k v).
Proof.
  revert acc. induction es as [|[k' v'] es IH]; intros acc Hnd Hin.
  { by apply elem_of_nil in Hin. }
  apply NoDup_cons in Hnd as [Hk' Hnd]. simpl.
  apply elem_of_cons in Hin as [[= -> ->]|Hin].
  - rewrite build_get_other by done. apply obj_get_set_eq.
  - by apply IH.
Qed.

Lemma build_ext g h es acc :
  Forall (fun kv => g kv.1 kv.2 = h kv.1 kv.2) es -> build g es acc = build h es acc.
Proof.
  intros H. revert acc. induction H as [|kv es Hkv H IH]; intros acc; simpl; [done|].
  by rewrite Hkv, IH.
Qed.

Lemma build_size g es acc :
  Forall (fun kv => jsize (g kv.1 kv.2) <= jsize kv.2) es ->
  entries_size (build g es acc) <= entries_size acc + entries_size es.
Proof.
  intros H. revert acc. induction H as [|kv es Hkv H IH]; intros acc; simpl.
  - unfold entries_size. simpl. lia.
  - etrans; [apply IH|].
    pose proof (entries_size_obj_set acc kv.1 (g kv.1 kv.2)).
    unfold entries_size in *. simpl. lia.
Qed.

Lemma build_again g es acc :
  NoDup (acc.*1 ++ es.*1) ->
  Forall (fun kv => g kv.1 kv.2 = kv.2) es ->
  build g es acc = acc ++ es.
Proof.
  intros Hnd H. revert acc Hnd.
  induction H as [|[k v] es Hkv H IH]; intros acc Hnd; simpl.
  - by rewrite app_nil_r.
  - simpl in *. rewrite Hkv.
    apply NoDup_app in Hnd as (Ha & Hdisj & Hes).
    apply NoDup_cons in Hes as [Hk Hes].
    rewrite obj_set_fresh. 2:{ intros Hin. apply (Hdisj _ Hin). by left. }
    rewrite IH; [by rewrite <- app_assoc|].
    rewrite fmap_app. simpl. rewrite <- app_assoc. simpl.
    apply NoDup_app. repeat split; [done| |by apply NoDup_cons].
    intros x Hx. apply Hdisj. done.
Qed.

(** With one entry per name the entries are added one after the other. *)
Lemma build_map g es acc :
  NoDup (acc.*1 ++ es.*1) ->
  build g es acc = acc ++ map (fun kv => (kv.1, g kv.1 kv.2)) es.
Proof.
  revert acc. induction es as [|[k v] es IH]; intros acc Hnd; simpl.
  - by rewrite app_nil_r.
  - simpl in Hnd. apply NoDup_app in Hnd as (Ha & Hdisj & Hes).
    apply NoDup_cons in Hes as [Hk Hes].
    rewrite obj_set_fresh. 2:{ intros Hin. apply (Hdisj _ Hin). by left. }
    rewrite IH; [by rewrite <- app_assoc|].
    rewrite fmap_app. simpl. rewrite <- app_assoc. simpl.
    apply NoDup_app. repeat split; [done| |by apply NoDup_cons].
    intros x Hx. apply Hdisj. done.
Qed.

(** *** Objects filled by assignment *)

Lemma js_get_read v k x : js_get v k = Some x -> js_read v k = Some x.
Proof.
  intros H. unfold js_read.
  assert (chain_get v k = Some x) as ->; [|done].
  destruct v; try done. simpl in *. by rewrite H.
Qed.

Lemma js_read_obj es k : js_read (JObj es) k = obj_get es k.
Proof. unfold js_read. simpl. by destruct (obj_get es k). Qed.

Lemma has_key_false es k : k ∉ es.*1 -> has_key es k = false.
Proof.
  intros Hk. unfold has_key. apply bool_decide_eq_false_2. intros [v Hv].
  apply Hk. clear Hk. induction es as [|[k' v'] es IH]; simpl in *; [done|].
  destruct (str_eqb k' k) eqn:E.
  - apply str_eqb_eq in E as ->. by left.
  - right. by apply IH.
Qed.

Lemma has_key_in es k : k ∈ es.*1 -> has_key es k = true.
Proof.
  intros Hk. destruct (has_key es k) eqn:E; [done|]. exfalso.
  unfold has_key in E. apply bool_decide_eq_false in E. apply E. clear E.
  induction es as [|[k' v'] es IH]; simpl in *; [by apply elem_of_nil in Hk|].
  destruct (str_eqb k' k) eqn:E; [by eexists|].
  apply IH. apply elem_of_cons in Hk as [->|Hk]; [|done].
  by rewrite str_eqb_refl in E.
Qed.

(** A value with no entry called [__proto__]. *)
Lemma proto_free_obj es :
  proto_free (JObj es) = true ->
  (proto_key ∉ es.*1) /\ Forall (fun kv => proto_free kv.2 = true) es.
Proof.
  simpl. intros [Hk H]%andb_prop. split.
  - intros Hin. apply has_key_in in Hin. by rewrite Hin in Hk.
  - apply Forall_forall. intros kv Hkv. rewrite forallb_forall in H.
    by apply H, list_elem_of_In.
Qed.

Lemma own_content_proto_free v : proto_free v = true -> own_content v = v.
Proof.
  induction v as [| | |str|items IH|entries IH|proto entries _ IH] using json_induction;
    try done; simpl; intros H.
  - f_equal. rewrite <- (map_id items) at 2. apply map_ext_in.
    intros x Hx. rewrite forallb_forall in H. rewrite Forall_forall in IH.
    apply IH; [by apply list_elem_of_In|by apply H].
  - apply andb_prop in H as [_ H]. f_equal. rewrite <- (map_id entries) at 2.
    apply map_ext_in. intros [k x] Hx. rewrite forallb_forall in H.
    rewrite Forall_forall in IH. simpl. f_equal.
    apply (IH (k, x)); [by apply list_elem_of_In|by apply (H (k, x))].
Qed.

Lemma assign_record o k v : is_record o -> is_record (assign o k v).
Proof.
  destruct o as [| | | | |es|p es]; try done; intros _; simpl; unfold set_prototype;
    repeat case_match; done.
Qed.

(** An assignment to a name other than [__proto__] sets an own property. *)
Lemma assign_own o k v :
  k <> proto_key ->
  assign o k v = match o with
                 | JObj es => JObj (obj_set es k v)
                 | JProto p es => JProto p (obj_set es k v)
                 | _ => o
                 end.
Proof.
  intros Hk. apply str_eqb_neq in Hk. unfold proto_key in Hk.
  destruct o; try done; simpl; by rewrite Hk.
Qed.

(** On an object with the built-in prototype and no own [__proto__], the
    assignment to [__proto__] adds no own property. *)
Lemma assign_proto es v :
  proto_key ∉ es.*1 ->
  own_entries (assign (JObj es) proto_key v) = es
  /\ is_record (assign (JObj es) proto_key v).
Proof.
  intros Hk. unfold assign.
  change (str_eqb proto_key (lit "__proto__")) with (str_eqb proto_key proto_key).
  rewrite str_eqb_refl, (has_key_false es proto_key Hk).
  cbn [andb negb]. unfold set_prototype. by destruct (_ || _).
Qed.



Lemma fill_record g es acc : is_record acc -> is_record (fill g es acc).
Proof.
  revert acc. induction es as [|kv es IH]; intros acc Hacc; [done|].
  apply IH. by apply assign_record.
Qed.

Lemma fill_ext g h es acc :
  Forall (fun kv => g kv.1 kv.2 = h kv.1 kv.2) es -> fill g es acc = fill h es acc.
Proof.
  intros H. revert acc. induction H as [|kv es Hkv H IH]; intros acc; simpl; [done|].
  unfold fill in *. simpl. by rewrite Hkv, IH.
Qed.


(** Without an entry called [__proto__] the loop only adds own
    properties. *)
Lemma fill_build g es acc :
  proto_key ∉ es.*1 -> fill g es (JObj acc) = JObj (build g es acc).
Proof.
  revert acc. induction es as [|[k v] es IH]; intros acc Hk; [done|].
  apply not_elem_of_cons in Hk as [Hne Hk].
  change (fill g ((k, v) :: es) (JObj acc)) with (fill g es (assign (JObj acc) k (g k v))).
  rewrite assign_own by done. by apply IH.
Qed.

(** With one entry per name, the own properties of the object filled are
    the entries other than [__proto__], in their order. *)
Lemma fill_own g es : forall acc,
  is_record acc ->
  NoDup ((own_entries acc).*1 ++ es.*1) ->
  (proto_key ∈ es.*1 -> exists A, acc = JObj A /\ proto_key ∉ A.*1) ->
  is_record (fill g es acc)
  /\ own_entries (fill g es acc)
     = own_entries acc ++ map (fun kv => (kv.1, g kv.1 kv.2)) (own_part es).
Proof.
  induction es as [|[k v] es IH]; intros acc Hrec Hnd Hproto.
  { simpl. by rewrite app_nil_r. }
  simpl in Hnd. apply NoDup_app in Hnd as (Ha & Hdisj & Hes).
  apply NoDup_cons in Hes as [Hk Hes].
  assert (k ∉ (own_entries acc).*1) as Hfresh.
  { intros Hin. apply (Hdisj _ Hin). by left. }
  change (fill g ((k, v) :: es) acc) with (fill g es (assign acc k (g k v))).
  destruct (decide (k = proto_key)) as [->|Hne].
  - destruct Hproto as (A & -> & HA); [by left|].
    destruct (assign_proto A (g proto_key v) HA) as [Hown Hr].
    destruct (IH (assign (JObj A) proto_key (g proto_key v))) as [H1 H2]; [done| | |].
    + rewrite Hown. apply NoDup_app. repeat split; [done| |done].
      intros x Hx Hx'. apply (Hdisj x Hx). by right.
    + intros Hin. done.
    + split; [done|]. rewrite H2, Hown. unfold own_part.
      by rewrite filter_cons_False by (by intros H; apply H).
  - rewrite assign_own by done.
    assert (is_record acc -> forall es',
      own_entries acc = es' ->
      own_entries (match acc with
                   | JObj es0 => JObj (obj_set es0 k (g k v))
                   | JProto p es0 => JProto p (obj_set es0 k (g k v))
                   | _ => acc
                   end) = es' ++ [(k, g k v)]) as Hstep.
    { intros _ es' <-. destruct acc; try done; simpl in *; by rewrite obj_set_fresh. }
    specialize (Hstep Hrec _ eq_refl).
    destruct (IH (match acc with
                  | JObj es0 => JObj (obj_set es0 k (g k v))
                  | JProto p es0 => JProto p (obj_set es0 k (g k v))
                  | _ => acc
                  end)) as [H1 H2].
    + by destruct acc.
    + rewrite Hstep, fmap_app. simpl. rewrite <- app_assoc. simpl.
      apply NoDup_app. repeat split; [done| |by apply NoDup_cons].
      intros x Hx. by apply Hdisj.
    + intros Hin. destruct Hproto as (A & -> & HA); [by right|].
      eexists. split; [done|]. rewrite obj_set_fresh by done.
      rewrite fmap_app. simpl. intros [?|?%list_elem_of_singleton]%elem_of_app; done.
    + split; [done|]. rewrite H2, Hstep, <- app_assoc. unfold own_part.
      by rewrite filter_cons_True.
Qed.

Lemma own_part_keys es : NoDup es.*1 -> NoDup (own_part es).*1 /\ proto_key ∉ (own_part es).*1.
Proof.
  intros Hnd. unfold own_part. split.
  - eapply sublist_NoDup; [exact Hnd|]. apply fmap_sublist, sublist_filter.
  - intros [[k v] [Hk Hin]]%list_elem_of_fmap. apply list_elem_of_filter in Hin as [Hne _].
    simpl in *. congruence.
Qed.

Lemma js_get_record o k : is_record o -> js_get o k = obj_get (own_entries o) k.
Proof. by destruct o. Qed.



(** *** One entry per name *)

Lemma forallb_Forall_true {A} (f : A -> bool) l :
  forallb f l = true <-> Forall (fun x => f x = true) l.
Proof.
  rewrite forallb_forall, Forall_forall. split; intros H x Hx; apply H; by apply list_elem_of_In.
Qed.

Lemma unique_keys_record o :
  is_record o -> unique_keys o = true ->
  NoDup (own_entries o).*1 /\ Forall (fun kv => unique_keys kv.2 = true) (own_entries o).
Proof.
  destruct o as [| | | | |es|p es]; try done; intros _ H; simpl in *.
  - apply andb_true_iff in H as [Hnd H]. apply bool_decide_eq_true in Hnd.
    by apply forallb_Forall_true in H.
  - apply andb_true_iff in H as [H1 H]. apply andb_true_iff in H1 as [Hnd _].
    apply bool_decide_eq_true in Hnd. by apply forallb_Forall_true in H.
Qed.




(** *** Children are smaller *)

Lemma jsize_item items x : x ∈ items -> jsize x <= list_sum (map jsize items).
Proof.
  induction 1; simpl; lia.
Qed.

Lemma jsize_entry (entries : list (jsstring * json)) kv :
  kv ∈ entries -> S (jsize kv.2) <= entries_size entries.
Proof.
  unfold entries_size. induction 1; simpl; lia.
Qed.

Section walk_facts.
Variables r r' : json -> option json -> option jsstring -> json.

(** The loop over the own entries of an object. *)
Lemma walk_record o s f :
  is_record o ->
  walk r o s f
  = fill (fun k v => walk r v (js_read (schema_properties s) k) (Some k))
      (own_entries o) (JObj []).
Proof. by destruct o. Qed.

Lemma walk_ext b p :
  jsize p <= S b ->
  (forall q s f, jsize q <= b -> r q s f = r' q s f) ->
  forall s f, walk r p s f = walk r' p s f.
Proof.
  assert (forall entries : list (jsstring * json),
    entries_size entries <= b ->
    Forall (fun kv => jsize kv.2 <= S b ->
              forall s f, walk r kv.2 s f = walk r' kv.2 s f) entries ->
    forall s,
      fill (fun k v => walk r v (js_read (schema_properties s) k) (Some k)) entries (JObj [])
      = fill (fun k v => walk r' v (js_read (schema_properties s) k) (Some k)) entries (JObj []))
    as Hfill.
  { intros entries Hp IH s. apply fill_ext.
    rewrite Forall_forall in IH |- *. intros kv Hkv. apply IH; [done|].
    apply jsize_entry in Hkv. lia. }
  intros Hp Hr.
  induction p as [| | |str|items IH|entries IH|proto entries _ IH] using json_induction;
    intros s f; try done.
  - simpl. destruct (looks_like_json str); [|done].
    destruct (schema_type_is s "string"); [done|].
    destruct (JSON_parse str) as [parsed|] eqn:E.
    + apply JSON_parse_size in E. simpl in Hp.
      rewrite Hr by lia. done.
    + done.
  - simpl. f_equal. apply map_ext_in. intros x Hx%list_elem_of_In.
    rewrite Forall_forall in IH. apply IH; [done|].
    apply jsize_item in Hx. simpl in Hp. lia.
  - apply Hfill; [|done]. simpl in Hp. fold (entries_size entries) in Hp. lia.
  - apply Hfill; [|done]. simpl in Hp. fold (entries_size entries) in Hp. lia.
Qed.


End walk_facts.


(** The result does not depend on the bound, once it is enough. *)
Lemma sanitize_fuel_irrelevant n :
  forall m p s f, jsize p <= n -> jsize p <= m ->
    sanitize_fuel n p s f = sanitize_fuel m p s f.
Proof.
  induction n as [|n IH]; intros m p s f Hn Hm.
  { pose proof (jsize_pos p). lia. }
  destruct m as [|m]; [pose proof (jsize_pos p); lia|].
  simpl. apply (walk_ext _ _ (jsize p - 1)); [lia|].
  intros q s' f' Hq. apply IH; lia.
Qed.



(** The function satisfies the recursive equation of the source: the
    bound plays no part. *)
Lemma deepSanitizeParams_unfold (p : json) (s : option json) (f : option jsstring) :
  deepSanitizeParams p s f = walk deepSanitizeParams p s f.
Proof.
  unfold deepSanitizeParams at 1.
  pose proof (jsize_pos p) as Hp.
  destruct (jsize p) as [|n] eqn:E; [lia|].
  simpl. apply (walk_ext _ _ n); [lia|].
  intros q s' f' Hq. unfold deepSanitizeParams.
  apply sanitize_fuel_irrelevant; lia.
Qed.




Lemma schema_type_is_string schema :
  js_get schema (lit "type") = Some (JStr (lit "string")) ->
  schema_type_is (Some schema) "string" = true.
Proof.
  intros Htype. unfold schema_type_is, opt_get.
  destruct schema; try done; by rewrite (js_get_read _ _ _ Htype).
Qed.

Lemma walk_string_unchanged recurse str schema fieldName :
  schema_type_is schema "string" = true ->
  walk recurse (JStr str) schema fieldName = JStr str.
Proof. intros H. simpl. rewrite H. by destruct (looks_like_json str). Qed.

(** C6. A string whose schema node declares type "string" is returned as
    it is, whatever the text looks like and whatever the field is called. *)
Theorem deepSanitizeParams_string_unchanged (str : jsstring) (schema : json)
    (fieldName : option jsstring) :
  js_get schema (lit "type") = Some (JStr (lit "string")) ->
  deepSanitizeParams (JStr str) (Some schema) fieldName = JStr str.
Proof.
  intros Htype. rewrite deepSanitizeParams_unfold.
  by apply walk_string_unchanged, schema_type_is_string.
Qed.

(** The same for a field of an object: when the schema of the object
    declares the property [key] of type "string", a string under [key]
    is found unchanged under [key] in the result ([key] is not
    [__proto__], which names no property of the result). *)
Lemma deepSanitizeParams_string_field (entries : list (jsstring * json))
    (schema : option json) (fieldName : option jsstring) (key str : jsstring)
    (propertySchema : json) :
  NoDup entries.*1 ->
  key <> proto_key ->
  (key, JStr str) ∈ entries ->
  js_read (schema_properties schema) key = Some propertySchema ->
  js_get propertySchema (lit "type") = Some (JStr (lit "string")) ->
  js_get (deepSanitizeParams (JObj entries) schema fieldName) key = Some (JStr str).
Proof.
  intros Hnd Hkey Hin Hprop Htype. rewrite deepSanitizeParams_unfold.
  rewrite (walk_record _ (JObj entries)) by done.
  set (g := fun k v => walk deepSanitizeParams v (js_read (schema_properties schema) k) (Some k)).
  destruct (own_part_keys _ Hnd) as [Hnd' Hproto].
  destruct (fill_own g entries (JObj []) I) as [Hrec Hown];
    [done|intros _; exists []; split; [done|apply not_elem_of_nil]|].
  simpl in Hown, Hrec.
  rewrite (js_get_record _ _ Hrec), Hown.
  rewrite <- (app_nil_l (map _ _)), <- build_map by done.
  etrans; [apply (build_get g (own_part entries) [] key (JStr str) Hnd')|].
  { by apply list_elem_of_filter. }
  subst g. cbv beta. f_equal. rewrite Hprop.
  by apply walk_string_unchanged, schema_type_is_string.
Qed.

Lemma deepSanitizeParams_string_unchanged_witness :
  js_get string_schema (lit "type") = Some (JStr (lit "string"))
  /\ deepSanitizeParams (JStr (qlit "{'a':1}")) (Some string_schema)
        (Some (lit "arguments"))
      = JStr (qlit "{'a':1}").
Proof.
  split; [reflexivity|].
  apply deepSanitizeParams_string_unchanged. reflexivity.
Defined.

(** The example of the specification: the same text under a schema of
    type "object" is parsed. *)
Lemma deepSanitizeParams_object_parsed :
  deepSanitizeParams (JStr (qlit "{'a':1}"))
    (Some (JObj [(lit "type", JStr (lit "object"))])) None
  = JObj [(lit "a", JNum (lit "1"))].
Proof. vm_compute. reflexivity. Qed.

End SchemaFacts.

Export SchemaFacts.

(** ** Schema cleaning for the restricted provider *)

Module GeminiFacts.


Lemma obj_get_None es k : k ∉ es.*1 -> obj_get es k = None.
Proof.
  induction es as [|[k' v'] es IH]; simpl; [done|].
  intros [Hne Hk]%not_elem_of_cons.
  destruct (str_eqb k' k) eqn:E; [by apply str_eqb_eq in E|]. by apply IH.
Qed.


(** *** What an assignment changes *)

(** An assignment sets an own property, installs the value as the
    prototype, or does nothing. *)
Lemma assign_cases o k v :
  is_record o ->
  assign o k v = match o with
                 | JObj es => JObj (obj_set es k v)
                 | JProto p es => JProto p (obj_set es k v)
                 | _ => o
                 end
  \/ (k = proto_key /\ (assign o k v = JProto v (own_entries o) \/ assign o k v = o)).
Proof.
  destruct o as [| | | | |es|p es]; try done; intros _; unfold assign.
  - destruct (str_eqb k (lit "__proto__")) eqn:E; [|by left].
    apply str_eqb_eq in E. destruct (has_key es k); [by left|]. right. split; [done|].
    cbn [andb negb]. unfold set_prototype. destruct (_ || _); [by left|by right].
  - destruct (str_eqb k (lit "__proto__")) eqn:E; [|by left].
    apply str_eqb_eq in E. destruct (has_key es k); [by left|].
    destruct (bool_decide _); [by left|].
    destruct (reaches_Object_prototype p); [|by left]. right. split; [done|].
    cbn [andb negb]. unfold set_prototype. destruct (_ || _); [by left|by right].
Qed.

Lemma js_get_assign_ne o key v k :
  key <> k -> js_get (assign o key v) k = js_get o k.
Proof.
  intros Hne. destruct o as [| | | | |es|p es]; try done.
  - destruct (assign_cases (JObj es) key v I) as [->|[_ [->| ->]]]; try done.
    simpl. by apply obj_get_set_ne.
  - destruct (assign_cases (JProto p es) key v I) as [->|[_ [->| ->]]]; try done.
    simpl. by apply obj_get_set_ne.
Qed.

Lemma js_get_assign_eq o k v :
  is_record o -> k <> proto_key -> js_get (assign o k v) k = Some v.
Proof.
  intros Ho Hk. rewrite assign_own by done.
  destruct o; try done; simpl; apply obj_get_set_eq.
Qed.




Section loops.
Variable f : json -> option json.









(** A name the loop does not read keeps the value [result] has for it
    among its own properties. *)
Lemma gemini_loop_get_other ts l result final k :
  gemini_loop f ts l result = Some final ->
  k ∉ l.*1 -> js_get final k = js_get result k.
Proof.
  revert result. induction l as [|[key value] l IH]; intros result; simpl.
  { by intros [= ->]. }
  intros Hloop [Hne Hk]%not_elem_of_cons.
  assert (forall v, js_get (assign result key v) k = js_get result k) as Hset.
  { intros v. by apply js_get_assign_ne. }
  repeat match type of Hloop with
         | (if ?c then _ else _) = _ => destruct c
         | _ ≫= _ = _ => apply bind_Some in Hloop as (? & _ & Hloop)
         end;
    apply IH in Hloop; try done; by rewrite Hloop, ?Hset.
Qed.

End loops.


Lemma ensure_properties_get result k :
  k <> lit "properties" -> js_get (ensure_properties result) k = js_get result k.
Proof.
  intros Hk. unfold ensure_properties.
  destruct (_ && _); [|done]. by apply js_get_assign_ne.
Qed.




Lemma unique_keys_obj es :
  unique_keys (JObj es) = true ->
  NoDup es.*1 /\ Forall (fun kv => unique_keys kv.2 = true) es.
Proof. by apply (unique_keys_record (JObj es)). Qed.



(** *** Without an entry called [__proto__] no prototype is replaced *)



Section plain_loops.
Variable f : json -> option json.




End plain_loops.



(** *** When the pass returns *)

Section total_loops.
Variable f : json -> option json.

Lemma sanitize_items_returns l :
  Forall (returns f) l -> exists outs, sanitize_items f l = Some outs.
Proof.
  induction 1 as [|x l [out Hx] H [outs IH]]; simpl; [by eexists|].
  rewrite Hx. simpl. rewrite IH. simpl. by eexists.
Qed.

Lemma sanitize_properties_returns ps : forall acc,
  Forall (fun p => returns f p.2) ps ->
  exists props, sanitize_properties f ps acc = Some props.
Proof.
  induction ps as [|[k v] ps IH]; intros acc HF; [by eexists|].
  apply Forall_cons in HF as [[out Hx] HF]. cbn [sanitize_properties].
  simpl in Hx. rewrite Hx. cbn [mbind option_bind]. by apply IH.
Qed.

Lemma sanitize_indexed_returns ps : forall i acc,
  Forall (returns f) ps ->
  exists props, sanitize_indexed f i ps acc = Some props.
Proof.
  induction ps as [|v ps IH]; intros i acc HF; [by eexists|].
  apply Forall_cons in HF as [[out Hx] HF]. cbn [sanitize_indexed].
  rewrite Hx. cbn [mbind option_bind]. by apply IH.
Qed.

Lemma gemini_loop_returns ts l : forall result,
  Forall (passable f) l ->
  exists final, gemini_loop f ts l result = Some final.
Proof.
  induction l as [|[key value] l IH]; intros result HF; [by eexists|].
  apply Forall_cons in HF as [[[out Hv] Hps] HF]. cbn [fst snd] in *.
  cbn [gemini_loop].
  destruct (unsupported_construct key); [by apply IH|].
  destruct (str_eqb key (lit "enum") && negb ts); [by apply IH|].
  destruct (str_eqb key (lit "required")); [by apply IH|].
  destruct (str_eqb key (lit "properties") && typeof_object value) eqn:E4.
  { apply andb_prop in E4 as [->%str_eqb_eq Hobj]. specialize (Hps eq_refl).
    assert (exists props,
      match value with
      | JObj ps | JProto _ ps => sanitize_properties f ps (JObj [])
      | JArr ps => sanitize_indexed f 0 ps (JObj [])
      | _ => None
      end = Some props) as [props ->].
    { destruct value; try done.
      - by apply sanitize_indexed_returns.
      - by apply sanitize_properties_returns.
      - by apply sanitize_properties_returns. }
    cbn [mbind option_bind]. by apply IH. }
  destruct ((str_eqb key (lit "items") || str_eqb key (lit "additionalProperties"))
            && typeof_object value).
  { rewrite Hv. cbn [mbind option_bind]. by apply IH. }
  destruct (typeof_object value && negb (json_eqb value JNull)).
  { rewrite Hv. cbn [mbind option_bind]. by apply IH. }
  by apply IH.
Qed.
End total_loops.

Lemma sanitize_returns_aux n :
  forall schema, jsize schema <= n -> no_null_properties schema = true ->
    returns sanitizeSchemaForGemini schema.
Proof.
  induction n as [|n IH]; intros schema Hn Hnull.
  { pose proof (jsize_pos schema). lia. }
  assert (forall es,
    entries_size es <= n ->
    forallb (fun kv => negb (str_eqb kv.1 (lit "properties") && json_eqb kv.2 JNull)
                       && no_null_properties kv.2) es = true ->
    Forall (passable sanitizeSchemaForGemini) es) as Hentries.
  { intros es Hsize Hes. apply Forall_forall. intros [key value] Hkv.
    pose proof (jsize_entry _ _ Hkv) as Hs.
    rewrite forallb_forall in Hes. apply list_elem_of_In, Hes in Hkv.
    cbn [fst snd] in *. apply andb_prop in Hkv as [Hnn Hnv].
    split; [apply (IH value); [lia|done]|].
    cbn [fst snd]. intros ->. rewrite str_eqb_refl in Hnn.
    destruct value as [| | | |ps|ps|q ps]; try done.
    - apply Forall_forall. intros x Hx. cbn [no_null_properties] in Hnv.
      rewrite forallb_forall in Hnv. pose proof (jsize_item _ _ Hx). simpl in Hs.
      apply IH; [lia|]. by apply Hnv, list_elem_of_In.
    - apply Forall_forall. intros p Hp. cbn [no_null_properties] in Hnv.
      rewrite forallb_forall in Hnv. pose proof (jsize_entry _ _ Hp).
      simpl in Hs. fold (entries_size ps) in Hs.
      apply list_elem_of_In, Hnv in Hp. apply andb_prop in Hp as [_ Hp].
      apply IH; [lia|done].
    - apply Forall_forall. intros p Hp. cbn [no_null_properties] in Hnv.
      rewrite forallb_forall in Hnv. pose proof (jsize_entry _ _ Hp).
      simpl in Hs. fold (entries_size ps) in Hs.
      apply list_elem_of_In, Hnv in Hp. apply andb_prop in Hp as [_ Hp].
      apply IH; [lia|done]. }
  destruct schema as [| | | |items|entries|proto entries]; try by eexists.
  - destruct (sanitize_items_returns sanitizeSchemaForGemini items) as [outs Houts].
    { apply Forall_forall. intros x Hx. simpl in Hnull, Hn.
      rewrite forallb_forall in Hnull. pose proof (jsize_item _ _ Hx).
      apply IH; [lia|]. by apply Hnull, list_elem_of_In. }
    exists (JArr outs). simpl. by rewrite Houts.
  - destruct (gemini_loop_returns sanitizeSchemaForGemini
                (type_is (JObj entries) "string") entries (JObj [])) as [final Hloop].
    { apply Hentries; [|done]. simpl in Hn. fold (entries_size entries) in Hn. lia. }
    eexists. cbn [sanitizeSchemaForGemini]. by rewrite Hloop.
  - destruct (gemini_loop_returns sanitizeSchemaForGemini
                (type_is (JProto proto entries) "string") entries (JObj []))
      as [final Hloop].
    { apply Hentries; [|done]. simpl in Hn. fold (entries_size entries) in Hn. lia. }
    eexists. cbn [sanitizeSchemaForGemini]. by rewrite Hloop.
Qed.

(** The pass returns on every schema no object of which has
    [properties: null]. *)
Lemma sanitizeSchemaForGemini_returns (schema : json) :
  no_null_properties schema = true ->
  exists out, sanitizeSchemaForGemini schema = Some out.
Proof. by apply (sanitize_returns_aux (jsize schema)). Qed.




(** A node of type "object" whose [properties] come under an entry
    called [__proto__]: the assignment makes them the prototype of the
    node returned, which so has [properties] and no key of that name, and
    [JSON.stringify] writes only the type. *)
Lemma sanitizeSchemaForGemini_inherited_properties :
  sanitizeSchemaForGemini properties_in_prototype
  = Some (JProto (JObj [(lit "properties", JObj [(lit "q", JObj [])])])
            [(lit "type", JStr (lit "object"))])
  /\ own_content (JProto (JObj [(lit "properties", JObj [(lit "q", JObj [])])])
                    [(lit "type", JStr (lit "object"))])
     = JObj [(lit "type", JStr (lit "object"))].
Proof. split; vm_compute; reflexivity. Qed.

(** [typeof null] is "object": a schema with [properties: null] makes
    [Object.entries] throw. *)
Lemma sanitizeSchemaForGemini_null_properties_throws :
  sanitizeSchemaForGemini (JObj [(lit "properties", JNull)]) = None.
Proof. reflexivity. Qed.

End GeminiFacts.

(** ** The session registry *)

Module ClientFacts.

Import MCPClient.

Section client.
Context {Session W : Type}.
Variable config : MCPClientConfig Session W.
Implicit Types (st : State Session W) (key : jsstring).

Lemma destroySession_absent key st :
  sessions st !! key = None ->
  destroySession config key st = (Resolved {| success := true; error := None |}, st).
Proof.
  intros H. unfold destroySession, try_catch, mbind, M_bind, bind, sessions_get.
  simpl. by rewrite H.
Qed.

Lemma destroySession_closed key st session w :
  sessions st !! key = Some session ->
  closeTransport (transportFactory config) session (world st) = (Resolved (), w) ->
  destroySession config key st =
    (Resolved {| success := true; error := None |},
     {| sessions := delete key (sessions st); world := w;
        calls := calls st ++ [CloseTransport session (Resolved ())] |}).
Proof.
  intros H Hclose.
  unfold destroySession, try_catch, mbind, M_bind, bind, sessions_get, factory_close.
  simpl. rewrite H. simpl. by rewrite Hclose.
Qed.

(** When the close fails the [delete] is never reached. *)
Lemma destroySession_close_rejected key st session e w :
  sessions st !! key = Some session ->
  closeTransport (transportFactory config) session (world st) = (Rejected e, w) ->
  destroySession config key st =
    (Resolved {| success := false; error := Some (unknown_error e) |},
     {| sessions := sessions st; world := w;
        calls := calls st ++ [CloseTransport session (Rejected e)] |}).
Proof.
  intros H Hclose.
  unfold destroySession, try_catch, mbind, M_bind, bind, sessions_get, factory_close.
  simpl. rewrite H. simpl. by rewrite Hclose.
Qed.

(** [destroySession] never rejects. *)
Lemma destroySession_resolves key st :
  exists r st', destroySession config key st = (Resolved r, st').
Proof.
  destruct (sessions st !! key) as [session|] eqn:H.
  - destruct (closeTransport (transportFactory config) session (world st))
      as [[[]|e] w] eqn:Hclose.
    + erewrite destroySession_closed by done. by eexists _, _.
    + erewrite destroySession_close_rejected by done. by eexists _, _.
  - rewrite destroySession_absent by done. by eexists _, _.
Qed.

(** After a [destroySession] that reports success the key is free. *)
Lemma destroySession_success_removes key st r st' :
  destroySession config key st = (Resolved r, st') ->
  success r = true -> hasSession key st' = false.
Proof.
  intros Hd Hs. unfold hasSession. apply bool_decide_eq_false. intros [s Hs'].
  destruct (sessions st !! key) as [session|] eqn:H.
  - destruct (closeTransport (transportFactory config) session (world st))
      as [[[]|e] w] eqn:Hclose.
    + erewrite destroySession_closed in Hd by done. injection Hd as <- <-.
      simpl in Hs'. by rewrite lookup_delete_eq in Hs'.
    + erewrite destroySession_close_rejected in Hd by done. by injection Hd as <- <-.
  - rewrite destroySession_absent in Hd by done. injection Hd as <- <-. congruence.
Qed.

(** [createSession] in terms of the teardown and of the factory. *)
Lemma createSession_unfold key apiKey history st rd st1 :
  destroySession config key st = (Resolved rd, st1) ->
  createSession config key apiKey history st =
    match createTransport (transportFactory config) apiKey history (world st1) with
    | (Resolved session, w) =>
        (Resolved {| success := true; error := None |},
         {| sessions := <[key := session]> (sessions st1); world := w;
            calls := calls st1 ++ [CreateTransport (Resolved session)] |})
    | (Rejected e, w) =>
        (Resolved {| success := false; error := Some (unknown_error e) |},
         {| sessions := sessions st1; world := w;
            calls := calls st1 ++ [CreateTransport (Rejected e)] |})
    end.
Proof.
  intros Hd.
  unfold createSession, try_catch, mbind, M_bind, bind. rewrite Hd.
  unfold factory_create.
  by destruct (createTransport _ _ _ _) as [[session|e] w].
Qed.

(** Replacement: the first session's close is called, and settles, before
    the second transport is created; whether it resolves or rejects, the
    second session takes the key. *)
Lemma createSession_replaces key apiKey history st s1 closed w1 s2 w2 :
  sessions st !! key = Some s1 ->
  closeTransport (transportFactory config) s1 (world st) = (closed, w1) ->
  createTransport (transportFactory config) apiKey history w1 = (Resolved s2, w2) ->
  exists st', createSession config key apiKey history st =
                (Resolved {| success := true; error := None |}, st')
    /\ sessions st' !! key = Some s2
    /\ (forall k, k <> key -> sessions st' !! k = sessions st !! k)
    /\ calls st' = calls st ++ [CloseTransport s1 closed; CreateTransport (Resolved s2)].
Proof.
  intros H Hclose Hcreate.
  destruct closed as [[]|e].
  - erewrite createSession_unfold by by eapply destroySession_closed.
    simpl. rewrite Hcreate. eexists. split; [done|]. simpl.
    rewrite lookup_insert_eq. split; [done|]. split.
    + intros k Hk. by rewrite lookup_insert_ne, lookup_delete_ne.
    + by rewrite <- app_assoc.
  - erewrite createSession_unfold by by eapply destroySession_close_rejected.
    simpl. rewrite Hcreate. eexists. split; [done|]. simpl.
    rewrite lookup_insert_eq. split; [done|]. split.
    + intros k Hk. by rewrite lookup_insert_ne.
    + by rewrite <- app_assoc.
Qed.

(** A failed creation after a clean teardown leaves the key free. *)
Lemma createSession_failure_after_close key apiKey history st s1 w1 e w2 :
  sessions st !! key = Some s1 ->
  closeTransport (transportFactory config) s1 (world st) = (Resolved (), w1) ->
  createTransport (transportFactory config) apiKey history w1 = (Rejected e, w2) ->
  exists st', createSession config key apiKey history st =
                (Resolved {| success := false; error := Some (unknown_error e) |}, st')
    /\ sessions st' !! key = None.
Proof.
  intros H Hclose Hcreate.
  erewrite createSession_unfold by by eapply destroySession_closed.
  simpl. rewrite Hcreate. eexists. split; [done|]. simpl. apply lookup_delete_eq.
Qed.

(** A failed creation after a failed teardown leaves the old session. *)
Lemma createSession_failure_after_failed_close key apiKey history st s1 e1 w1 e w2 :
  sessions st !! key = Some s1 ->
  closeTransport (transportFactory config) s1 (world st) = (Rejected e1, w1) ->
  createTransport (transportFactory config) apiKey history w1 = (Rejected e, w2) ->
  exists st', createSession config key apiKey history st =
                (Resolved {| success := false; error := Some (unknown_error e) |}, st')
    /\ sessions st' !! key = Some s1.
Proof.
  intros H Hclose Hcreate.
  erewrite createSession_unfold by by eapply destroySession_close_rejected.
  simpl. rewrite Hcreate. eexists. split; [done|]. done.
Qed.

Lemma content_array_record raw content k :
  content_array raw = Some content -> js_get raw k = obj_get (own_entries raw) k.
Proof.
  intros H. apply js_get_record.
  destruct raw as [| | |str|items| |]; try done.
Qed.

(** The fields of [{...result, content: processed.content,
    savedImages: processed.savedImages}]. *)
Lemma with_processed_reads raw p :
  (exists entries, with_processed raw p = JObj entries)
  /\ js_get (with_processed raw p) (lit "content") = Some (processed_content p)
  /\ js_get (with_processed raw p) (lit "savedImages") = savedImages p
  /\ forall k, k <> lit "content" -> k <> lit "savedImages" ->
       js_get (with_processed raw p) k = obj_get (own_entries raw) k.
Proof.
  unfold with_processed. destruct (savedImages p) as [imgs|]; cbn [js_get].
  - split; [by eexists|]. split; [|split].
    + rewrite obj_get_set_ne by done. apply obj_get_set_eq.
    + apply obj_get_set_eq.
    + intros k H1 H2. by rewrite !obj_get_set_ne.
  - split; [by eexists|]. split; [|split].
    + rewrite obj_get_del_ne by done. apply obj_get_set_eq.
    + apply obj_get_del_eq.
    + intros k H1 H2. rewrite obj_get_del_ne by done. by rewrite obj_get_set_ne.
Qed.

(** C8, amended. On a live session, when the raw result has an image part
    with data, a handler and a user-id source are configured and a user
    id is available, the result goes through the handler: if the handler
    rejects, while initializing or while processing, [callTool] rejects
    with the handler's error and the raw result is not returned; if it
    resolves, [callTool] returns a new object whose [content] is the
    processed content, whose [savedImages] is what the handler reports
    (none when it reports none, whatever the raw result had) and whose
    other fields are those of the raw result. *)
Theorem callTool_image_handler key toolName args st session handler currentUserId
    raw w1 content userId :
  sessions st !! key = Some session ->
  imageHandler config = Some handler ->
  getCurrentUserId config = Some currentUserId ->
  client_callTool config session toolName (if truthy args then args else JObj [])
    (world st) = (Resolved raw, w1) ->
  content_array raw = Some content ->
  existsb is_image content = true ->
  currentUserId w1 = Some userId ->
  userId <> [] ->
  let settled st' w :=
    {| sessions := sessions st; world := w; calls := calls st |} = st' in
  match initialize handler userId w1 with
  | (Rejected e, w2) =>
      exists st', callTool config key toolName args st = (Rejected e, st') /\ settled st' w2
  | (Resolved _, w2) =>
      match processToolResult handler raw w2 with
      | (Rejected e, w3) =>
          exists st', callTool config key toolName args st = (Rejected e, st')
                      /\ settled st' w3
      | (Resolved processed, w3) =>
          exists out st', callTool config key toolName args st = (Resolved out, st')
                      /\ settled st' w3
                      /\ (exists entries, out = JObj entries)
                      /\ js_get out (lit "content") = Some (processed_content processed)
                      /\ js_get out (lit "savedImages") = savedImages processed
                      /\ forall k, k <> lit "content" -> k <> lit "savedImages" ->
                           js_get out k = js_get raw k
      end
  end.
Proof.
  intros Hs Hh Hu Hraw Hc Himg Hid Hne settled.
  unfold callTool, mbind, M_bind, bind, sessions_get, host. simpl.
  rewrite Hs. simpl. rewrite Hraw. simpl. rewrite Hh, Hu, Hc, Himg. simpl.
  rewrite Hid. rewrite bool_decide_eq_false_2 by done. simpl.
  destruct (initialize handler userId w1) as [[[]|e] w2]; simpl.
  - destruct (processToolResult handler raw w2) as [[p|e] w3]; simpl; [|by eexists].
    destruct (with_processed_reads raw p) as (Hobj & Hcontent & Hsaved & Hother).
    eexists _, _. split; [done|]. split; [done|]. split; [done|].
    split; [done|]. split; [done|].
    intros k H1 H2. rewrite (content_array_record _ _ _ Hc). by apply Hother.
  - by eexists.
Qed.

(** When no handler is configured the raw result is returned. *)
Lemma callTool_no_handler key toolName args st session raw w1 :
  sessions st !! key = Some session ->
  imageHandler config = None ->
  client_callTool config session toolName (if truthy args then args else JObj [])
    (world st) = (Resolved raw, w1) ->
  callTool config key toolName args st =
    (Resolved raw, {| sessions := sessions st; world := w1; calls := calls st |}).
Proof.
  intros Hs Hh Hraw.
  unfold callTool, mbind, M_bind, bind, sessions_get, host. simpl.
  rewrite Hs. simpl. rewrite Hraw. simpl. by rewrite Hh.
Qed.

End client.

(** C10. [getSessionInfo] leaves the client as it is and answers
    [{exists: false}] for a key without a session and
    [{exists: true, isConnected: true}] for a key with one; it never
    answers [isConnected: false]. *)
Theorem getSessionInfo_reads {Session W : Type} (key : jsstring) (st : State Session W) :
  exists info,
    getSessionInfo key st = (Resolved info, st)
    /\ info = (if hasSession key st
               then {| exists_ := true; isConnected := Some true |}
               else {| exists_ := false; isConnected := None |})
    /\ isConnected info <> Some false.
Proof.
  unfold getSessionInfo, hasSession, mbind, M_bind, bind, sessions_get. simpl.
  destruct (sessions st !! key) as [s|] eqn:H; simpl.
  - eexists. by split; [|split].
  - eexists. by split; [|split].
Qed.

(** C2 at a failing input: one session under [chat], a factory whose
    close rejects. [destroySession] reports the failure and the session
    is still registered. *)
Theorem destroySession_keeps_entry_when_close_fails :
  exists st',
    destroySession (scripted_config true 1 None) (lit "chat") one_session =
      (Resolved {| success := false; error := Some (lit "close failed") |}, st')
    /\ hasSession (lit "chat") st' = true.
Proof.
  eexists. split; vm_compute; reflexivity.
Qed.

(** C7 at a failing input: [createSession] twice on [chat], with a factory
    that opens one session only and whose close rejects. The second call
    reports the failed creation and the first session is still registered. *)
Theorem createSession_failure_keeps_stale_entry :
  let config := scripted_config true 1 None in
  exists r1 st1 st2,
    createSession config (lit "chat") (lit "key") None no_session = (Resolved r1, st1)
    /\ success r1 = true
    /\ sessions st1 !! lit "chat" = Some 0
    /\ createSession config (lit "chat") (lit "key") None st1 =
         (Resolved {| success := false; error := Some (lit "spawn failed") |}, st2)
    /\ sessions st2 !! lit "chat" = Some 0
    /\ calls st2 = [CreateTransport (Resolved 0);
                    CloseTransport 0 (Rejected (Error (lit "close failed")));
                    CreateTransport (Rejected (Error (lit "spawn failed")))].
Proof.
  intros config. eexists _, _, _.
  split; [vm_compute; reflexivity|].
  split; [reflexivity|].
  split; [vm_compute; reflexivity|].
  split; [vm_compute; reflexivity|].
  split; vm_compute; reflexivity.
Qed.

(** C8, as stated, fails: with an image handler that rejects while
    processing, [callTool] on a live session rejects with the handler's
    error instead of returning the raw result. *)
Lemma callTool_rejects_when_handler_fails :
  callTool (scripted_config false 1 (Some failing_handler)) (lit "chat")
    (lit "screenshot") (JObj []) one_session
  = (Rejected (Error (lit "disk full")), one_session).
Proof. vm_compute. reflexivity. Qed.

Lemma callTool_image_handler_witness :
  exists out st',
    callTool stale_config (lit "chat") (lit "screenshot") (JObj []) one_session
    = (Resolved out, st')
    /\ {| sessions := sessions one_session; world := 1; calls := calls one_session |} = st'
    /\ (exists entries, out = JObj entries)
    /\ js_get out (lit "content")
       = Some (JArr [JObj [(lit "type", JStr (lit "text"));
                           (lit "text", JStr (lit "[image]"))]])
    /\ js_get out (lit "savedImages") = None
    /\ forall k, k <> lit "content" -> k <> lit "savedImages" ->
         js_get out k = js_get stale_result k.
Proof.
  exact (callTool_image_handler stale_config
           (lit "chat") (lit "screenshot") (JObj []) one_session 0 text_handler
           (fun _ => Some (lit "user-1")) stale_result 1
           [JObj [(lit "type", JStr (lit "image")); (lit "data", JStr (lit "iVBOR"))]]
           (lit "user-1")
           eq_refl eq_refl eq_refl eq_refl eq_refl eq_refl eq_refl
           ltac:(discriminate)).
Defined.

End ClientFacts.

(** ** The tool adapter: one step *)

Module TurnFacts.

Import ToolBuilder.

Lemma set_status_same ex : set_status (status ex) ex = ex.
Proof. by destruct ex. Qed.

Lemma settle_lookup i s t :
  executions (settle i s t) !! i = set_status s <$> executions t !! i.
Proof. apply list_lookup_alter_eq. Qed.

Lemma settle_lookup_ne i j s t :
  i <> j -> executions (settle i s t) !! j = executions t !! j.
Proof. intros. by apply list_lookup_alter_ne. Qed.

Lemma catch_block_spec i ex e t :
  executions t !! i = Some ex ->
  exists s', executions (catch_block i ex e t) !! i = Some (set_status s' ex)
    /\ (forall j, i <> j -> executions (catch_block i ex e t) !! j = executions t !! j)
    /\ mcp_calls (catch_block i ex e t) = mcp_calls t
    /\ abortSignal_aborted (catch_block i ex e t) = abortSignal_aborted t
    /\ activeToolExecutions (catch_block i ex e t)
       = delete (toolExecutionId ex) (activeToolExecutions t)
    /\ (s' = Threw cancelled
        \/ (controller_aborted ex = false /\ abortSignal_aborted t = false
            /\ exists result, s' = Returned result)).
Proof.
  intros H. unfold catch_block. cbn [abortSignal_aborted with_active].
  destruct (controller_aborted ex || abortSignal_aborted t
            || has_message e "Tool execution cancelled") eqn:E.
  - eexists. rewrite settle_lookup. cbn [executions with_active]. rewrite H.
    split; [done|]. split; [by intros; rewrite settle_lookup_ne|].
    repeat split; by left.
  - eexists. rewrite settle_lookup. cbn [executions with_active]. rewrite H.
    split; [done|]. split; [by intros; rewrite settle_lookup_ne|].
    repeat split. right.
    apply orb_false_elim in E as [[? ?]%orb_false_elim _]. by eauto.
Qed.

Lemma dispatch_spec opts i ex p t :
  executions t !! i = Some ex ->
  exists s', executions (dispatch opts i ex p t) !! i = Some (set_status s' ex)
    /\ (forall j, i <> j -> executions (dispatch opts i ex p t) !! j = executions t !! j)
    /\ abortSignal_aborted (dispatch opts i ex p t) = abortSignal_aborted t
    /\ ((s' = Threw cancelled /\ controller_aborted ex = true
         /\ mcp_calls (dispatch opts i ex p t) = mcp_calls t)
        \/ (s' = Suspended (AwaitCallTool p) /\ controller_aborted ex = false
            /\ mcp_calls (dispatch opts i ex p t) = mcp_calls t ++ [(i, name (tool ex), p)])).
Proof.
  intros H. unfold dispatch. destruct (controller_aborted ex) eqn:E.
  - destruct (catch_block_spec i ex cancelled t H) as (s' & H1 & H2 & H3 & H4 & _ & H5).
    exists s'. repeat split; try done. left.
    destruct H5 as [->|(? & _)]; [done|congruence].
  - eexists. rewrite settle_lookup. cbn [executions]. rewrite H.
    split; [done|]. split; [by intros; rewrite settle_lookup_ne|].
    split; [done|]. by right.
Qed.

(** One resumption, seen from the execution resumed. *)
Lemma resume_self opts i r t ex :
  executions t !! i = Some ex ->
  exists s', executions (resume opts i r t) !! i = Some (set_status s' ex)
    /\ resumed (controller_aborted ex) (status ex) s'
    /\ abortSignal_aborted (resume opts i r t) = abortSignal_aborted t
    /\ (mcp_calls (resume opts i r t) = mcp_calls t
        \/ exists p, mcp_calls (resume opts i r t) = mcp_calls t ++ [(i, name (tool ex), p)]
                     /\ s' = Suspended (AwaitCallTool p)
                     /\ controller_aborted ex = false /\ pre_dispatch (status ex)).
Proof.
  intros H.
  assert (exists s', executions t !! i = Some (set_status s' ex)
    /\ s' = status ex) as Hsame.
  { exists (status ex). by rewrite set_status_same. }
  assert (forall p t0, executions t0 !! i = Some ex -> pre_dispatch (status ex) ->
    abortSignal_aborted t0 = abortSignal_aborted t -> mcp_calls t0 = mcp_calls t ->
    exists s', executions (dispatch opts i ex p t0) !! i = Some (set_status s' ex)
    /\ (s' = Threw cancelled \/ (controller_aborted ex = false /\ s' = Suspended (AwaitCallTool p)))
    /\ abortSignal_aborted (dispatch opts i ex p t0) = abortSignal_aborted t
    /\ (mcp_calls (dispatch opts i ex p t0) = mcp_calls t
        \/ exists q, mcp_calls (dispatch opts i ex p t0) = mcp_calls t ++ [(i, name (tool ex), q)]
                     /\ s' = Suspended (AwaitCallTool q)
                     /\ controller_aborted ex = false /\ pre_dispatch (status ex))) as Hdisp.
  { intros p t0 H0 Hpre Ha Hm.
    destruct (dispatch_spec opts i ex p t0 H0) as (s' & H1 & _ & H3 & H4).
    exists s'. split; [done|]. rewrite H3, Ha.
    destruct H4 as [(-> & ? & Hc)|(-> & ? & Hc)]; rewrite Hm in Hc.
    - split; [by left|]. split; [done|by left].
    - split; [by right|]. split; [done|]. right. by exists p. }
  assert (forall e, exists s', executions (catch_block i ex e t) !! i = Some (set_status s' ex)
    /\ (s' = Threw cancelled \/ (controller_aborted ex = false /\ exists result, s' = Returned result))
    /\ abortSignal_aborted (catch_block i ex e t) = abortSignal_aborted t
    /\ mcp_calls (catch_block i ex e t) = mcp_calls t) as Hcatch.
  { intros e. destruct (catch_block_spec i ex e t H) as (s' & H1 & _ & H3 & H4 & _ & H5).
    exists s'. repeat split; try done.
    destruct H5 as [->|(? & _ & ?)]; [by left|by right]. }
  unfold resume. rewrite H.
  destruct (status ex) as [|[settled sp|req sp|fp]| |] eqn:Es;
    try (destruct Hsame as (s' & ? & ->); exists (status ex); rewrite Es;
         repeat split; try done; by left).
  - (* check settled *)
    destruct r; try (destruct Hsame as (s' & ? & ->); exists (status ex); rewrite Es;
         repeat split; try done; by left).
    destruct settled as [[req|]|e].
    + eexists. rewrite settle_lookup, H. repeat split; [|by left].
      right. by left.
    + destruct (Hdisp sp t H) as (s' & H1 & H2 & H3 & H4); [done..|].
      exists s'. repeat split; try done.
      destruct H2 as [->|[? ->]]; [by right; right; left|].
      right; right; right; right. split; [done|]. left. by eexists.
    + destruct (Hcatch e) as (s' & H1 & H2 & H3 & H4).
      exists s'. repeat split; try done; [|by left].
      destruct H2 as [->|[? ?]]; [by right; right; left|].
      right; right; right; right. split; [done|]. by right.
  - (* confirmation settled *)
    destruct r as [|[result|e]|]; try (destruct Hsame as (s' & ? & ->); exists (status ex);
         rewrite Es; repeat split; try done; by left).
    + destruct (allowed result); cbn [negb].
      2:{ eexists. rewrite settle_lookup, H. repeat split; [|by left].
          right; right; right; left. by eexists. }
      assert (forall p t0, executions t0 !! i = Some ex ->
        abortSignal_aborted t0 = abortSignal_aborted t -> mcp_calls t0 = mcp_calls t ->
        exists s', executions (dispatch opts i ex p t0) !! i = Some (set_status s' ex)
        /\ resumed (controller_aborted ex) (Suspended (AwaitRequestConfirmation req sp)) s'
        /\ abortSignal_aborted (dispatch opts i ex p t0) = abortSignal_aborted t
        /\ (mcp_calls (dispatch opts i ex p t0) = mcp_calls t
            \/ exists q, mcp_calls (dispatch opts i ex p t0) = mcp_calls t ++ [(i, name (tool ex), q)]
                     /\ s' = Suspended (AwaitCallTool q)
                     /\ controller_aborted ex = false
                     /\ pre_dispatch (Suspended (AwaitRequestConfirmation req sp)))) as Hd.
      { intros p t0 H0 Ha Hm.
        destruct (Hdisp p t0 H0) as (s' & H1 & H2 & H3 & H4); [done..|].
        exists s'. repeat split; try done.
        destruct H2 as [->|[? ->]]; [by right; right; left|].
        right; right; right; right. split; [done|]. left. by eexists. }
      destruct (editedConfig result) as [config|]; [|by apply Hd].
      destruct (truthy config); [|by apply Hd].
      destruct (onArgsEdited opts); by apply Hd.
    + assert (forall e, exists s', executions (catch_block i ex e t) !! i = Some (set_status s' ex)
        /\ resumed (controller_aborted ex) (Suspended (AwaitRequestConfirmation req sp)) s'
        /\ abortSignal_aborted (catch_block i ex e t) = abortSignal_aborted t
        /\ (mcp_calls (catch_block i ex e t) = mcp_calls t
            \/ exists p, mcp_calls (catch_block i ex e t) = mcp_calls t ++ [(i, name (tool ex), p)]
                     /\ s' = Suspended (AwaitCallTool p)
                     /\ controller_aborted ex = false
                     /\ pre_dispatch (Suspended (AwaitRequestConfirmation req sp)))) as Hc.
      { intros e'. destruct (Hcatch e') as (s' & H1 & H2 & H3 & H4).
        exists s'. repeat split; try done; [|by left].
        destruct H2 as [->|[? ?]]; [by right; right; left|].
        right; right; right; right. split; [done|]. by right. }
      destruct (has_message e "Stream cancelled by user"); by apply Hc.
  - (* tool call settled *)
    destruct r as [| |[result|e]]; try (destruct Hsame as (s' & ? & ->); exists (status ex);
         rewrite Es; repeat split; try done; by left).
    + eexists. rewrite settle_lookup, H. repeat split; [|by left].
      right; right. by eexists.
    + destruct (Hcatch e) as (s' & H1 & H2 & H3 & H4).
      exists s'. repeat split; try done; [|by left].
      destruct H2 as [->|[? ?]]; [by right; left|by right; right].
Qed.

(** One resumption, seen from the other executions. *)
Lemma resume_other opts j r t i :
  i <> j ->
  executions (resume opts j r t) !! i = executions t !! i.
Proof.
  intros Hne. unfold resume.
  destruct (executions t !! j) as [ex|] eqn:H; [|done].
  assert (forall p t0, executions t0 = executions t ->
            executions (dispatch opts j ex p t0) !! i = executions t !! i) as Hd.
  { intros p t0 H0. rewrite <- H0 in H.
    destruct (dispatch_spec opts j ex p t0 H) as (s' & _ & H2 & _).
    rewrite H2 by done. by rewrite H0. }
  assert (forall e, executions (catch_block j ex e t) !! i = executions t !! i) as Hc.
  { intros e. destruct (catch_block_spec j ex e t H) as (s' & _ & H2 & _).
    by rewrite H2. }
  assert (forall s, executions (settle j s t) !! i = executions t !! i) as Hs.
  { intros s. by rewrite settle_lookup_ne. }
  repeat case_match; try done; by apply Hd.
Qed.

Lemma resume_calls_other opts j r t i :
  i <> j -> calls_of i (resume opts j r t) = calls_of i t.
Proof.
  intros Hne. unfold calls_of.
  destruct (executions t !! j) as [ex|] eqn:H.
  - destruct (resume_self opts j r t ex H) as (s' & _ & _ & _ & [->|(p & -> & _)]); [done|].
    rewrite filter_app, filter_cons_False, filter_nil, app_nil_r; [done|].
    simpl. congruence.
  - unfold resume. by rewrite H.
Qed.

(** The start of an execution, seen from the executions before it. *)
Lemma execute_spec opts tl now params interactive t :
  let t' := execute opts tl now params interactive t in
  let n := length (executions t) in
  (forall i, i < n -> executions t' !! i = executions t !! i)
  /\ abortSignal_aborted t' = abortSignal_aborted t
  /\ exists ex, executions t' !! n = Some ex
       /\ length (executions t') = S n
       /\ controller_aborted ex = false
       /\ toolExecutionId ex = name tl ++ lit "-" ++ decimal now
       /\ ((mcp_calls t' = mcp_calls t /\ ~ exists p, status ex = Suspended (AwaitCallTool p))
           \/ exists p, mcp_calls t' = mcp_calls t ++ [(n, name tl, p)]
                        /\ status ex = Suspended (AwaitCallTool p)).
Proof.
  intros t' n. subst t'. unfold execute. fold n.
  set (id := name tl ++ lit "-" ++ decimal now).
  set (ex := {| tool := tl; toolExecutionId := id; controller_aborted := false;
                status := Running |}).
  set (t1 := with_executions (fun l => l ++ [ex]) (with_active <[id := n]> t)).
  assert (executions t1 !! n = Some ex) as Hn.
  { subst t1. simpl. by apply list_lookup_middle. }
  assert (forall i, i < n -> executions t1 !! i = executions t !! i) as Hold.
  { intros i Hi. subst t1. simpl. by apply lookup_app_l. }
  assert (length (executions t1) = S n) as Hlen.
  { subst t1. simpl. rewrite length_app. simpl. lia. }
  assert (forall s t2, executions t2 = executions t1 ->
            length (executions (settle n s t2)) = S n) as Hslen.
  { intros s t2 H2. unfold settle. simpl. by rewrite length_alter, H2. }
  change (abortSignal_aborted t1) with (abortSignal_aborted t).
  destruct (abortSignal_aborted t) eqn:Ea.
  { split; [|split; [done|]].
    - intros i Hi. rewrite settle_lookup_ne by lia. by apply Hold.
    - eexists. rewrite settle_lookup. cbn [executions with_active]. rewrite Hn.
      split; [done|]. split; [by apply Hslen|]. repeat split. left.
      split; [done|]. by intros [p ?]. }
  change (controller_aborted ex) with false. cbn match.
  destruct interactive.
  { split; [|split; [done|]].
    - intros i Hi. rewrite settle_lookup_ne by lia. by apply Hold.
    - eexists. rewrite settle_lookup, Hn.
      split; [done|]. split; [by apply Hslen|]. repeat split. left.
      split; [done|]. by intros [p ?]. }
  set (sp := deepSanitizeParams _ _ _).
  destruct (dispatch_spec opts n ex sp t1 Hn) as (s' & H1 & H2 & H3 & H4).
  split; [|split; [done|]].
  - intros i Hi. rewrite H2 by lia. by apply Hold.
  - eexists. split; [exact H1|].
    split.
    { unfold dispatch. change (controller_aborted ex) with false. cbn match.
      by apply Hslen. }
    repeat split.
    destruct H4 as [(_ & ? & _)|(-> & _ & Hc)]; [done|].
    right. by exists sp.
Qed.

End TurnFacts.

Export TurnFacts.

(** ** The tool adapter: cancellation *)

Module AbortFacts.

Import ToolBuilder.

(** The loop of the listener over the registered controllers. *)
Lemma abort_loop (m : gmap jsstring nat) (l : list Execution) :
  let r := map_fold (fun _ controller l => alter set_aborted controller l) l m in
  length r = length l /\
  forall i ex, l !! i = Some ex ->
    exists ex', r !! i = Some ex'
      /\ status ex' = status ex /\ tool ex' = tool ex
      /\ toolExecutionId ex' = toolExecutionId ex
      /\ (controller_aborted ex = true -> controller_aborted ex' = true)
      /\ ((exists id, m !! id = Some i) -> controller_aborted ex' = true).
Proof.
  cbv zeta.
  apply (map_fold_weak_ind
           (fun r m => length r = length l /\
              forall i ex, l !! i = Some ex ->
                exists ex', r !! i = Some ex'
                  /\ status ex' = status ex /\ tool ex' = tool ex
                  /\ toolExecutionId ex' = toolExecutionId ex
                  /\ (controller_aborted ex = true -> controller_aborted ex' = true)
                  /\ ((exists id, m !! id = Some i) -> controller_aborted ex' = true))).
  - split; [done|]. intros i ex H. exists ex. repeat split; try done.
    intros [id Hid]. by rewrite lookup_empty in Hid.
  - intros k c m' r Hk [Hlen IH]. split; [by rewrite length_alter|].
    intros i ex H. destruct (IH i ex H) as (ex' & H1 & H2 & H3 & H4 & H5 & H6).
    destruct (decide (c = i)) as [->|Hne].
    + exists (set_aborted ex'). rewrite list_lookup_alter_eq, H1.
      by repeat split.
    + exists ex'. rewrite list_lookup_alter_ne by done.
      repeat split; try done.
      intros [id Hid]. apply H6. exists id.
      destruct (decide (k = id)) as [->|Hkid].
      * rewrite lookup_insert_eq in Hid. congruence.
      * by rewrite lookup_insert_ne in Hid.
Qed.

Lemma abort_spec t :
  abortSignal_aborted (abort t) = true
  /\ mcp_calls (abort t) = mcp_calls t
  /\ (abortSignal_aborted t = false -> activeToolExecutions (abort t) = ∅)
  /\ forall i ex, executions t !! i = Some ex ->
       exists ex', executions (abort t) !! i = Some ex'
         /\ status ex' = status ex
         /\ (controller_aborted ex = true -> controller_aborted ex' = true)
         /\ (abortSignal_aborted t = false ->
             (exists id, activeToolExecutions t !! id = Some i) ->
             controller_aborted ex' = true).
Proof.
  unfold abort. destruct (abortSignal_aborted t) eqn:E.
  - repeat split; try done. intros i ex H. exists ex. by repeat split.
  - repeat split; try done. intros i ex H. cbn [executions].
    destruct (abort_loop (activeToolExecutions t) (executions t)) as [_ Hl].
    destruct (Hl i ex H) as (ex' & H1 & H2 & _ & _ & H5 & H6).
    exists ex'. by repeat split; auto.
Qed.

Section after.
Variable opts : BuildToolsOptions.
Variable i : nat.

Lemma step_signal t ev :
  abortSignal_aborted t = true -> abortSignal_aborted (step opts t ev) = true.
Proof.
  intros Ha. destruct ev as [tl now params interactive|j r|]; simpl.
  - destruct (execute_spec opts tl now params interactive t) as (_ & H & _).
    by rewrite H.
  - destruct (executions t !! j) as [ex|] eqn:H.
    + destruct (resume_self opts j r t ex H) as (s' & _ & _ & H3 & _). by rewrite H3.
    + unfold resume. by rewrite H.
  - apply abort_spec.
Qed.

Lemma filter_calls_app (cs : list (nat * jsstring * json)) j n p :
  i <> j ->
  filter (fun c => c.1.1 = i) (cs ++ [(j, n, p)]) = filter (fun c => c.1.1 = i) cs.
Proof.
  intros Hne. rewrite filter_app, filter_cons_False, filter_nil, app_nil_r; [done|].
  simpl. congruence.
Qed.

Lemma resumes_or_not ev : (exists r, ev = Resume i r) \/ (forall r, ev <> Resume i r).
Proof.
  destruct ev as [| j r |]; try by right.
  destruct (decide (j = i)) as [->|Hne]; [left; by eexists|right; congruence].
Qed.

(** What happens to execution [i] in one step, when nothing resumes it. *)
Lemma step_frame t ev ex :
  executions t !! i = Some ex ->
  (forall r, ev <> Resume i r) ->
  exists ex', executions (step opts t ev) !! i = Some ex'
    /\ status ex' = status ex
    /\ (controller_aborted ex = true -> controller_aborted ex' = true)
    /\ calls_of i (step opts t ev) = calls_of i t.
Proof.
  intros H Hev. destruct ev as [tl now params interactive|j r|]; simpl.
  - destruct (execute_spec opts tl now params interactive t) as (H1 & _ & ex' & _ & _ & _ & _ & H4).
    pose proof (lookup_lt_Some _ _ _ H) as Hlt.
    exists ex. rewrite H1 by done. repeat split; try done.
    unfold calls_of. destruct H4 as [[-> _]|(p & -> & _)]; [done|].
    apply filter_calls_app. lia.
  - assert (i <> j) as Hne by (intros ->; by apply (Hev r)).
    exists ex. rewrite resume_other by done. repeat split; try done.
    by apply resume_calls_other.
  - destruct (abort_spec t) as (_ & H2 & _ & H4).
    destruct (H4 i ex H) as (ex' & ? & ? & ? & _). exists ex'.
    repeat split; try done. unfold calls_of. by rewrite H2.
Qed.

(** An execution that has settled stays as it is. *)
Lemma step_finished t ev ex :
  executions t !! i = Some ex ->
  (match status ex with Returned _ | Threw _ => True | _ => False end) ->
  exists ex', executions (step opts t ev) !! i = Some ex'
    /\ status ex' = status ex
    /\ calls_of i (step opts t ev) = calls_of i t.
Proof.
  intros H Hfin.
  destruct (resumes_or_not ev) as [[r ->]|Hev].
  - simpl. destruct (resume_self opts i r t ex H) as (s' & H1 & H2 & _ & H4).
    eexists. split; [exact H1|].
    destruct (status ex); try done; simpl in H2; subst s'.
    + split; [done|]. unfold calls_of.
      by destruct H4 as [->|(p & _ & _ & _ & ?)].
    + split; [done|]. unfold calls_of.
      by destruct H4 as [->|(p & _ & _ & _ & ?)].
  - destruct (step_frame t ev ex H Hev) as (ex' & ? & ? & _ & ?).
    by exists ex'.
Qed.

Lemma run_finished evs : forall t ex,
  executions t !! i = Some ex ->
  (match status ex with Returned _ | Threw _ => True | _ => False end) ->
  exists ex', executions (run opts t evs) !! i = Some ex'
    /\ status ex' = status ex
    /\ calls_of i (run opts t evs) = calls_of i t.
Proof.
  induction evs as [|ev evs IH]; intros t ex H Hfin; simpl.
  - by exists ex.
  - destruct (step_finished t ev ex H Hfin) as (ex1 & H1 & H2 & H3).
    destruct (IH (step opts t ev) ex1 H1) as (ex2 & ? & ? & ?); [by rewrite H2|].
    exists ex2. repeat split; congruence.
Qed.

(** One answer to an execution whose controller is aborted. *)
Lemma resume_aborted r t ex :
  executions t !! i = Some ex ->
  controller_aborted ex = true ->
  executions (resume opts i r t) !! i
  = Some (set_status (next_after_abort (status ex) r) ex)
  /\ mcp_calls (resume opts i r t) = mcp_calls t.
Proof.
  intros H Hc.
  assert (forall e t0, executions t0 = executions t -> mcp_calls t0 = mcp_calls t ->
            executions (catch_block i ex e t0) !! i = Some (set_status (Threw cancelled) ex)
            /\ mcp_calls (catch_block i ex e t0) = mcp_calls t) as Hcatch.
  { intros e t0 He Hm. unfold catch_block. rewrite Hc. cbn [orb].
    rewrite settle_lookup. cbn [with_active executions settle with_executions mcp_calls].
    by rewrite He, H, Hm. }
  assert (forall p t0, executions t0 = executions t -> mcp_calls t0 = mcp_calls t ->
            executions (dispatch opts i ex p t0) !! i = Some (set_status (Threw cancelled) ex)
            /\ mcp_calls (dispatch opts i ex p t0) = mcp_calls t) as Hdisp.
  { intros p t0 He Hm. unfold dispatch. rewrite Hc. by apply Hcatch. }
  assert (forall s, executions (settle i s t) !! i = Some (set_status s ex)
                    /\ mcp_calls (settle i s t) = mcp_calls t) as Hsettle.
  { intros s. by rewrite settle_lookup, H. }
  assert (executions t !! i = Some (set_status (status ex) ex)) as Hsame
    by (by rewrite set_status_same).
  unfold resume. rewrite H.
  destruct (status ex) as [|[settled sp|req sp|fp]| |] eqn:Es;
    try (by destruct r).
  - destruct r as [|c|c]; [|by destruct settled as [[?|]|?]..].
    destruct settled as [[req|]|e]; cbn [next_after_abort];
      [apply Hsettle|by apply Hdisp|by apply Hcatch].
  - destruct r as [|[result|e]|c]; try done; cbn [next_after_abort].
    + destruct (allowed result); cbn [negb]; [|apply Hsettle].
      destruct (editedConfig result) as [cfg|]; [|by apply Hdisp].
      destruct (truthy cfg); [|by apply Hdisp].
      destruct (onArgsEdited opts); by apply Hdisp.
    + destruct (has_message e "Stream cancelled by user"); by apply Hcatch.
  - destruct r as [|c|[result|e]]; try done; cbn [next_after_abort].
    by apply Hcatch.
Qed.

Lemma run_aborted evs : forall t ex,
  executions t !! i = Some ex ->
  controller_aborted ex = true ->
  exists ex', executions (run opts t evs) !! i = Some ex'
    /\ controller_aborted ex' = true
    /\ status ex' = status_after i (status ex) evs
    /\ calls_of i (run opts t evs) = calls_of i t.
Proof.
  induction evs as [|ev evs IH]; intros t ex H Hc; [by exists ex|].
  change (run opts t (ev :: evs)) with (run opts (step opts t ev) evs).
  destruct (resumes_or_not ev) as [[r ->]|Hev].
  - destruct (resume_aborted r t ex H Hc) as [H1 H2].
    destruct (IH (step opts t (Resume i r)) _ H1) as (ex' & H3 & H4 & H5 & H6);
      [by destruct ex|].
    exists ex'. split; [done|]. split; [done|]. split.
    + rewrite H5. unfold status_after. cbn [fold_left]. by rewrite decide_True.
    + rewrite H6. unfold calls_of. cbn [step]. by rewrite H2.
  - destruct (step_frame t ev ex H Hev) as (ex1 & H1 & Hs & Hc1 & Hk).
    destruct (IH (step opts t ev) ex1 H1 (Hc1 Hc)) as (ex' & H3 & H4 & H5 & H6).
    exists ex'. split; [done|]. split; [done|]. split.
    + rewrite H5, Hs. unfold status_after. cbn [fold_left].
      destruct ev as [| j r |]; try done.
      rewrite decide_False; [done|]. intros ->. by apply (Hev r).
    + by rewrite H6.
Qed.

End after.

(** C3, amended. When the turn's signal fires, the map is empty right
    after and the controller of every execution registered in it is
    aborted. Whatever happens next, such an execution makes no MCP call
    any more, and the answers it is given decide how it ends
    ([next_after_abort]): an execution that had not yet made its MCP call
    ends with "Tool execution cancelled" when it reaches the check before
    the call or when its confirmation request fails, and returns the
    denial notice when its confirmation is answered [allowed: false]; an
    execution that was awaiting its MCP call returns the result of the
    call when the call resolves, and ends with "Tool execution cancelled"
    when it rejects. *)
Theorem abort_cancels_registered (opts : BuildToolsOptions) (t : Turn)
    (evs : list Event) (id : jsstring) (i : nat) (ex : Execution) :
  abortSignal_aborted t = false ->
  activeToolExecutions t !! id = Some i ->
  executions t !! i = Some ex ->
  activeToolExecutions (abort t) = ∅
  /\ (exists ex1, executions (abort t) !! i = Some ex1
        /\ controller_aborted ex1 = true /\ status ex1 = status ex)
  /\ (exists ex2, executions (run opts (abort t) evs) !! i = Some ex2
        /\ controller_aborted ex2 = true
        /\ status ex2 = status_after i (status ex) evs
        /\ calls_of i (run opts (abort t) evs) = calls_of i t).
Proof.
  intros Ha Hid H.
  destruct (abort_spec t) as (_ & Hm & He & Hx).
  destruct (Hx i ex H) as (ex1 & H1 & H2 & _ & H4).
  specialize (H4 Ha ltac:(by exists id)).
  split; [by apply He|]. split; [by exists ex1|].
  destruct (run_aborted opts i evs (abort t) ex1 H1 H4) as (ex2 & H5 & H6 & H7 & H8).
  exists ex2. split; [done|]. split; [done|]. split; [by rewrite H7, H2|].
  rewrite H8. unfold calls_of. by rewrite Hm.
Qed.

Lemma abort_cancels_registered_witness :
  let t := run gpt start awaiting_confirmation in
  let evs := [Resume 0 (Confirmation (Resolved allow))] in
  exists ex,
    executions t !! 0 = Some ex
    /\ activeToolExecutions (abort t) = ∅
    /\ (exists ex1, executions (abort t) !! 0 = Some ex1
          /\ controller_aborted ex1 = true /\ status ex1 = status ex)
    /\ (exists ex2, executions (run gpt (abort t) evs) !! 0 = Some ex2
          /\ controller_aborted ex2 = true
          /\ status ex2 = status_after 0 (status ex) evs
          /\ calls_of 0 (run gpt (abort t) evs) = calls_of 0 t).
Proof.
  intros t evs. eexists. split; [vm_compute; reflexivity|].
  apply (abort_cancels_registered gpt t evs (lit "install_server-1762150000000") 0);
    vm_compute; reflexivity.
Defined.

(** The same turn, answer by answer: the confirmation allowed after the
    abort ends the execution as cancelled, the confirmation denied
    returns the denial notice, and no MCP call is made in either case. *)
Lemma abort_then_answer :
  let t := abort (run gpt start awaiting_confirmation) in
  (status <$> executions (run gpt t [Resume 0 (Confirmation (Resolved allow))]) !! 0)
  = Some (Threw cancelled)
  /\ (status <$> executions (run gpt t [Resume 0 (Confirmation (Resolved deny))]) !! 0)
     = Some (Returned (denial deny))
  /\ mcp_calls (run gpt t [Resume 0 (Confirmation (Resolved allow))]) = [].
Proof. vm_compute. by repeat split. Qed.

End AbortFacts.

Export AbortFacts.

(** ** The tool adapter: the confirmation gate *)

Module GateFacts.

Import ToolBuilder.

Lemma step_calls_dispatched opts t ev :
  calls_dispatched t -> calls_dispatched (step opts t ev).
Proof.
  intros Inv. destruct ev as [tl now params interactive|j r|]; simpl.
  - destruct (execute_spec opts tl now params interactive t)
      as (Hold & _ & ex & Hn & _ & _ & _ & Hc).
    assert (forall c, c ∈ mcp_calls t ->
      exists ex0, executions (execute opts tl now params interactive t) !! c.1.1 = Some ex0
                  /\ ~ pre_dispatch (status ex0)) as Hprev.
    { intros c Hin. destruct (Inv c Hin) as (ex0 & H0 & Hp).
      exists ex0. rewrite Hold; [done|]. by eapply lookup_lt_Some. }
    intros c Hin. destruct Hc as [[Hc _]|(p & Hc & Hs)]; rewrite Hc in Hin.
    + by apply Hprev.
    + apply elem_of_app in Hin as [Hin|Hin%list_elem_of_singleton]; [by apply Hprev|].
      subst c. exists ex. simpl. split; [done|]. rewrite Hs. by intros [].
  - destruct (executions t !! j) as [ex|] eqn:H.
    2:{ unfold resume. by rewrite H. }
    destruct (resume_self opts j r t ex H) as (s' & H1 & H2 & _ & H4).
    assert (forall c, c ∈ mcp_calls t ->
      exists ex0, executions (resume opts j r t) !! c.1.1 = Some ex0
                  /\ ~ pre_dispatch (status ex0)) as Hprev.
    { intros c Hin. destruct (Inv c Hin) as (ex0 & H0 & Hp).
      destruct (decide (c.1.1 = j)) as [Hj|Hj].
      - rewrite Hj in *. rewrite H in H0. injection H0 as <-.
        eexists. split; [exact H1|]. destruct ex as [? ? ? s]. simpl in *.
        unfold resumed in H2.
        destruct s as [|[]| |]; try done; subst; try done.
        destruct H2 as [->|[->|[? ->]]]; done.
      - exists ex0. by rewrite resume_other. }
    intros c Hin. destruct H4 as [Hc|(p & Hc & -> & _)]; rewrite Hc in Hin.
    + by apply Hprev.
    + apply elem_of_app in Hin as [Hin|Hin%list_elem_of_singleton]; [by apply Hprev|].
      subst c. eexists. simpl. split; [exact H1|]. destruct ex. by intros [].
  - destruct (abort_spec t) as (_ & Hm & _ & Hx).
    intros c Hin. rewrite Hm in Hin. destruct (Inv c Hin) as (ex0 & H0 & Hp).
    destruct (Hx _ _ H0) as (ex' & ? & Hs & _). exists ex'. by rewrite Hs.
Qed.

Lemma run_calls_dispatched opts evs : forall t,
  calls_dispatched t -> calls_dispatched (run opts t evs).
Proof.
  induction evs as [|ev evs IH]; intros t H; simpl; [done|].
  by apply IH, step_calls_dispatched.
Qed.

Lemma calls_of_nil i t :
  (forall c, c ∈ mcp_calls t -> c.1.1 <> i) -> calls_of i t = [].
Proof.
  unfold calls_of. induction (mcp_calls t) as [|c cs IH]; intros H; [done|].
  rewrite filter_cons_False; [|by apply H; left].
  apply IH. intros c' Hc'. apply H. by right.
Qed.

(** C4. When the confirmation of an execution is answered with
    [allowed = false], the execution returns a result without [isError]
    whose text is "Operation cancelled: " followed by the reason given (or
    "User denied the operation"), nothing is thrown, and
    [adapter.mcp.callTool] is not called for it, before or after. *)
Theorem denial_short_circuits (opts : BuildToolsOptions) (evs evs' : list Event)
    (i : nat) (ex : Execution) (request : ConfirmationRequest)
    (sanitizedParams : json) (result : ConfirmationResult) :
  executions (run opts start evs) !! i = Some ex ->
  status ex = Suspended (AwaitRequestConfirmation request sanitizedParams) ->
  allowed result = false ->
  let t' := run opts (run opts start evs)
              (Resume i (Confirmation (Resolved result)) :: evs') in
  calls_of i t' = []
  /\ (exists ex', executions t' !! i = Some ex' /\ status ex' = Returned (denial result))
  /\ exists why,
       denial result =
         JObj [(lit "content",
                JArr [JObj [(lit "type", JStr (lit "text"));
                            (lit "text", JStr (lit "Operation cancelled: " ++ why))]])].
Proof.
  intros H Hs Hdenied t'.
  assert (calls_dispatched (run opts start evs)) as Hinv.
  { apply run_calls_dispatched. by intros ? ?%elem_of_nil. }
  set (t := run opts start evs) in *.
  assert (calls_of i t = []) as Hnone.
  { apply calls_of_nil. intros c Hin Hi.
    destruct (Hinv c Hin) as (ex0 & H0 & Hp).
    rewrite Hi, H in H0. injection H0 as <-. apply Hp. by rewrite Hs. }
  assert (resume opts i (Confirmation (Resolved result)) t
          = settle i (Returned (denial result)) t) as Hstep.
  { unfold resume. by rewrite H, Hs, Hdenied. }
  assert (t' = run opts (settle i (Returned (denial result)) t) evs') as ->.
  { subst t'. unfold run. simpl. by rewrite Hstep. }
  destruct (run_finished opts i evs' (settle i (Returned (denial result)) t)
              (set_status (Returned (denial result)) ex)) as (ex' & H1 & H2 & H3).
  { by rewrite settle_lookup, H. }
  { done. }
  split; [by rewrite H3|]. split; [by exists ex'|].
  unfold denial, text_result. by eexists.
Qed.

(** C1 at two failing inputs. An execution whose MCP call resolves
    returns the result, and one whose confirmation is denied returns the
    notice; in both cases its entry is still in [activeToolExecutions]. *)
Theorem settled_execution_stays_registered :
  let done_ := run gpt start
                 [Execute search_servers 1762150000000 (JObj []) false;
                  Resume 0 (ToolResult (Resolved found))] in
  let denied := run gpt start
                  [Execute install_server 1762150000000 weather true;
                   Resume 0 Continue;
                   Resume 0 (Confirmation (Resolved deny))] in
  (status <$> executions done_ !! 0 = Some (Returned found)
   /\ activeToolExecutions done_ !! lit "search_servers-1762150000000" = Some 0)
  /\ (status <$> executions denied !! 0 = Some (Returned (denial deny))
      /\ activeToolExecutions denied !! lit "install_server-1762150000000" = Some 0).
Proof. vm_compute. by repeat split. Qed.

(** The [catch] block does remove the entry. *)
Lemma failed_execution_unregistered :
  let failed := run gpt start
                  [Execute search_servers 1762150000000 (JObj []) false;
                   Resume 0 (ToolResult (Rejected (Error (lit "timeout"))))] in
  status <$> executions failed !! 0
    = Some (Returned (text_result true (lit "Tool execution failed: timeout")))
  /\ activeToolExecutions failed = ∅.
Proof. vm_compute. by repeat split. Qed.

(** C3, as stated, fails: an execution that awaits its MCP call when the
    turn is aborted returns the result of the call when it resolves. *)
Lemma call_completes_after_abort :
  let t := run gpt start [Execute search_servers 1762150000000 (JObj []) false] in
  let t' := run gpt t [Abort; Resume 0 (ToolResult (Resolved found))] in
  activeToolExecutions t !! lit "search_servers-1762150000000" = Some 0
  /\ abortSignal_aborted t' = true
  /\ status <$> executions t' !! 0 = Some (Returned found).
Proof. vm_compute. by repeat split. Qed.

Lemma denial_short_circuits_witness :
  let t' := run gpt (run gpt start awaiting_confirmation)
              [Resume 0 (Confirmation (Resolved deny)); Abort] in
  calls_of 0 t' = []
  /\ (exists ex', executions t' !! 0 = Some ex' /\ status ex' = Returned (denial deny))
  /\ exists why,
       denial deny =
         JObj [(lit "content",
                JArr [JObj [(lit "type", JStr (lit "text"));
                            (lit "text", JStr (lit "Operation cancelled: " ++ why))]])].
Proof.
  eapply (denial_short_circuits gpt awaiting_confirmation [Abort] 0);
    [vm_compute; reflexivity | vm_compute; reflexivity | reflexivity].
Defined.

End GateFacts.

(** ** Further properties of the code *)

Module EntryFacts.

Lemma obj_del_sublist es k : sublist (obj_del es k) es.
Proof.
  induction es as [|[k' v'] es IH]; simpl; [done|].
  destruct (str_eqb k' k); by constructor.
Qed.

Lemma obj_del_NoDup es k : NoDup es.*1 -> NoDup (obj_del es k).*1.
Proof.
  intros H. eapply sublist_NoDup; [exact H|apply fmap_sublist, obj_del_sublist].
Qed.

Lemma obj_del_absent es k : k ∉ (obj_del es k).*1.
Proof.
  induction es as [|[k' v'] es IH]; simpl; [apply not_elem_of_nil|].
  destruct (str_eqb k' k) eqn:E; [done|]. simpl.
  apply not_elem_of_cons. split; [|done]. apply str_eqb_neq in E. congruence.
Qed.

Lemma obj_del_fresh es k : k ∉ es.*1 -> obj_del es k = es.
Proof.
  induction es as [|[k' v'] es IH]; simpl; [done|].
  intros [Hne Hk]%not_elem_of_cons.
  assert (str_eqb k' k = false) as -> by (apply str_eqb_neq; congruence).
  by rewrite IH.
Qed.


End EntryFacts.

Module ArgumentFacts.

(** X1. A string that [JSON.parse] refuses is returned as it is, whatever
    the schema and the field name. *)
Theorem deepSanitizeParams_invalid_json_unchanged (str : jsstring)
    (schema : option json) (fieldName : option jsstring) :
  JSON_parse str = None ->
  deepSanitizeParams (JStr str) schema fieldName = JStr str.
Proof.
  intros H. rewrite deepSanitizeParams_unfold. simpl. rewrite H.
  by repeat match goal with |- context [if ?c then _ else _] => destruct c end.
Qed.

Lemma deepSanitizeParams_invalid_json_unchanged_witness :
  JSON_parse (qlit "{'a': oops}") = None
  /\ deepSanitizeParams (JStr (qlit "{'a': oops}"))
       (Some (JObj [(lit "type", JStr (lit "object"))])) (Some (lit "arguments"))
     = JStr (qlit "{'a': oops}").
Proof.
  split; [vm_compute; reflexivity|].
  apply deepSanitizeParams_invalid_json_unchanged. vm_compute. reflexivity.
Defined.

(** X2. Normalization keeps the shape of a structure. An object (with
    one entry per name) comes back as an object whose own properties have
    the names of the input's entries other than [__proto__], in the same
    order: an entry called [__proto__] names no property of the result.
    An object with no such entry comes back as an object with the
    built-in prototype and the same names in the same order. An array
    comes back as an array of the same length. *)
Theorem deepSanitizeParams_keeps_shape (schema : option json)
    (fieldName : option jsstring) :
  (forall entries, NoDup entries.*1 ->
     is_record (deepSanitizeParams (JObj entries) schema fieldName)
     /\ (own_entries (deepSanitizeParams (JObj entries) schema fieldName)).*1
        = (own_part entries).*1
     /\ (proto_key ∉ entries.*1 ->
         exists entries',
           deepSanitizeParams (JObj entries) schema fieldName = JObj entries'
           /\ entries'.*1 = entries.*1))
  /\ (forall items,
        exists items', deepSanitizeParams (JArr items) schema fieldName = JArr items'
                       /\ length items' = length items).
Proof.
  split.
  - intros entries Hnd. rewrite deepSanitizeParams_unfold.
    rewrite (walk_record _ (JObj entries)) by done.
    set (g := fun k v => walk deepSanitizeParams v
                           (js_read (schema_properties schema) k) (Some k)).
    cbn [own_entries].
    destruct (fill_own g entries (JObj []) I) as [Hrec Hown];
      [done|intros _; exists []; split; [done|apply not_elem_of_nil]|].
    assert (forall es : list (jsstring * json),
              (map (fun kv => (kv.1, g kv.1 kv.2)) es).*1 = es.*1) as Hkeys.
    { intros es. rewrite <- list_fmap_compose. by apply list_fmap_ext. }
    split; [done|]. split.
    + rewrite Hown. cbn [own_entries app]. apply Hkeys.
    + intros Hproto. rewrite fill_build by done. eexists. split; [done|].
      rewrite build_map by done. apply Hkeys.
  - intros items. rewrite deepSanitizeParams_unfold. simpl.
    eexists. split; [done|]. by rewrite length_map.
Qed.

Lemma deepSanitizeParams_keeps_shape_witness :
  is_record
    (deepSanitizeParams
       (JObj [(lit "a", JStr (qlit "[1]")); (proto_key, JObj [(lit "b", JNull)])])
       (Some (JObj [(lit "properties",
                     JObj [(lit "a", JObj [(lit "type", JStr (lit "array"))])])]))
       None)
  /\ (own_entries
        (deepSanitizeParams
           (JObj [(lit "a", JStr (qlit "[1]")); (proto_key, JObj [(lit "b", JNull)])])
           (Some (JObj [(lit "properties",
                         JObj [(lit "a", JObj [(lit "type", JStr (lit "array"))])])]))
           None)).*1
     = [lit "a"].
Proof.
  assert (NoDup [lit "a"; proto_key]) as Hnd.
  { apply (bool_decide_unpack (NoDup [lit "a"; proto_key])). vm_compute. exact I. }
  split;
    by apply (proj1 (deepSanitizeParams_keeps_shape _ None)
                [(lit "a", JStr (qlit "[1]")); (proto_key, JObj [(lit "b", JNull)])] Hnd).
Defined.

(** X3. Without a schema nothing is reparsed outside the fields called
    [arguments]: a value as [JSON.parse] gives it (one entry per name in
    every object), with no entry called [__proto__] and none called
    [arguments], under a field name other than [arguments], is returned
    as it is. *)
Theorem deepSanitizeParams_no_schema_unchanged (x : json) (fieldName : option jsstring) :
  unique_keys x = true ->
  proto_free x = true ->
  mentions_arguments x = false ->
  is_arguments fieldName = false ->
  deepSanitizeParams x None fieldName = x.
Proof.
  revert fieldName.
  induction x as [| | |str|items IH|entries IH|proto entries _ _] using json_induction;
    intros fieldName Hu Hp Hm Hf; rewrite deepSanitizeParams_unfold; try done.
  - simpl. rewrite Hf. by destruct (looks_like_json str).
  - simpl. f_equal. rewrite <- (map_id items) at 2. apply map_ext_in.
    intros item Hin%list_elem_of_In. rewrite Forall_forall in IH.
    simpl in Hu, Hm, Hp. rewrite forallb_forall in Hu, Hp.
    rewrite <- deepSanitizeParams_unfold.
    apply IH; [done|by apply Hu, list_elem_of_In|by apply Hp, list_elem_of_In| |done].
    apply not_true_is_false. intros Hx.
    assert (existsb mentions_arguments items = true) as He; [|congruence].
    apply existsb_exists. exists item. split; [by apply list_elem_of_In|done].
  - apply unique_keys_record in Hu as [Hnd Hu]; [|done].
    apply proto_free_obj in Hp as [Hproto Hp].
    rewrite Forall_forall in Hu, Hp. cbn [own_entries] in *.
    rewrite (walk_record _ (JObj entries)) by done. cbn [own_entries].
    rewrite fill_build by done. f_equal.
    rewrite build_again; [done|done|].
    rewrite Forall_forall in IH |- *. intros [k v] Hin. simpl.
    assert (str_eqb k (lit "arguments") || mentions_arguments v = false) as Hkv.
    { apply not_true_is_false. intros Hx. simpl in Hm.
      assert (existsb (fun kv => str_eqb kv.1 (lit "arguments") || mentions_arguments kv.2)
                entries = true) as He; [|congruence].
      apply existsb_exists. exists (k, v). split; [by apply list_elem_of_In|done]. }
    apply orb_false_elim in Hkv as [Hk Hv].
    rewrite <- deepSanitizeParams_unfold.
    apply (IH (k, v) Hin); [by apply (Hu (k, v))|by apply (Hp (k, v))|done|done].
Qed.

Lemma deepSanitizeParams_no_schema_unchanged_witness :
  let x := JObj [(lit "query", JStr (qlit "{'a':1}"));
                 (lit "tags", JArr [JStr (qlit "[1,2]")])] in
  deepSanitizeParams x None None = x.
Proof.
  intros x. apply deepSanitizeParams_no_schema_unchanged; vm_compute; reflexivity.
Defined.

(** With an entry called [__proto__] the value does not come back as it
    is, schema or not. *)
Lemma deepSanitizeParams_drops_proto_entry :
  deepSanitizeParams with_proto_entry None None <> with_proto_entry.
Proof. vm_compute. discriminate. Qed.

End ArgumentFacts.

Module ReparseFacts.

Lemma json_ws_js_space c : is_json_ws c = true -> is_js_space c = true.
Proof. unfold is_json_ws, is_js_space. intros H. bools. lia. Qed.

Lemma trimStart_skip_ws s c r :
  skip_ws s = c :: r -> is_js_space c = false -> trimStart s = c :: r.
Proof.
  intros H Hc. induction s as [|d s IH]; simpl in *; [done|].
  destruct (is_json_ws d) eqn:E.
  - rewrite (json_ws_js_space d E). by apply IH.
  - injection H as -> ->. by rewrite Hc.
Qed.

Lemma trimStart_last l c :
  is_js_space c = false -> exists l', trimStart (l ++ [c]) = l' ++ [c].
Proof.
  intros Hc. induction l as [|d l IH]; simpl.
  - rewrite Hc. by exists [].
  - destruct (is_js_space d); [done|]. by exists (d :: l).
Qed.

Lemma trim_head s c r :
  skip_ws s = c :: r -> is_js_space c = false -> exists r', trim s = c :: r'.
Proof.
  intros H Hc. unfold trim. rewrite (trimStart_skip_ws s c r H Hc). simpl.
  destruct (trimStart_last (rev r) c Hc) as (l' & ->).
  rewrite rev_app_distr. simpl. by eexists.
Qed.

Lemma parse_number_head c r out :
  parse_number (c :: r) = Some out -> c = 45%N \/ is_digit c = true.
Proof.
  unfold parse_number, number_sign. destruct (c =? 45)%N eqn:E.
  { apply N.eqb_eq in E. by left. }
  intros H. right. apply bind_Some in H as ([int s2] & Hint & _).
  unfold number_int in Hint. destruct (c =? 48)%N eqn:E0.
  { apply N.eqb_eq in E0 as ->. done. }
  by destruct (is_digit c).
Qed.

(** The first character of a text [JSON.parse] accepts tells the kind of
    the value. *)
Lemma parse_value_head fuel s v r c r0 :
  parse_value fuel s = POk (v, r) -> skip_ws s = c :: r0 ->
  (c = 123%N /\ exists es, v = JObj es)
  \/ (c = 91%N /\ exists items, v = JArr items)
  \/ (is_js_space c = false /\ c <> 123%N /\ c <> 91%N).
Proof.
  destruct fuel as [|fuel]; [done|]. simpl. intros H Hs. rewrite Hs in H.
  destruct (c =? 123)%N eqn:E1.
  { apply N.eqb_eq in E1. left. split; [done|].
    destruct (expect 125 (skip_ws r0)); [injection H as <- _; by eexists|].
    destruct (parse_size fuel) as (_ & _ & Hm).
    destruct (Hm _ _ _ _ H) as (es & -> & _). by eexists. }
  destruct (c =? 91)%N eqn:E2.
  { apply N.eqb_eq in E2. right. left. split; [done|].
    destruct (expect 93 (skip_ws r0)); [injection H as <- _; by eexists|].
    destruct (parse_elements fuel r0) as [[vs r']| |]; [|done..].
    injection H as <- _. by eexists. }
  apply N.eqb_neq in E1, E2. right. right. split; [|done].
  destruct (c =? 34)%N eqn:E3; [by apply N.eqb_eq in E3 as ->|].
  destruct (c =? 116)%N eqn:E4; [by apply N.eqb_eq in E4 as ->|].
  destruct (c =? 102)%N eqn:E5; [by apply N.eqb_eq in E5 as ->|].
  destruct (c =? 110)%N eqn:E6; [by apply N.eqb_eq in E6 as ->|].
  destruct (parse_number (c :: r0)) as [out|] eqn:En; [|done].
  apply parse_number_head in En as [->|Hd]; [done|].
  unfold is_digit in Hd. unfold is_js_space.
  destruct (_ || _) eqn:E; [|done]. bools. lia.
Qed.

(** X4. A text that looks like JSON and that [JSON.parse] accepts holds
    an object or an array. So under a schema of type object or array
    [deepSanitizeParams] turns such a text into an object (with the
    built-in prototype or a replaced one) or an array, never into a
    number, a string, a boolean or [null]. *)
Theorem reparsed_text_is_structured (str : jsstring) (schema : option json)
    (fieldName : option jsstring) (parsed : json) :
  looks_like_json str = true ->
  JSON_parse str = Some parsed ->
  schema_type_is schema "object" || schema_type_is schema "array" = true ->
  deepSanitizeParams (JStr str) schema fieldName
    = deepSanitizeParams parsed schema fieldName
  /\ match deepSanitizeParams (JStr str) schema fieldName with
     | JObj _ | JProto _ _ | JArr _ => True
     | _ => False
     end.
Proof.
  intros Hlook Hparse Htype.
  assert (schema_type_is schema "string" = false) as Hstr.
  { unfold schema_type_is in *.
    destruct (opt_get schema (lit "type")) as [[| | |t| | |]|]; try done.
    apply orb_prop in Htype as [->%str_eqb_eq| ->%str_eqb_eq]; done. }
  assert (deepSanitizeParams (JStr str) schema fieldName
          = deepSanitizeParams parsed schema fieldName) as Heq.
  { rewrite deepSanitizeParams_unfold. simpl. by rewrite Hlook, Hstr, Htype, Hparse. }
  split; [done|]. rewrite Heq.
  assert ((exists es, parsed = JObj es) \/ exists items, parsed = JArr items) as Hkind.
  { unfold JSON_parse, parse_text in Hparse.
    destruct (parse_value (parse_fuel str) str) as [[v r]| |] eqn:Hv; try done.
    assert (v = parsed) as -> by (destruct (skip_ws r); simpl in Hparse; congruence).
    destruct (skip_ws str) as [|c r0] eqn:Hs.
    { unfold parse_fuel in Hv. replace (2 * length str + 1) with (S (2 * length str)) in Hv by lia.
      simpl in Hv. by rewrite Hs in Hv. }
    destruct (parse_value_head _ _ _ _ _ _ Hv Hs) as [[_ ?]|[[_ ?]|(Hc & H1 & H2)]];
      [by left|by right|].
    destruct (trim_head str c r0 Hs Hc) as (r' & Ht).
    unfold looks_like_json in Hlook. rewrite Ht in Hlook.
    change (lit "{") with [123%N] in Hlook. change (lit "[") with [91%N] in Hlook.
    cbn [startsWith] in Hlook. bools. destruct Hlook as [[? _]|[? _]]; congruence. }
  rewrite deepSanitizeParams_unfold.
  destruct Hkind as [[es ->]|[items ->]]; [|done].
  rewrite (walk_record _ (JObj es)) by done.
  pose proof (fill_record
                (fun k v => walk deepSanitizeParams v
                              (js_read (schema_properties schema) k) (Some k))
                es (JObj []) I) as Hrec.
  by destruct (fill _ _ _).
Qed.

Lemma reparsed_text_is_structured_witness :
  let str := qlit " {'q': 'cats', 'n': [1, 2]} " in
  let schema := Some (JObj [(lit "type", JStr (lit "object"))]) in
  exists parsed,
    JSON_parse str = Some parsed
    /\ deepSanitizeParams (JStr str) schema None = deepSanitizeParams parsed schema None
    /\ match deepSanitizeParams (JStr str) schema None with
       | JObj _ | JProto _ _ | JArr _ => True
       | _ => False
       end.
Proof.
  intros str schema. eexists. split; [vm_compute; reflexivity|].
  apply (reparsed_text_is_structured str schema None).
  - vm_compute. reflexivity.
  - vm_compute. reflexivity.
  - vm_compute. reflexivity.
Defined.

End ReparseFacts.

Module RegistryFacts.

Import MCPClient.

Section client.
Context {Session W : Type}.
Variable config : MCPClientConfig Session W.
Implicit Types (st : State Session W) (key : jsstring).

(** X5. [callTool] and [listTools] on a key without a session reject with
    "No MCP client found for session: <key>"; the host is not called and
    the client is left as it is. *)
Theorem absent_session_rejects key toolName args st :
  sessions st !! key = None ->
  callTool config key toolName args st
    = (Rejected (Error (lit "No MCP client found for session: " ++ key)), st)
  /\ listTools config key st
    = (Rejected (Error (lit "No MCP client found for session: " ++ key)), st).
Proof.
  intros H. unfold callTool, listTools, mbind, M_bind, bind, sessions_get. simpl.
  by rewrite H.
Qed.

Lemma destroySession_sessions key st :
  exists r st', destroySession config key st = (Resolved r, st')
    /\ (sessions st' = sessions st \/ sessions st' = delete key (sessions st)).
Proof.
  destruct (sessions st !! key) as [session|] eqn:H.
  - destruct (closeTransport (transportFactory config) session (world st))
      as [[[]|e] w] eqn:Hclose.
    + erewrite ClientFacts.destroySession_closed by done.
      eexists _, _. split; [done|]. by right.
    + erewrite ClientFacts.destroySession_close_rejected by done.
      eexists _, _. split; [done|]. by left.
  - rewrite ClientFacts.destroySession_absent by done.
    eexists _, _. split; [done|]. by left.
Qed.

(** X6. Session isolation: [createSession] and [destroySession] on one key
    never change what is registered under another key, whatever the
    transport factory answers. *)
Theorem other_sessions_untouched key other apiKey history st :
  other <> key ->
  sessions (createSession config key apiKey history st).2 !! other = sessions st !! other
  /\ sessions (destroySession config key st).2 !! other = sessions st !! other.
Proof.
  intros Hne.
  destruct (destroySession_sessions key st) as (rd & st1 & Hd & Hs).
  assert (sessions st1 !! other = sessions st !! other) as H1.
  { destruct Hs as [->| ->]; [done|]. by rewrite lookup_delete_ne. }
  split; [|by rewrite Hd].
  rewrite (ClientFacts.createSession_unfold config key apiKey history st rd st1 Hd).
  destruct (createTransport _ _ _ _) as [[session|e] w]; simpl; [|done].
  by rewrite lookup_insert_ne.
Qed.

(** X7. [createSession] never rejects. It reports success exactly when the
    transport factory created a session, and that session is then the one
    registered under the key. *)
Theorem createSession_reports key apiKey history st :
  exists r st',
    createSession config key apiKey history st = (Resolved r, st')
    /\ match last (calls st') with
       | Some (CreateTransport (Resolved session)) =>
           success r = true /\ error r = None /\ sessions st' !! key = Some session
       | Some (CreateTransport (Rejected e)) =>
           success r = false /\ error r = Some (unknown_error e)
       | _ => False
       end.
Proof.
  destruct (destroySession_sessions key st) as (rd & st1 & Hd & _).
  rewrite (ClientFacts.createSession_unfold config key apiKey history st rd st1 Hd).
  destruct (createTransport _ _ _ _) as [[session|e] w]; eexists _, _; (split; [done|]);
    simpl; rewrite last_snoc; [|done].
  by rewrite lookup_insert_eq.
Qed.

(** The tool operations and [getSessionInfo] only read the registry. *)
Lemma host_sessions {A} (op : W -> outcome A * W) st :
  sessions (host op st).2 = sessions st.
Proof. unfold host. by destruct (op (world st)). Qed.

(** X8. [callTool], [listTools] and [getSessionInfo] never change the
    registry, whether they resolve or reject. *)
Theorem tool_operations_keep_registry key toolName args st :
  sessions (callTool config key toolName args st).2 = sessions st
  /\ sessions (listTools config key st).2 = sessions st
  /\ sessions (getSessionInfo key st).2 = sessions st.
Proof.
  split; [|split].
  - unfold callTool, mbind, M_bind, bind, sessions_get, host, ret. simpl.
    destruct (sessions st !! key) as [session|]; [|done]. simpl.
    destruct (client_callTool _ _ _ _ _) as [[raw|e] w1]; [|done]. simpl.
    repeat (case_match; simplify_eq/=; try done).
  - unfold listTools, try_catch, mbind, M_bind, bind, sessions_get, host, throw. simpl.
    destruct (sessions st !! key) as [session|]; [|done]. simpl.
    by destruct (client_listTools _ _ _) as [[raw|e] w1].
  - unfold getSessionInfo, mbind, M_bind, bind, sessions_get, ret. simpl.
    by destruct (sessions st !! key).
Qed.

(** X9. When the raw result has no image part with data, [callTool]
    returns it as it is and the image handler is not called, whatever is
    configured. *)
Theorem callTool_without_images key toolName args st session raw w1 :
  sessions st !! key = Some session ->
  client_callTool config session toolName (if truthy args then args else JObj [])
    (world st) = (Resolved raw, w1) ->
  match content_array raw with
  | Some content => existsb is_image content = false
  | None => True
  end ->
  callTool config key toolName args st
    = (Resolved raw, {| sessions := sessions st; world := w1; calls := calls st |}).
Proof.
  intros Hs Hraw Hc.
  unfold callTool, mbind, M_bind, bind, sessions_get, host, ret. simpl.
  rewrite Hs. simpl. rewrite Hraw. simpl.
  destruct (imageHandler config) as [handler|]; [|done].
  destruct (getCurrentUserId config) as [currentUserId|]; [|done].
  destruct (content_array raw) as [content|]; [|done].
  by rewrite Hc.
Qed.

(** X10. [getActiveSessions] lists, once each, exactly the keys for which
    [hasSession] answers true. *)
Theorem getActiveSessions_hasSession st :
  NoDup (getActiveSessions st)
  /\ forall key, key ∈ getActiveSessions st <-> hasSession key st = true.
Proof.
  unfold getActiveSessions, hasSession. split.
  - apply NoDup_fst_map_to_list.
  - intros key. rewrite bool_decide_eq_true, list_elem_of_fmap. split.
    + intros [[k s] [-> Hin%elem_of_map_to_list]]. by exists s.
    + intros [s Hs]. exists (key, s). split; [done|]. by apply elem_of_map_to_list.
Qed.

(** X11. With a factory that closes the way [DefaultStdioTransportFactory]
    does, swallowing the error of the client's close, [destroySession]
    always reports success and the key is free afterwards. *)
Theorem destroySession_with_default_close key st client_close :
  closeTransport (transportFactory config) = default_closeTransport client_close ->
  exists st', destroySession config key st
                = (Resolved {| success := true; error := None |}, st')
    /\ hasSession key st' = false.
Proof.
  intros Hclose. destruct (sessions st !! key) as [session|] eqn:H.
  - destruct (client_close session (world st)) as [r w] eqn:Hc.
    erewrite ClientFacts.destroySession_closed; [|done|].
    2:{ rewrite Hclose. unfold default_closeTransport. by rewrite Hc. }
    eexists. split; [done|]. unfold hasSession. simpl.
    rewrite lookup_delete_eq. by apply bool_decide_eq_false_2, is_Some_None.
  - rewrite ClientFacts.destroySession_absent by done.
    eexists. split; [done|]. unfold hasSession. rewrite H.
    by apply bool_decide_eq_false_2, is_Some_None.
Qed.

End client.

Lemma absent_session_rejects_witness :
  callTool (scripted_config false 1 None) (lit "chat") (lit "search") (JObj []) no_session
    = (Rejected (Error (lit "No MCP client found for session: " ++ lit "chat")), no_session)
  /\ listTools (scripted_config false 1 None) (lit "chat") no_session
    = (Rejected (Error (lit "No MCP client found for session: " ++ lit "chat")), no_session).
Proof.
  apply (absent_session_rejects (scripted_config false 1 None) (lit "chat") (lit "search")
           (JObj []) no_session).
  vm_compute. reflexivity.
Defined.

Lemma other_sessions_untouched_witness :
  sessions (createSession (scripted_config true 1 None) (lit "mail") (lit "key") None
              one_session).2 !! lit "chat" = sessions one_session !! lit "chat"
  /\ sessions (destroySession (scripted_config true 1 None) (lit "mail") one_session).2
       !! lit "chat" = sessions one_session !! lit "chat".
Proof.
  apply (other_sessions_untouched (scripted_config true 1 None) (lit "mail") (lit "chat")
           (lit "key") None one_session).
  intros H. vm_compute in H. discriminate H.
Defined.

Lemma callTool_without_images_witness :
  callTool text_config (lit "chat") (lit "search") (JObj []) one_session
    = (Resolved found, {| sessions := sessions one_session; world := 1;
                          calls := calls one_session |}).
Proof.
  apply (callTool_without_images text_config (lit "chat") (lit "search") (JObj [])
           one_session 0 found 1).
  - vm_compute. reflexivity.
  - reflexivity.
  - vm_compute. reflexivity.
Defined.

Lemma destroySession_with_default_close_witness :
  exists st', destroySession text_config (lit "chat") one_session
                = (Resolved {| success := true; error := None |}, st')
    /\ hasSession (lit "chat") st' = false.
Proof.
  apply (destroySession_with_default_close text_config (lit "chat") one_session failing_close).
  reflexivity.
Defined.

(** X12. In the result rewritten after image processing, [content] is the
    processed content and every field other than [content] and
    [savedImages] is the field of the raw result. *)
Theorem with_processed_fields (entries : list (jsstring * json)) (p : Processed) :
  js_get (with_processed (JObj entries) p) (lit "content") = Some (processed_content p)
  /\ forall k, k <> lit "content" -> k <> lit "savedImages" ->
       js_get (with_processed (JObj entries) p) k = js_get (JObj entries) k.
Proof.
  destruct (ClientFacts.with_processed_reads (JObj entries) p) as (_ & Hcontent & _ & Hother).
  by split.
Qed.

End RegistryFacts.

Module LifecycleFacts.

Import ToolBuilder.

Lemma alter_last {A} (f : A -> A) (l : list A) (x : A) :
  alter f (length l) (l ++ [x]) = l ++ [f x].
Proof. induction l as [|y l IH]; simpl; [done|]. by f_equal. Qed.

(** [execute] up to its first [await], case by case. *)
Lemma execute_cases opts tl now params interactive t :
  let id := name tl ++ lit "-" ++ decimal now in
  let n := length (executions t) in
  let sp := deepSanitizeParams (rename_args opts tl params) (Some (toolSchema tl)) None in
  execute opts tl now params interactive t =
    if abortSignal_aborted t then
      {| abortSignal_aborted := true;
         activeToolExecutions := delete id (<[id := n]> (activeToolExecutions t));
         executions := executions t ++ [started tl now (Threw stream_cancelled)];
         mcp_calls := mcp_calls t; args_edited := args_edited t |}
    else if interactive then
      {| abortSignal_aborted := false;
         activeToolExecutions := <[id := n]> (activeToolExecutions t);
         executions := executions t ++
           [started tl now (Suspended (AwaitCheckToolConfirmation
                                         (checkToolConfirmation (name tl) sp) sp))];
         mcp_calls := mcp_calls t; args_edited := args_edited t |}
    else
      {| abortSignal_aborted := false;
         activeToolExecutions := <[id := n]> (activeToolExecutions t);
         executions := executions t ++ [started tl now (Suspended (AwaitCallTool sp))];
         mcp_calls := mcp_calls t ++ [(n, name tl, sp)]; args_edited := args_edited t |}.
Proof.
  intros id n sp. subst id n sp.
  unfold execute, dispatch, settle, with_executions, with_active.
  cbn [abortSignal_aborted activeToolExecutions executions mcp_calls args_edited
       controller_aborted tool].
  destruct (abortSignal_aborted t) eqn:Ea.
  - by rewrite alter_last.
  - destruct interactive; by rewrite alter_last.
Qed.

(** X13. [execute] on a turn that is already aborted throws "Stream
    cancelled" before its first [await]: no MCP call is made, and no entry
    is left under its id, not even one an earlier execution had set. *)
Theorem execute_on_aborted_turn opts tl now params interactive t :
  abortSignal_aborted t = true ->
  let t' := execute opts tl now params interactive t in
  let id := name tl ++ lit "-" ++ decimal now in
  executions t' = executions t ++ [started tl now (Threw stream_cancelled)]
  /\ mcp_calls t' = mcp_calls t
  /\ args_edited t' = args_edited t
  /\ activeToolExecutions t' !! id = None
  /\ forall other, other <> id ->
       activeToolExecutions t' !! other = activeToolExecutions t !! other.
Proof.
  intros Ha t' id. subst t'. rewrite execute_cases, Ha. cbn.
  repeat split.
  - apply lookup_delete_eq.
  - intros other Hne. by rewrite lookup_delete_ne, lookup_insert_ne.
Qed.

Lemma execute_on_aborted_turn_witness :
  let t := abort (run gpt start [Execute search_servers 1762150000000 (JObj []) false]) in
  let t' := execute gpt search_servers 1762150000000 (JObj []) false t in
  let id := name search_servers ++ lit "-" ++ decimal 1762150000000 in
  executions t' = executions t ++ [started search_servers 1762150000000 (Threw stream_cancelled)]
  /\ mcp_calls t' = mcp_calls t
  /\ args_edited t' = args_edited t
  /\ activeToolExecutions t' !! id = None
  /\ forall other, other <> id ->
       activeToolExecutions t' !! other = activeToolExecutions t !! other.
Proof.
  apply (execute_on_aborted_turn gpt search_servers 1762150000000 (JObj []) false).
  reflexivity.
Defined.

(** X14. With a host that is not interactive, [execute] goes straight to
    the MCP call: one call, with the sanitised parameters, and what the
    call resolves with is returned as it is. *)
Theorem execute_non_interactive opts tl now params result t :
  abortSignal_aborted t = false ->
  let n := length (executions t) in
  let sp := deepSanitizeParams (rename_args opts tl params) (Some (toolSchema tl)) None in
  let t' := run opts t [Execute tl now params false;
                        Resume n (ToolResult (Resolved result))] in
  mcp_calls t' = mcp_calls t ++ [(n, name tl, sp)]
  /\ executions t' = executions t ++ [started tl now (Returned result)]
  /\ args_edited t' = args_edited t.
Proof.
  intros Ha n sp t'. subst t' n sp. unfold run. cbn [fold_left step].
  rewrite execute_cases, Ha. unfold resume.
  cbn [executions]. rewrite list_lookup_middle by done.
  cbn [status started]. unfold settle, with_executions.
  cbn [abortSignal_aborted activeToolExecutions executions mcp_calls args_edited].
  by rewrite alter_last.
Qed.

Lemma execute_non_interactive_witness :
  let sp := deepSanitizeParams (rename_args gpt search_servers (JObj []))
              (Some (toolSchema search_servers)) None in
  let t' := run gpt start [Execute search_servers 1762150000000 (JObj []) false;
                           Resume 0 (ToolResult (Resolved found))] in
  mcp_calls t' = [(0, name search_servers, sp)]
  /\ executions t' = [started search_servers 1762150000000 (Returned found)]
  /\ args_edited t' = [].
Proof.
  apply (execute_non_interactive gpt search_servers 1762150000000 (JObj []) found start).
  reflexivity.
Defined.

(** X15. [checkToolConfirmation] asks for a confirmation exactly for the
    six tools of its table; for these, and parameters other than [null],
    the request has the type the table gives. *)
Theorem checkToolConfirmation_table toolName params :
  (checkToolConfirmation toolName params = Resolved None
     <-> toolName ∉ confirmation_table.*1)
  /\ forall type_, (toolName, type_) ∈ confirmation_table -> params <> JNull ->
       exists data, checkToolConfirmation toolName params
                    = Resolved (Some {| request_type := type_; request_data := data |}).
Proof.
  unfold checkToolConfirmation, is_named, confirmation_table. cbn [fmap list_fmap fst].
  destruct (str_eqb toolName (lit "install_server")) eqn:E1;
    [apply str_eqb_eq in E1|apply str_eqb_neq in E1];
  (destruct (str_eqb toolName (lit "install_mcp_server")) eqn:E2;
    [apply str_eqb_eq in E2|apply str_eqb_neq in E2]);
  (destruct (str_eqb toolName (lit "uninstall_server")) eqn:E3;
    [apply str_eqb_eq in E3|apply str_eqb_neq in E3]);
  (destruct (str_eqb toolName (lit "uninstall_mcp_server")) eqn:E4;
    [apply str_eqb_eq in E4|apply str_eqb_neq in E4]);
  (destruct (str_eqb toolName (lit "save_playbook")) eqn:E5;
    [apply str_eqb_eq in E5|apply str_eqb_neq in E5]);
  (destruct (str_eqb toolName (lit "submit_feedback")) eqn:E6;
    [apply str_eqb_eq in E6|apply str_eqb_neq in E6]);
  try (exfalso; congruence); cbn [orb].
  all: split;
    [ rewrite !elem_of_cons, elem_of_nil;
      split; [ try (by destruct params); intros _; intuition congruence
             | intros Hn; try done; exfalso; apply Hn; subst; tauto ]
    | intros type_ Hin Hp;
      repeat (apply elem_of_cons in Hin as [Hin|Hin]; [simplify_eq; try congruence|]);
      try (by apply elem_of_nil in Hin);
      destruct params; try done; by eexists ].
Qed.

End LifecycleFacts.

Module InvariantFacts.

Import ToolBuilder.

Import LifecycleFacts.

Lemma moves_same j ex t : executions t !! j = Some ex -> moves j ex t t.
Proof.
  intros H. exists (status ex). rewrite set_status_same. split; [done|]. by left.
Qed.

Lemma moves_settle j ex s t :
  executions t !! j = Some ex -> (forall e, s <> Threw e) -> moves j ex t (settle j s t).
Proof.
  intros H Hs. exists s. rewrite settle_lookup, H. split; [done|]. left.
  split; [done|]. intros e ->. by destruct (Hs e).
Qed.

Lemma moves_catch j ex e t :
  executions t !! j = Some ex -> moves j ex t (catch_block j ex e t).
Proof.
  intros H. destruct (catch_block_spec j ex e t H) as (s' & H1 & _ & _ & _ & H5 & _).
  exists s'. split; [done|]. by right.
Qed.

Lemma moves_dispatch opts j ex p t t0 :
  executions t0 !! j = Some ex -> activeToolExecutions t0 = activeToolExecutions t ->
  moves j ex t (dispatch opts j ex p t0).
Proof.
  intros H Ha. unfold dispatch. destruct (controller_aborted ex).
  - destruct (catch_block_spec j ex cancelled t0 H) as (s' & H1 & _ & _ & _ & H5 & _).
    exists s'. split; [done|]. right. by rewrite H5, Ha.
  - eexists. rewrite settle_lookup. cbn [executions]. rewrite H. split; [done|].
    left. by split.
Qed.

Lemma resume_moves opts j r t ex :
  executions t !! j = Some ex -> moves j ex t (resume opts j r t).
Proof.
  intros H. unfold resume. rewrite H.
  repeat case_match;
    first [ by apply moves_same
          | by apply moves_settle
          | by apply moves_catch
          | by apply moves_dispatch ].
Qed.

Lemma resume_absent opts j r t :
  executions t !! j = None -> resume opts j r t = t.
Proof. intros H. unfold resume. by rewrite H. Qed.

Lemma abort_length t : length (executions (abort t)) = length (executions t).
Proof.
  unfold abort. destruct (abortSignal_aborted t); [done|]. cbn [executions].
  by destruct (abort_loop (activeToolExecutions t) (executions t)) as [-> _].
Qed.

Lemma abort_status t i ex' :
  executions (abort t) !! i = Some ex' ->
  exists ex, executions t !! i = Some ex /\ status ex' = status ex.
Proof.
  intros H. assert (i < length (executions t)) as Hi.
  { rewrite <- abort_length. by eapply lookup_lt_Some. }
  apply lookup_lt_is_Some_2 in Hi as [ex Hex]. exists ex. split; [done|].
  destruct (abort_spec t) as (_ & _ & _ & Hs).
  destruct (Hs i ex Hex) as (ex'' & H1 & H2 & _). congruence.
Qed.

Lemma resumed_threw c s s' e :
  resumed c s s' -> s' = Threw e -> s = Threw e \/ e = cancelled.
Proof.
  intros H ->. destruct s as [|[settled sp|req sp|fp]| |]; simpl in H.
  - by left.
  - destruct H as [?|[[]|[?|[[? ?]|[_ [[? ?]|[? ?]]]]]]]; simplify_eq; by right.
  - destruct H as [?|[[]|[?|[[? ?]|[_ [[? ?]|[? ?]]]]]]]; simplify_eq; by right.
  - destruct H as [?|[?|[? ?]]]; simplify_eq; by right.
  - by left.
  - by left.
Qed.

Lemma step_throws_only_cancellation opts t ev :
  throws_only_cancellation t -> throws_only_cancellation (step opts t ev).
Proof.
  intros Inv. destruct ev as [tl now params interactive|j r|]; cbn [step].
  - rewrite execute_cases. intros i ex e Hi Hs.
    assert (exists s, (executions t ++ [started tl now s]) !! i = Some ex
              /\ (s = Threw stream_cancelled \/ forall e', s <> Threw e')) as (s & Hl & Hcase).
    { destruct (abortSignal_aborted t); [|destruct interactive];
        eexists; (split; [exact Hi|]); [by left|by right|by right]. }
    apply lookup_app_Some in Hl as [Hl|[_ Hl]]; [by eapply Inv|].
    apply list_lookup_singleton_Some in Hl as [_ <-]. cbn [status started] in Hs.
    destruct Hcase as [->|Hn]; [right; congruence|by destruct (Hn e)].
  - intros i ex' e Hi Hs. destruct (decide (i = j)) as [->|Hne].
    + destruct (executions t !! j) as [ex|] eqn:Hj.
      * destruct (resume_self opts j r t ex Hj) as (s' & H1 & H2 & _).
        rewrite H1 in Hi. injection Hi as <-. cbn [status set_status] in Hs.
        destruct (resumed_threw _ _ _ _ H2 Hs) as [Hold|Hc]; [by eapply Inv|by left].
      * rewrite resume_absent in Hi by done. congruence.
    + rewrite resume_other in Hi by done. by eapply Inv.
  - intros i ex' e Hi Hs. destruct (abort_status t i ex' Hi) as (ex & Hex & Heq).
    eapply Inv; [exact Hex|congruence].
Qed.

(** X16. Whatever the host answers and in whatever order, an execution
    throws nothing but "Tool execution cancelled" or "Stream cancelled": a
    failure of the MCP call or of the confirmation never escapes
    [execute] as it is. *)
Theorem execute_throws_only_cancellation (opts : BuildToolsOptions) (evs : list Event) :
  throws_only_cancellation (run opts start evs).
Proof.
  assert (forall t, throws_only_cancellation t ->
            throws_only_cancellation (run opts t evs)) as H.
  { induction evs as [|ev evs IH]; intros t Ht; [done|].
    apply IH. by apply step_throws_only_cancellation. }
  apply H. intros i ex e Hi. cbn in Hi. by rewrite lookup_nil in Hi.
Qed.

Lemma step_registered_live opts t ev :
  registered_live t -> registered_live (step opts t ev).
Proof.
  intros Inv. destruct ev as [tl now params interactive|j r|]; cbn [step].
  - rewrite execute_cases. set (id := name tl ++ lit "-" ++ decimal now).
    assert (forall id' i, activeToolExecutions t !! id' = Some i ->
              forall x, exists ex, (executions t ++ [x]) !! i = Some ex
                /\ toolExecutionId ex = id' /\ forall e, status ex <> Threw e) as Hold.
    { intros id' i H x. destruct (Inv id' i H) as (ex & H1 & H2 & H3).
      exists ex. split; [|done]. apply lookup_app_l_Some. exact H1. }
    assert (forall s, (forall e, s <> Threw e) -> forall id' i,
              <[id := length (executions t)]> (activeToolExecutions t) !! id' = Some i ->
              exists ex, (executions t ++ [started tl now s]) !! i = Some ex
                /\ toolExecutionId ex = id' /\ forall e, status ex <> Threw e) as Hnew.
    { intros s Hs id' i H. apply lookup_insert_Some in H as [[<- <-]|[_ H]].
      - eexists. split; [by apply list_lookup_middle|]. by split.
      - by apply Hold. }
    destruct (abortSignal_aborted t); [|destruct interactive].
    + intros id' i H. cbn [activeToolExecutions executions] in *.
      apply lookup_delete_Some in H as [Hne H].
      rewrite lookup_insert_ne in H by done. by apply Hold.
    + intros id' i H. cbn [activeToolExecutions executions] in *. by apply Hnew.
    + intros id' i H. cbn [activeToolExecutions executions] in *. by apply Hnew.
  - destruct (executions t !! j) as [ex|] eqn:Hj; [|by rewrite resume_absent].
    destruct (resume_moves opts j r t ex Hj) as (s' & H1 & [[Hm Hs]|Hm]);
      intros id i H; rewrite Hm in H.
    + destruct (Inv id i H) as (exi & Hi & Hid & Hlive).
      destruct (decide (i = j)) as [->|Hne].
      * eexists. split; [exact H1|]. rewrite Hj in Hi. injection Hi as <-.
        split; [done|]. intros e He. cbn [status set_status] in He.
        by destruct (Hlive e (Hs e He)).
      * exists exi. by rewrite resume_other.
    + apply lookup_delete_Some in H as [Hne H].
      destruct (Inv id i H) as (exi & Hi & Hid & Hlive).
      exists exi. split; [|done]. rewrite resume_other; [done|].
      intros ->. rewrite Hj in Hi. injection Hi as <-. congruence.
  - unfold abort. destruct (abortSignal_aborted t); [done|].
    intros id i H. cbn [activeToolExecutions] in H. by rewrite lookup_empty in H.
Qed.

(** X17. Throughout a turn every entry of [activeToolExecutions] belongs
    to an execution with that id which has not thrown: an execution that
    throws always takes its entry out first. *)
Theorem thrown_execution_unregistered (opts : BuildToolsOptions) (evs : list Event) :
  registered_live (run opts start evs).
Proof.
  assert (forall t, registered_live t -> registered_live (run opts t evs)) as H.
  { induction evs as [|ev evs IH]; intros t Ht; [done|].
    apply IH. by apply step_registered_live. }
  apply H. intros id i Hi. cbn in Hi. by rewrite lookup_empty in Hi.
Qed.

End InvariantFacts.

Module CancellationFacts.

Import ToolBuilder.

Import LifecycleFacts InvariantFacts.

Section after_abort.
Variable opts : BuildToolsOptions.
Variable i : nat.

Lemma step_closed cs t ev : closed i cs t -> closed i cs (step opts t ev).
Proof.
  intros (Ha & Hm & Hc & Hs). destruct ev as [tl now params interactive|j r|]; cbn [step].
  - rewrite execute_cases, Ha. split; [done|]. split; [|split; [done|]].
    + cbn [activeToolExecutions]. rewrite Hm. apply map_empty. intros id.
      destruct (decide (id = name tl ++ lit "-" ++ decimal now)) as [->|Hne].
      * apply lookup_delete_eq.
      * by rewrite lookup_delete_ne, lookup_insert_ne.
    + cbn [executions]. intros ex [H|[_ H]]%lookup_app_Some; [by apply Hs|].
      by apply list_lookup_singleton_Some in H as [_ <-].
  - destruct (executions t !! j) as [exj|] eqn:Hj; [|by rewrite resume_absent].
    destruct (resume_self opts j r t exj Hj) as (s' & H1 & _ & H3 & _).
    split; [by rewrite H3|]. split.
    { destruct (resume_moves opts j r t exj Hj) as (_ & _ & [[-> _]| ->]); [done|].
      rewrite Hm. apply delete_empty. }
    destruct (decide (i = j)) as [<-|Hne].
    + assert (match status exj with Returned _ | Threw _ => True | _ => False end) as Hfin.
      { by rewrite (Hs exj Hj). }
      destruct (step_finished opts i t (Resume i r) exj Hj Hfin) as (ex' & E1 & E2 & E3).
      cbn [step] in E1, E3. split; [congruence|].
      intros ex Hex. rewrite E1 in Hex. injection Hex as <-. rewrite E2. by apply Hs.
    + rewrite resume_calls_other by done. split; [done|].
      intros ex. rewrite resume_other by done. apply Hs.
  - unfold abort. by rewrite Ha.
Qed.

Lemma run_closed cs evs : forall t, closed i cs t -> closed i cs (run opts t evs).
Proof.
  induction evs as [|ev evs IH]; intros t Ht; [done|].
  apply IH. by apply step_closed.
Qed.

End after_abort.

(** X18. Once the turn is aborted and its map cleared, the map stays
    empty; an execution started from then on throws "Stream cancelled"
    and no MCP call is ever made for it. *)
Theorem aborted_turn_starts_nothing (opts : BuildToolsOptions) (t : Turn)
    (evs : list Event) (i : nat) :
  abortSignal_aborted t = true ->
  activeToolExecutions t = ∅ ->
  length (executions t) <= i ->
  let t' := run opts t evs in
  activeToolExecutions t' = ∅
  /\ calls_of i t' = calls_of i t
  /\ forall ex, executions t' !! i = Some ex -> status ex = Threw stream_cancelled.
Proof.
  intros Ha Hm Hi t'.
  destruct (run_closed opts i (calls_of i t) evs t) as (_ & H1 & H2 & H3); [|done].
  split; [done|]. split; [done|]. split; [done|].
  intros ex Hex. apply lookup_lt_Some in Hex. lia.
Qed.

Lemma aborted_turn_starts_nothing_witness :
  let t := abort start in
  let t' := run gpt t [Execute search_servers 1762150000000 (JObj []) false;
                       Resume 0 (ToolResult (Resolved found))] in
  activeToolExecutions t' = ∅
  /\ calls_of 0 t' = calls_of 0 t
  /\ forall ex, executions t' !! 0 = Some ex -> status ex = Threw stream_cancelled.
Proof.
  apply (aborted_turn_starts_nothing gpt (abort start)
           [Execute search_servers 1762150000000 (JObj []) false;
            Resume 0 (ToolResult (Resolved found))] 0).
  - reflexivity.
  - reflexivity.
  - apply Nat.eq_le_incl. reflexivity.
Defined.

(** X19. When the user allows the operation with an edited config, the
    MCP call goes out with a copy of the sanitised parameters; the config
    is put into it only for a request of type "install". [onArgsEdited],
    when given, is called once with the same parameters. *)
Theorem edited_config_only_for_install (opts : BuildToolsOptions) (i : nat)
    (ex : Execution) (req : ConfirmationRequest) (sp : json)
    (result : ConfirmationResult) (cfg : json) (t : Turn) :
  executions t !! i = Some ex ->
  status ex = Suspended (AwaitRequestConfirmation req sp) ->
  controller_aborted ex = false ->
  allowed result = true ->
  editedConfig result = Some cfg ->
  truthy cfg = true ->
  let t' := resume opts i (Confirmation (Resolved result)) t in
  exists es,
    mcp_calls t' = mcp_calls t ++ [(i, name (tool ex), JObj es)]
    /\ args_edited t' =
         (if onArgsEdited opts
          then args_edited t ++ [(name (tool ex), JObj es,
                                  bool_decide (wasEdited result = Some true))]
          else args_edited t)
    /\ (request_type req = lit "install" ->
          obj_get es (lit "config") = Some cfg
          /\ forall k, k <> lit "config" -> obj_get es k = obj_get (spread sp) k)
    /\ (request_type req <> lit "install" -> es = spread sp).
Proof.
  intros H Hs Hc Hallowed Hcfg Htruthy t'. subst t'.
  unfold resume. rewrite H, Hs, Hallowed, Hcfg, Htruthy. cbn [negb].
  unfold dispatch. rewrite Hc.
  destruct (str_eqb (request_type req) (lit "install")) eqn:E;
    [apply str_eqb_eq in E|apply str_eqb_neq in E];
    eexists; destruct (onArgsEdited opts); cbn [mcp_calls args_edited settle with_executions];
    (split; [done|split; [done|split]]); try done.
  all: intros _; split; [apply obj_get_set_eq|intros k Hk; by rewrite obj_get_set_ne].
Qed.

Lemma edited_config_only_for_install_witness :
  let result := {| allowed := true; reason := None;
                   editedConfig := Some (JObj [(lit "port", JNum (lit "8080"))]);
                   wasEdited := Some true |} in
  let t := run gpt start awaiting_confirmation in
  let t' := resume gpt 0 (Confirmation (Resolved result)) t in
  exists ex req sp es,
    executions t !! 0 = Some ex
    /\ status ex = Suspended (AwaitRequestConfirmation req sp)
    /\ mcp_calls t' = mcp_calls t ++ [(0, name (tool ex), JObj es)]
    /\ args_edited t' =
         (if onArgsEdited gpt
          then args_edited t ++ [(name (tool ex), JObj es,
                                  bool_decide (wasEdited result = Some true))]
          else args_edited t)
    /\ (request_type req = lit "install" ->
          obj_get es (lit "config") = Some (JObj [(lit "port", JNum (lit "8080"))])
          /\ forall k, k <> lit "config" -> obj_get es k = obj_get (spread sp) k)
    /\ (request_type req <> lit "install" -> es = spread sp).
Proof.
  intros result t t'.
  destruct (run gpt start awaiting_confirmation) as [a m l c ae] eqn:Et.
  vm_compute in Et. injection Et as <- <- <- <- <-.
  eexists _, _, _.
  destruct (edited_config_only_for_install gpt 0 _ _ _ result
              (JObj [(lit "port", JNum (lit "8080"))]) t
              eq_refl eq_refl eq_refl eq_refl eq_refl eq_refl) as (es & H).
  exists es. split; [reflexivity|]. split; [reflexivity|]. exact H.
Defined.

End CancellationFacts.

Module CollisionFacts.

Import ToolBuilder.

Import EntryFacts LifecycleFacts InvariantFacts.

(** The listener leaves alone an execution no entry of the map names. *)
Lemma abort_loop_untouched (m : gmap jsstring nat) (l : list Execution) (i : nat) :
  (forall id, m !! id <> Some i) ->
  map_fold (fun _ controller l => alter set_aborted controller l) l m !! i = l !! i.
Proof.
  apply (map_fold_weak_ind
           (fun r m => (forall id, m !! id <> Some i) -> r !! i = l !! i)).
  - done.
  - intros k c m' r Hk IH Hm.
    assert (c <> i) as Hne.
    { intros ->. by apply (Hm k), lookup_insert_eq. }
    rewrite list_lookup_alter_ne by done. apply IH. intros id Hid.
    apply (Hm id). destruct (decide (k = id)) as [->|Hkid]; [congruence|].
    by rewrite lookup_insert_ne.
Qed.

(** X20. Two executions of one tool started in the same millisecond get
    the same id, and the second takes the map entry of the first. An abort
    then reaches only the second controller: the first execution, still
    before its MCP call, goes on and makes the call on the aborted turn. *)
Theorem colliding_ids_lose_cancellation (opts : BuildToolsOptions) (tl : Tool)
    (now : N) (p1 p2 : json) (t : Turn) :
  abortSignal_aborted t = false ->
  (forall id j, activeToolExecutions t !! id = Some j -> j < length (executions t)) ->
  let n := length (executions t) in
  let sp := deepSanitizeParams (rename_args opts tl p1) (Some (toolSchema tl)) None in
  checkToolConfirmation (name tl) sp = Resolved None ->
  let t' := run opts t [Execute tl now p1 true; Execute tl now p2 true; Abort;
                        Resume n Continue] in
  abortSignal_aborted t' = true
  /\ mcp_calls t' = mcp_calls t ++ [(n, name tl, sp)].
Proof.
  intros Ha Hreg n sp Hcheck t'. subst t' n. unfold run. cbn [fold_left step].
  rewrite (execute_cases opts tl now p1 true t), Ha.
  rewrite execute_cases. cbn [abortSignal_aborted activeToolExecutions executions
                              mcp_calls args_edited].
  fold sp. rewrite Hcheck.
  set (id := name tl ++ lit "-" ++ decimal now).
  set (e1 := started tl now (Suspended (AwaitCheckToolConfirmation (Resolved None) sp))).
  set (e2 := started tl now _).
  unfold abort. cbn [abortSignal_aborted activeToolExecutions executions
                     mcp_calls args_edited].
  set (m := <[id := length (executions t ++ [e1])]> _).
  set (l := map_fold _ _ m).
  assert (l !! length (executions t) = Some e1) as Hl.
  { subst l. rewrite abort_loop_untouched.
    - rewrite lookup_app_l by (rewrite length_app; simpl; lia).
      by apply list_lookup_middle.
    - intros k Hk. subst m. apply lookup_insert_Some in Hk as [[_ Hk]|[Hne Hk]].
      + rewrite length_app in Hk. simpl in Hk. lia.
      + apply lookup_insert_Some in Hk as [[Heq _]|[_ Hk]]; [done|].
        apply Hreg in Hk. lia. }
  unfold resume. cbn [executions]. rewrite Hl. cbn [status e1 started].
  unfold dispatch. cbn [controller_aborted e1 started].
  by split.
Qed.

Lemma colliding_ids_lose_cancellation_witness :
  let sp := deepSanitizeParams (rename_args gpt search_servers (JObj []))
              (Some (toolSchema search_servers)) None in
  let t' := run gpt start [Execute search_servers 1762150000000 (JObj []) true;
                           Execute search_servers 1762150000000 (JObj []) true; Abort;
                           Resume 0 Continue] in
  abortSignal_aborted t' = true
  /\ mcp_calls t' = [(0, name search_servers, sp)].
Proof.
  apply (colliding_ids_lose_cancellation gpt search_servers 1762150000000
           (JObj []) (JObj []) start).
  - reflexivity.
  - intros id j H. simpl in H. by rewrite lookup_empty in H.
  - reflexivity.
Defined.

(** X21. The ChatGPT workaround of [execute]: for [call_tool] under a
    ChatGPT model, parameters with a truthy [args] and no truthy
    [arguments] get [args] renamed to [arguments], every other field
    staying as it is; for any other tool or model the parameters are not
    touched. *)
Theorem rename_args_moves_args (opts : BuildToolsOptions) (tl : Tool) :
  (forall es a,
     name tl = lit "call_tool" ->
     isChatGPTModel (modelId opts) = true ->
     obj_get es (lit "args") = Some a ->
     truthy a = true ->
     opt_truthy (obj_get es (lit "arguments")) = false ->
     exists es', rename_args opts tl (JObj es) = JObj es'
       /\ obj_get es' (lit "arguments") = Some a
       /\ obj_get es' (lit "args") = None
       /\ forall k, k <> lit "args" -> k <> lit "arguments" ->
            obj_get es' k = obj_get es k)
  /\ forall params,
       name tl <> lit "call_tool" \/ isChatGPTModel (modelId opts) = false ->
       rename_args opts tl params = params.
Proof.
  split.
  - intros es a Hn Hm Ha Ht Hnone. unfold rename_args.
    rewrite Hn, str_eqb_refl, Hm. cbn [opt_get andb].
    rewrite !js_read_obj, Ha. cbn [opt_truthy]. rewrite Ht, Hnone. cbn [negb andb].
    eexists. split; [done|]. split; [apply obj_get_set_eq|]. split.
    + rewrite obj_get_set_ne by done. apply obj_get_del_eq.
    + intros k H1 H2. rewrite obj_get_set_ne by done. by rewrite obj_get_del_ne.
  - intros params [Hn|Hm]; unfold rename_args.
    + by apply str_eqb_neq in Hn as ->.
    + rewrite Hm. by rewrite andb_false_r.
Qed.

Lemma rename_args_moves_args_witness :
  let call_tool := {| name := lit "call_tool"; inputSchema := None |} in
  let es := [(lit "tool_name", JStr (lit "search"));
             (lit "args", JObj [(lit "q", JStr (lit "cats"))])] in
  exists es', rename_args gpt call_tool (JObj es) = JObj es'
    /\ obj_get es' (lit "arguments") = Some (JObj [(lit "q", JStr (lit "cats"))])
    /\ obj_get es' (lit "args") = None
    /\ forall k, k <> lit "args" -> k <> lit "arguments" ->
         obj_get es' k = obj_get es k.
Proof.
  intros call_tool es.
  apply (proj1 (rename_args_moves_args gpt call_tool) es
           (JObj [(lit "q", JStr (lit "cats"))])); reflexivity.
Defined.

End CollisionFacts.

Module RefFacts.

Import EntryFacts.

Lemma ref_name_nonempty ref defName : ref_name ref = Some defName -> ref <> [].
Proof. by intros H ->. Qed.

Lemma same_entries (l : list (jsstring * json)) :
  map (fun kv => (kv.1, if defs_key kv.1 then kv.2 else kv.2)) l = l.
Proof.
  induction l as [|[k v] l IH]; simpl; [done|]. rewrite IH. by destruct (defs_key k).
Qed.

Lemma sublist_sum {A} (f : A -> nat) (l1 l2 : list A) :
  sublist l1 l2 -> list_sum (map f l1) <= list_sum (map f l2).
Proof. induction 1; simpl; lia. Qed.

Lemma sublist_forallb {A} (f : A -> bool) (l1 l2 : list A) :
  sublist l1 l2 -> forallb f l2 = true -> forallb f l1 = true.
Proof.
  intros Hs. rewrite !forallb_forall. intros H x Hx%list_elem_of_In.
  apply H, list_elem_of_In. by eapply elem_of_sublist.
Qed.

Section facts.
Variable inherited : json -> jsstring -> bool.

Lemma resolve_entries_mono (f g : json -> option json -> option json) :
  (forall s d r, f s d = Some r -> g s d = Some r) ->
  forall defs l acc r,
    resolve_entries f defs l acc = Some r -> resolve_entries g defs l acc = Some r.
Proof.
  intros H defs l. induction l as [|[k v] l IH]; intros acc r; simpl; [done|].
  destruct (_ || _); [apply IH|].
  intros (x & Hx & Hr)%bind_Some. rewrite (H _ _ _ Hx). simpl. by apply IH.
Qed.

Lemma resolve_body_mono (f g : json -> option json -> option json) :
  (forall s d r, f s d = Some r -> g s d = Some r) ->
  forall s d r,
    resolve_body inherited f s d = Some r -> resolve_body inherited g s d = Some r.
Proof.
  intros H s d r. unfold resolve_body.
  destruct s as [| | | |items|entries|proto entries]; try done.
  - intros (l & Hl & ->)%fmap_Some. apply mapM_Some_1 in Hl.
    rewrite (mapM_Some_2 _ items l); [done|].
    eapply Forall2_impl; [exact Hl|]. intros x y. apply H.
  - intros Hr.
    repeat case_match; try done;
      first [ by apply (resolve_entries_mono f g H)
            | apply bind_Some in Hr as (x & Hx & Hr); by rewrite (H _ _ _ Hx) ].
  - intros Hr.
    repeat case_match; try done;
      first [ by apply (resolve_entries_mono f g H)
            | apply bind_Some in Hr as (x & Hx & Hr); by rewrite (H _ _ _ Hx) ].
Qed.

(** A larger bound changes nothing of a call that returned. *)
Lemma resolveSchemaRefs_mono fuel : forall s d r,
  resolveSchemaRefs inherited fuel s d = Some r ->
  resolveSchemaRefs inherited (S fuel) s d = Some r.
Proof.
  induction fuel as [|fuel IH]; [done|]. intros s d r.
  change (resolve_body inherited (resolveSchemaRefs inherited fuel) s d = Some r ->
          resolve_body inherited (resolveSchemaRefs inherited (S fuel)) s d = Some r).
  apply resolve_body_mono, IH.
Qed.

Lemma resolveSchemaRefs_le fuel fuel' s d r :
  fuel <= fuel' ->
  resolveSchemaRefs inherited fuel s d = Some r ->
  resolveSchemaRefs inherited fuel' s d = Some r.
Proof.
  induction 1 as [|fuel' _ IH]; [done|]. intros H. by apply resolveSchemaRefs_mono, IH.
Qed.

(** The loop on entries of distinct names, none called [__proto__],
    each value going to [h]. *)
Lemma resolve_entries_map (f : json -> option json -> option json) defs
    (h : json -> json) l : forall acc,
  NoDup (acc.*1 ++ l.*1) ->
  proto_key ∉ l.*1 ->
  Forall (fun kv => defs_key kv.1 = false -> f kv.2 defs = Some (h kv.2)) l ->
  resolve_entries f defs l (JObj acc)
    = Some (JObj (acc ++ map (fun kv => (kv.1, if defs_key kv.1 then kv.2 else h kv.2)) l)).
Proof.
  induction l as [|[k v] l IH]; intros acc Hnd Hproto HF.
  { simpl. by rewrite app_nil_r. }
  cbn [resolve_entries map fst snd].
  apply Forall_cons in HF as [Hkv HF]. simpl in Hnd, Hkv.
  apply not_elem_of_cons in Hproto as [Hne Hproto].
  assert (k ∉ acc.*1) as Hk.
  { apply NoDup_app in Hnd as (_ & Hd & _). intros Hin. apply (Hd k Hin). by left. }
  assert (NoDup ((acc ++ [(k, v)]).*1 ++ l.*1)) as Hnd1.
  { rewrite fmap_app. simpl. by rewrite <- app_assoc. }
  assert (forall v', NoDup ((acc ++ [(k, v')]).*1 ++ l.*1)) as Hnd2.
  { intros v'. rewrite fmap_app in *. simpl in *. by rewrite <- app_assoc in *. }
  change (str_eqb k (lit "$defs") || str_eqb k (lit "definitions")) with (defs_key k).
  destruct (defs_key k).
  - rewrite assign_own by done. rewrite obj_set_fresh by done.
    rewrite IH by done. by rewrite <- app_assoc.
  - rewrite Hkv by done. cbn [mbind option_bind]. rewrite assign_own by done.
    rewrite obj_set_fresh by done. rewrite IH by done. by rewrite <- app_assoc.
Qed.

Lemma found_defs_read entries defs :
  (if negb (opt_truthy defs) && opt_truthy (js_read (JObj entries) (lit "$defs"))
   then js_read (JObj entries) (lit "$defs") else defs)
  = found_defs entries defs.
Proof. unfold found_defs. by rewrite js_read_obj. Qed.

Lemma resolve_body_not_ref f entries defs :
  is_ref entries = false ->
  resolve_body inherited f (JObj entries) defs
    = resolve_entries f (found_defs entries defs) entries (JObj []).
Proof.
  unfold is_ref, resolve_body. rewrite found_defs_read, js_read_obj.
  destruct (obj_get entries (lit "$ref")) as [[| | |ref| | |]|]; try done.
  by destruct (bool_decide (ref = [])).
Qed.

Lemma unique_keys_entries entries kv :
  unique_keys (JObj entries) = true -> kv ∈ entries -> unique_keys kv.2 = true.
Proof.
  intros [_ H]%GeminiFacts.unique_keys_obj Hkv. rewrite Forall_forall in H. by apply H.
Qed.

Lemma unique_keys_items items x :
  unique_keys (JArr items) = true -> x ∈ items -> unique_keys x = true.
Proof.
  simpl. rewrite forallb_forall. intros H Hx. by apply H, list_elem_of_In.
Qed.

Lemma proto_free_items items x :
  proto_free (JArr items) = true -> x ∈ items -> proto_free x = true.
Proof.
  simpl. rewrite forallb_forall. intros H Hx. by apply H, list_elem_of_In.
Qed.

Lemma resolve_unchanged (fuel : nat) : forall (schema : json) (defs : option json),
  unique_keys schema = true ->
  proto_free schema = true ->
  ref_free schema = true ->
  jsize schema <= fuel ->
  resolveSchemaRefs inherited fuel schema defs = Some schema.
Proof.
  induction fuel as [|fuel IH]; intros schema defs Hu Hp Hr Hs.
  { pose proof (jsize_pos schema). lia. }
  change (resolve_body inherited (resolveSchemaRefs inherited fuel) schema defs = Some schema).
  destruct schema as [| | | |items|entries|proto entries]; try done.
  - unfold resolve_body. rewrite (mapM_Some_2 _ items items); [done|].
    apply Forall_Forall2_diag, Forall_forall. intros x Hx. apply IH.
    + by eapply unique_keys_items.
    + by eapply proto_free_items.
    + simpl in Hr. rewrite forallb_forall in Hr. by apply Hr, list_elem_of_In.
    + pose proof (jsize_item items x Hx). simpl in Hs. lia.
  - simpl in Hr. apply andb_prop in Hr as [Hn Hr]. apply negb_true_iff in Hn.
    apply proto_free_obj in Hp as [Hproto Hp]. rewrite Forall_forall in Hp.
    rewrite resolve_body_not_ref by done.
    rewrite (resolve_entries_map _ _ (fun v => v)).
    + simpl. by rewrite same_entries.
    + simpl. by apply GeminiFacts.unique_keys_obj in Hu as [? _].
    + done.
    + apply Forall_forall. intros kv Hkv Hd. apply IH.
      * by eapply unique_keys_entries.
      * by apply Hp.
      * rewrite forallb_forall in Hr. apply list_elem_of_In, Hr in Hkv.
        by rewrite Hd in Hkv.
      * pose proof (jsize_entry entries kv Hkv). unfold entries_size in *.
        simpl in Hs. lia.
Qed.

(** X22. A schema without references and without an entry called
    [__proto__] is returned as it is, whatever definitions are in
    reach. *)
Theorem resolveSchemaRefs_ref_free (fuel : nat) (schema : json) (defs : option json) :
  unique_keys schema = true ->
  proto_free schema = true ->
  ref_free schema = true ->
  jsize schema <= fuel ->
  resolveSchemaRefs inherited fuel schema defs = Some schema.
Proof. apply resolve_unchanged. Qed.

(** An entry called [__proto__] does not come back: its value is made
    the prototype of the object returned. *)
Lemma resolveSchemaRefs_drops_proto_entry :
  resolveSchemaRefs inherited 3 with_proto_entry None
  = Some (JProto (JObj [(lit "a", JNum (lit "1"))]) []).
Proof. reflexivity. Qed.

(** X23. Definitions are only ever taken from [$defs]. In a schema
    without an entry called [__proto__], no object of which has a truthy
    [$defs], every reference is replaced by the empty schema, also a
    reference into [definitions] that the schema does define. *)
Theorem resolveSchemaRefs_without_defs (fuel : nat) : forall (schema : json),
  unique_keys schema = true ->
  proto_free schema = true ->
  no_defs schema = true ->
  jsize schema <= fuel ->
  resolveSchemaRefs inherited fuel schema None = Some (drop_refs schema).
Proof.
  induction fuel as [|fuel IH]; intros schema Hu Hp Hd Hs.
  { pose proof (jsize_pos schema). lia. }
  change (resolve_body inherited (resolveSchemaRefs inherited fuel) schema None
          = Some (drop_refs schema)).
  destruct schema as [| | | |items|entries|proto entries]; try done.
  - unfold resolve_body. cbn [drop_refs].
    rewrite (mapM_Some_2 _ items (map drop_refs items)); [done|].
    apply Forall2_fmap_r, Forall_Forall2_diag, Forall_forall. intros x Hx. apply IH.
    + by eapply unique_keys_items.
    + by eapply proto_free_items.
    + simpl in Hd. rewrite forallb_forall in Hd. by apply Hd, list_elem_of_In.
    + pose proof (jsize_item items x Hx). simpl in Hs. lia.
  - simpl in Hd. apply andb_prop in Hd as [Hn Hd]. apply negb_true_iff in Hn.
    apply proto_free_obj in Hp as [Hproto Hp]. rewrite Forall_forall in Hp.
    cbn [drop_refs]. destruct (is_ref entries) eqn:Er.
    + unfold resolve_body, is_ref in *. rewrite !js_read_obj, Hn.
      cbn [opt_truthy negb andb].
      destruct (obj_get entries (lit "$ref")) as [[| | |ref| | |]|]; try done.
      destruct (bool_decide (ref = [])); [done|]. by destruct (ref_name ref).
    + rewrite resolve_body_not_ref by done. unfold found_defs. rewrite Hn.
      cbn [opt_truthy negb andb].
      rewrite (resolve_entries_map _ _ drop_refs); [done| |done|].
      * simpl. by apply GeminiFacts.unique_keys_obj in Hu as [? _].
      * apply Forall_forall. intros kv Hkv Hk. apply IH.
        -- by eapply unique_keys_entries.
        -- by apply Hp.
        -- rewrite forallb_forall in Hd. apply list_elem_of_In, Hd in Hkv.
           by rewrite Hk in Hkv.
        -- pose proof (jsize_entry entries kv Hkv). unfold entries_size in *.
           simpl in Hs. lia.
Qed.


(** X25. A definition that refers to itself is never resolved: no bound
    on the depth of the calls is enough for [resolveSchemaRefs] to
    return. *)
Theorem self_reference_never_returns (fuel : nat) (d : json)
    (entries : list (jsstring * json)) (ref defName : jsstring) :
  truthy d = true ->
  js_get d defName = Some (JObj entries) ->
  obj_get entries (lit "$ref") = Some (JStr ref) ->
  ref_name ref = Some defName ->
  resolveSchemaRefs inherited fuel (JObj entries) (Some d) = None.
Proof.
  intros Hd Hget Href Hname. induction fuel as [|fuel IH]; [done|].
  change (resolve_body inherited (resolveSchemaRefs inherited fuel) (JObj entries) (Some d)
          = None).
  unfold resolve_body. cbn [opt_truthy]. rewrite Hd. cbn [negb andb].
  rewrite js_read_obj, Href.
  rewrite bool_decide_eq_false_2 by (by eapply ref_name_nonempty).
  rewrite Hname, Hd. unfold member. rewrite (js_get_read _ _ _ Hget). cbn [truthy].
  by rewrite IH.
Qed.

End facts.

End RefFacts.

Module CleanFacts.

Import EntryFacts RefFacts.

Lemma resolveSchemaRefs_ref_free_witness :
  resolveSchemaRefs no_prototype 100 mixed_schema (Some voice_defs) = Some mixed_schema.
Proof.
  apply (resolveSchemaRefs_ref_free no_prototype 100 mixed_schema (Some voice_defs)).
  - vm_compute. reflexivity.
  - vm_compute. reflexivity.
  - vm_compute. reflexivity.
  - apply Nat.leb_le. vm_compute. reflexivity.
Defined.

Lemma resolveSchemaRefs_without_defs_witness :
  resolveSchemaRefs no_prototype 100 draft7 None = Some (drop_refs draft7).
Proof.
  apply (resolveSchemaRefs_without_defs no_prototype 100 draft7).
  - vm_compute. reflexivity.
  - vm_compute. reflexivity.
  - vm_compute. reflexivity.
  - apply Nat.leb_le. vm_compute. reflexivity.
Defined.


Lemma self_reference_never_returns_witness :
  resolveSchemaRefs no_prototype 1000
    (JObj [(lit "$ref", JStr (lit "#/$defs/Node"))]) (Some node_defs) = None.
Proof.
  apply (self_reference_never_returns no_prototype 1000 node_defs
           [(lit "$ref", JStr (lit "#/$defs/Node"))] (lit "#/$defs/Node") (lit "Node")).
  - reflexivity.
  - vm_compute. reflexivity.
  - vm_compute. reflexivity.
  - vm_compute. reflexivity.
Defined.

Lemma js_get_defs_key v k :
  defs_key k = true -> ~ is_record v -> js_get v k = None.
Proof.
  intros Hk Hv. unfold defs_key in Hk.
  apply orb_prop in Hk as [->%str_eqb_eq| ->%str_eqb_eq];
    destruct v as [| | |s|l|es|p es]; try done; by destruct Hv.
Qed.

Lemma defs_key_properties k : defs_key k = true -> k <> lit "properties".
Proof.
  unfold defs_key. intros [->%str_eqb_eq| ->%str_eqb_eq]%orb_prop H;
    vm_compute in H; discriminate H.
Qed.

Lemma sanitize_keeps_absent v out k :
  defs_key k = true ->
  sanitizeSchemaForGemini v = Some out ->
  k ∉ (own_entries v).*1 ->
  js_get out k = None.
Proof.
  intros Hk Hs Hobj.
  assert (forall ts es, gemini_loop sanitizeSchemaForGemini ts es (JObj []) ≫=
                          (fun result => Some (ensure_properties result)) = Some out ->
                        k ∉ es.*1 -> js_get out k = None) as Hrecord.
  { intros ts es Hes Hin.
    apply bind_Some in Hes as (result & Hloop & [= <-]).
    apply GeminiFacts.gemini_loop_get_other with (k := k) in Hloop; [|done].
    rewrite GeminiFacts.ensure_properties_get by (by apply defs_key_properties).
    by rewrite Hloop. }
  destruct v as [| | |s|l|es|p es]; simpl in Hs.
  1-4: injection Hs as <-; apply js_get_defs_key; [done|by intros []].
  - apply fmap_Some in Hs as (l' & _ & ->). apply js_get_defs_key; [done|by intros []].
  - by eapply (Hrecord _ es).
  - by eapply (Hrecord _ es).
Qed.

Section clean.
Variable inherited : json -> jsstring -> bool.

(** X26. What [cleanToolSchema] returns has no [$defs] and no
    [definitions] of its own, for a restricted provider or not. *)
Theorem cleanToolSchema_drops_definitions (fuel : nat) (schema : option json)
    (isGemini : bool) (out : json) :
  cleanToolSchema inherited fuel schema isGemini = Cleaned out ->
  js_get out (lit "$defs") = None /\ js_get out (lit "definitions") = None.
Proof.
  unfold cleanToolSchema. destruct (negb (opt_truthy schema)).
  { by intros [= <-]. }
  destruct (resolveSchemaRefs _ _ _ _) as [resolved|]; [|done].
  set (r := delete_key (delete_key resolved (lit "$defs")) (lit "definitions")).
  assert (js_get r (lit "$defs") = None /\ js_get r (lit "definitions") = None
          /\ (lit "$defs" ∉ (own_entries r).*1)
          /\ (lit "definitions" ∉ (own_entries r).*1))
    as (H1 & H2 & H3 & H4).
  { assert (forall es,
      lit "$defs" ∉ (obj_del (obj_del es (lit "$defs")) (lit "definitions")).*1) as Ha.
    { intros es Hin. apply (obj_del_absent es (lit "$defs")).
      eapply elem_of_sublist; [exact Hin|]. apply fmap_sublist, obj_del_sublist. }
    assert (forall es,
      lit "definitions" ∉ (obj_del (obj_del es (lit "$defs")) (lit "definitions")).*1) as Hb.
    { intros es. apply obj_del_absent. }
    subst r.
    destruct resolved as [| | | | |es|p es];
      try (by repeat split; try done; apply not_elem_of_nil); simpl.
    - split; [by apply GeminiFacts.obj_get_None|].
      by split; [by apply GeminiFacts.obj_get_None|].
    - split; [by apply GeminiFacts.obj_get_None|].
      by split; [by apply GeminiFacts.obj_get_None|]. }
  destruct isGemini; [|by intros [= <-]].
  destruct (sanitizeSchemaForGemini r) as [o|] eqn:Hs; [|done]. intros [= <-].
  split; (eapply sanitize_keeps_absent; [|exact Hs|]); done.
Qed.

End clean.

Lemma cleanToolSchema_drops_definitions_witness :
  exists out,
    cleanToolSchema no_prototype 100 (Some draft2020) true = Cleaned out
    /\ js_get out (lit "$defs") = None /\ js_get out (lit "definitions") = None.
Proof.
  eexists. split; [vm_compute; reflexivity|].
  apply (cleanToolSchema_drops_definitions no_prototype 100 (Some draft2020) true).
  vm_compute. reflexivity.
Defined.

End CleanFacts.

Module ParameterFacts.

Import EntryFacts RefFacts.

Section loops.
Variable f : json -> option json.

(** The loop over a [properties] map keeps the names other than
    [__proto__], in their order, each with the value [f] gives for it. *)
Lemma sanitize_properties_names ps : forall acc out,
  sanitize_properties f ps acc = Some out ->
  is_record acc ->
  NoDup ((own_entries acc).*1 ++ ps.*1) ->
  (proto_key ∈ ps.*1 -> exists A, acc = JObj A /\ (proto_key ∉ A.*1)) ->
  is_record out
  /\ exists ps', own_entries out = own_entries acc ++ ps'
       /\ Forall2 (fun p p' => p'.1 = p.1 /\ f p.2 = Some p'.2) (own_part ps) ps'.
Proof.
  induction ps as [|[k v] ps IH]; intros acc out.
  { intros [= <-] Hrec _ _. split; [done|]. exists []. by rewrite app_nil_r. }
  cbn [sanitize_properties].
  intros (v' & Hv & Hloop)%bind_Some Hrec Hnd Hproto.
  simpl in Hnd. apply NoDup_app in Hnd as (Ha & Hdisj & Hes).
  apply NoDup_cons in Hes as [Hk Hes].
  assert (k ∉ (own_entries acc).*1) as Hfresh.
  { intros Hin. apply (Hdisj _ Hin). by left. }
  destruct (decide (k = proto_key)) as [->|Hne].
  - destruct Hproto as (A & -> & HA); [by left|].
    destruct (assign_proto A v' HA) as [Hown Hr].
    apply IH in Hloop as (Hout & ps' & Hps & HF); [|done| |done].
    + split; [done|]. exists ps'. rewrite Hps, Hown. split; [done|].
      unfold own_part. by rewrite filter_cons_False by (by intros H; apply H).
    + rewrite Hown. apply NoDup_app. repeat split; [done| |done].
      intros x Hx Hx'. apply (Hdisj x Hx). by right.
  - rewrite assign_own in Hloop by done.
    assert (own_entries (match acc with
                         | JObj es0 => JObj (obj_set es0 k v')
                         | JProto p es0 => JProto p (obj_set es0 k v')
                         | _ => acc
                         end) = own_entries acc ++ [(k, v')]) as Hstep.
    { destruct acc; try done; simpl in *; by rewrite obj_set_fresh. }
    apply IH in Hloop as (Hout & ps' & Hps & HF).
    + split; [done|]. exists ((k, v') :: ps'). rewrite Hps, Hstep, <- app_assoc.
      split; [done|]. unfold own_part. rewrite filter_cons_True by done.
      by constructor.
    + by destruct acc.
    + rewrite Hstep, fmap_app. simpl. rewrite <- app_assoc. simpl.
      apply NoDup_app. repeat split; [done| |by apply NoDup_cons].
      intros x Hx. by apply Hdisj.
    + intros Hin. destruct Hproto as (A & -> & HA); [by right|].
      eexists. split; [done|]. rewrite obj_set_fresh by done.
      rewrite fmap_app. simpl. intros [?|?%list_elem_of_singleton]%elem_of_app; done.
Qed.

Lemma gemini_loop_get_properties ts l result final ps :
  is_record result ->
  gemini_loop f ts l result = Some final ->
  NoDup l.*1 -> obj_get l (lit "properties") = Some (JObj ps) ->
  exists props, sanitize_properties f ps (JObj []) = Some props
    /\ js_get final (lit "properties") = Some props.
Proof.
  revert result. induction l as [|[key value] l IH]; intros result Hrec; simpl; [done|].
  intros Hloop [Hk Hnd]%NoDup_cons.
  destruct (str_eqb key (lit "properties")) eqn:E.
  - apply str_eqb_eq in E as ->. intros [= ->].
    change ((sanitize_properties f ps (JObj []) ≫= fun props =>
               gemini_loop f ts l (assign result (lit "properties") props))
            = Some final) in Hloop.
    apply bind_Some in Hloop as (props & Hp & Hloop). exists props. split; [done|].
    apply GeminiFacts.gemini_loop_get_other with (k := lit "properties") in Hloop; [|done].
    by rewrite Hloop, GeminiFacts.js_get_assign_eq.
  - intros Hget.
    repeat match type of Hloop with
           | (if ?c then _ else _) = _ => destruct c
           | _ ≫= _ = _ => apply bind_Some in Hloop as (? & _ & Hloop)
           end;
      apply IH in Hloop; try done; by apply assign_record.
Qed.
End loops.

(** X27. [sanitizeSchemaForGemini] keeps the parameters of a tool: the
    object the result has under [properties] has as own properties the
    parameters other than [__proto__], with the same names in the same
    order, each with its own schema sanitised, also a parameter called
    [required], [const] or [anyOf]. A parameter called [__proto__] is
    not among them. *)
Theorem sanitizeSchemaForGemini_keeps_parameters (entries ps : list (jsstring * json))
    (out : json) :
  NoDup entries.*1 ->
  obj_get entries (lit "properties") = Some (JObj ps) ->
  NoDup ps.*1 ->
  sanitizeSchemaForGemini (JObj entries) = Some out ->
  exists props,
    js_get out (lit "properties") = Some props
    /\ is_record props
    /\ Forall2 (fun p p' => p'.1 = p.1 /\ sanitizeSchemaForGemini p.2 = Some p'.2)
         (own_part ps) (own_entries props).
Proof.
  intros Hnd Hget Hps Hs. cbn [sanitizeSchemaForGemini] in Hs.
  apply bind_Some in Hs as (result & Hloop & [= <-]).
  destruct (gemini_loop_get_properties _ _ _ (JObj []) _ ps I Hloop Hnd Hget)
    as (props & Hp & Hr).
  destruct (sanitize_properties_names _ ps (JObj []) props Hp I)
    as (Hrec & ps' & Hown & HF);
    [done|intros _; exists []; split; [done|apply not_elem_of_nil]|].
  exists props. split; [|split; [done|by rewrite Hown]].
  unfold ensure_properties. rewrite (js_get_read _ _ _ Hr).
  assert (opt_truthy (Some props) = true) as -> by (by destruct props).
  by rewrite andb_false_r.
Qed.

Lemma sanitizeSchemaForGemini_keeps_parameters_witness :
  exists out props,
    sanitizeSchemaForGemini parameter_named_required = Some out
    /\ js_get out (lit "properties") = Some props
    /\ is_record props
    /\ Forall2 (fun p p' => p'.1 = p.1 /\ sanitizeSchemaForGemini p.2 = Some p'.2)
         [(lit "required", JObj [(lit "type", JStr (lit "boolean"))])]
         (own_entries props).
Proof.
  eexists.
  destruct (sanitizeSchemaForGemini_keeps_parameters
              [(lit "type", JStr (lit "object"));
               (lit "properties",
                JObj [(lit "required", JObj [(lit "type", JStr (lit "boolean"))])])]
              [(lit "required", JObj [(lit "type", JStr (lit "boolean"))])]
              (JObj [(lit "type", JStr (lit "object"));
                     (lit "properties",
                      JObj [(lit "required", JObj [(lit "type", JStr (lit "boolean"))])])]))
    as (props & H1 & H2 & H3).
  - apply (bool_decide_unpack (NoDup [lit "type"; lit "properties"])). vm_compute. exact I.
  - reflexivity.
  - apply (bool_decide_unpack (NoDup [lit "required"])). vm_compute. exact I.
  - vm_compute. reflexivity.
  - exists props. split; [vm_compute; reflexivity|]. by split; [|split].
Defined.

(** A parameter called [__proto__] is lost: its schema becomes the
    prototype of the object under [properties]. *)
Lemma sanitizeSchemaForGemini_loses_proto_parameter :
  sanitizeSchemaForGemini
    (JObj [(lit "properties", JObj [(proto_key, JObj [(lit "type", JStr (lit "string"))])])])
  = Some (JObj [(lit "properties",
                 JProto (JObj [(lit "type", JStr (lit "string"))]) [])]).
Proof. reflexivity. Qed.

Section clean.
Variable inherited : json -> jsstring -> bool.

(** X28. For a provider without restrictions, a schema without
    references and without an entry called [__proto__] leaves
    [cleanToolSchema] as it came, less the [$schema], [$defs] and
    [definitions] of its root. *)
Theorem cleanToolSchema_ref_free (fuel : nat) (entries : list (jsstring * json)) :
  unique_keys (JObj entries) = true ->
  proto_free (JObj entries) = true ->
  ref_free (JObj entries) = true ->
  jsize (JObj entries) <= fuel ->
  cleanToolSchema inherited fuel (Some (JObj entries)) false
    = Cleaned (JObj (obj_del (obj_del (obj_del entries (lit "$schema")) (lit "$defs"))
                       (lit "definitions"))).
Proof.
  intros Hu Hp Hr Hs. unfold cleanToolSchema. cbn [opt_truthy truthy negb default].
  change (id (JObj entries)) with (JObj entries).
  rewrite (own_content_proto_free _ Hp). cbn [delete_key].
  pose proof (obj_del_sublist entries (lit "$schema")) as Hsub.
  rewrite resolve_unchanged; [done| | | |].
  - apply GeminiFacts.unique_keys_obj in Hu as [Hnd HF]. simpl.
    apply andb_true_intro. split.
    + apply bool_decide_eq_true_2. by apply obj_del_NoDup.
    + eapply sublist_forallb; [exact Hsub|]. apply forallb_forall.
      intros kv Hkv%list_elem_of_In. rewrite Forall_forall in HF. by apply HF.
  - pose proof (proto_free_obj _ Hp) as [Hproto _].
    simpl in Hp |- *. apply andb_prop in Hp as [_ Hall].
    apply andb_true_intro. split.
    + apply negb_true_iff, has_key_false. intros Hin. apply Hproto.
      eapply elem_of_sublist; [exact Hin|]. by apply fmap_sublist.
    + by eapply sublist_forallb.
  - simpl in Hr. apply andb_prop in Hr as [Hn Hall]. simpl.
    apply andb_true_intro. split.
    + unfold is_ref in *. by rewrite obj_get_del_ne.
    + by eapply sublist_forallb.
  - simpl in *. pose proof (sublist_sum (fun kv : jsstring * json => S (jsize kv.2)) _ _ Hsub).
    lia.
Qed.

End clean.

Lemma cleanToolSchema_ref_free_witness :
  cleanToolSchema no_prototype 100
    (Some (JObj [(lit "$schema", JStr (lit "http://json-schema.org/draft-07/schema#"));
                 (lit "type", JStr (lit "object"));
                 (lit "properties", JObj [(lit "q", string_schema)])])) false
  = Cleaned (JObj [(lit "type", JStr (lit "object"));
                   (lit "properties", JObj [(lit "q", string_schema)])]).
Proof.
  apply (cleanToolSchema_ref_free no_prototype 100).
  - vm_compute. reflexivity.
  - vm_compute. reflexivity.
  - vm_compute. reflexivity.
  - apply Nat.leb_le. vm_compute. reflexivity.
Defined.

End ParameterFacts.

Module ModelFacts.

Lemma split_nonempty s : split s <> [].
Proof.
  destruct s as [|c r]; simpl; [done|].
  destruct (c =? 47)%N; [done|]. by destruct (split r).
Qed.

Lemma join_split s : join (split s) = s.
Proof.
  induction s as [|c r IH]; simpl; [done|].
  destruct (c =? 47)%N eqn:E.
  - apply N.eqb_eq in E as ->. simpl. rewrite IH.
    pose proof (split_nonempty r). by destruct (split r).
  - destruct (split r) as [|part parts] eqn:Es; [by destruct (split_nonempty r)|].
    simpl in *. destruct parts; by rewrite <- IH.
Qed.

Lemma split_single s : length (split s) = 1 <-> 47%N ∉ s.
Proof.
  induction s as [|c r IH]; simpl.
  - split; [intros _; apply not_elem_of_nil|done].
  - destruct (c =? 47)%N eqn:E.
    + apply N.eqb_eq in E as ->. simpl. pose proof (split_nonempty r).
      split; [destruct (split r); simpl; [done|lia]|].
      intros Hn. destruct Hn. by left.
    + apply N.eqb_neq in E. destruct (split r) as [|part parts] eqn:Es;
        [by destruct (split_nonempty r)|].
      simpl in *. rewrite not_elem_of_cons.
      split; [intros H; split; [congruence|by apply IH]|intros [_ H]; by apply IH].
Qed.

Lemma split_head s : exists part parts,
  split s = part :: parts /\ 47%N ∉ part.
Proof.
  induction s as [|c r (part & parts & Hs & Hp)]; simpl.
  - eexists _, _. split; [done|]. apply not_elem_of_nil.
  - destruct (c =? 47)%N eqn:E.
    + eexists _, _. split; [done|]. apply not_elem_of_nil.
    + rewrite Hs. eexists _, _. split; [done|].
      apply N.eqb_neq in E. apply not_elem_of_cons. by split.
Qed.

Lemma startsWith_elem s p c : startsWith s p = true -> c ∈ p -> c ∈ s.
Proof.
  revert s. induction p as [|d p IH]; intros s; [by intros _ ?%elem_of_nil|].
  destruct s as [|e s]; simpl; [done|].
  intros [->%N.eqb_eq Hs]%andb_prop [->|Hin]%elem_of_cons; [by left|].
  right. by apply IH.
Qed.

Lemma startsWith_prefix s p : startsWith s p = true -> exists t, s = p ++ t.
Proof.
  revert s. induction p as [|d p IH]; intros s; [by exists s|].
  destruct s as [|e s]; simpl; [done|].
  intros [->%N.eqb_eq [t ->]%IH]%andb_prop. by exists t.
Qed.

(** X29. [parseModelId] loses nothing of an id with a provider prefix:
    the provider has no slash in it, and provider, slash and model give
    back the id. An id without a slash is the model as it is, with one of
    the four providers the function knows. *)
Theorem parseModelId_recomposes (modelId : jsstring) :
  let parsed := parseModelId modelId in
  (47%N ∉ providerId parsed)
  /\ (47%N ∈ modelId -> providerId parsed ++ 47%N :: actualModelId parsed = modelId)
  /\ (47%N ∉ modelId ->
        actualModelId parsed = modelId
        /\ providerId parsed ∈ [lit "openai"; lit "anthropic"; lit "google"; lit "toolplex"]).
Proof.
  cbv zeta. unfold parseModelId.
  destruct (split_head modelId) as (part & parts & Hs & Hp).
  pose proof (split_single modelId) as Hone. pose proof (join_split modelId) as Hj.
  rewrite Hs in *. destruct (Nat.eqb_spec (length (part :: parts)) 1) as [Hl|Hl].
  - apply Hone in Hl.
    assert (forall p : ParsedModelId,
              p = {| providerId := lit "openai"; actualModelId := modelId |}
              \/ p = {| providerId := lit "anthropic"; actualModelId := modelId |}
              \/ p = {| providerId := lit "google"; actualModelId := modelId |}
              \/ p = {| providerId := lit "toolplex"; actualModelId := modelId |} ->
              (47%N ∉ providerId p)
              /\ (47%N ∈ modelId -> providerId p ++ 47%N :: actualModelId p = modelId)
              /\ (47%N ∉ modelId -> actualModelId p = modelId
                  /\ providerId p ∈ [lit "openai"; lit "anthropic"; lit "google";
                                     lit "toolplex"])) as Hcases.
    { intros p Hcase. split; [|split; [done|]].
      - destruct Hcase as [->|[->|[->| ->]]]; apply (bool_decide_unpack _); by vm_compute.
      - intros _. rewrite !elem_of_cons.
        destruct Hcase as [->|[->|[->| ->]]]; split; try done; tauto. }
    repeat case_match; apply Hcases; tauto.
  - cbn [head tail default providerId actualModelId]. split; [done|].
    destruct parts as [|part' parts]; [done|].
    split; [by intros _|]. intros Hn. by apply Hone in Hn.
Qed.

(** X30. On an id without a provider prefix [parseModelId] agrees with
    the model predicates: a ChatGPT id goes to "openai", and the
    Anthropic and Gemini ids are exactly those that go to "anthropic"
    and to "google". *)
Theorem parseModelId_agrees (modelId : jsstring) :
  47%N ∉ modelId ->
  (isChatGPTModel modelId = true -> providerId (parseModelId modelId) = lit "openai")
  /\ (isAnthropicModel modelId = true <-> providerId (parseModelId modelId) = lit "anthropic")
  /\ (isGoogleGeminiModel modelId = true <-> providerId (parseModelId modelId) = lit "google").
Proof.
  intros Hn. unfold parseModelId, isChatGPTModel, isAnthropicModel, isGoogleGeminiModel.
  apply split_single in Hn as Hl. rewrite Hl. cbn [Nat.eqb].
  assert (forall p, 47%N ∈ p -> startsWith modelId p = false) as Hslash.
  { intros p Hp. destruct (startsWith modelId p) eqn:E; [|done].
    destruct Hn. by eapply startsWith_elem. }
  rewrite (Hslash (lit "openai/gpt-")), (Hslash (lit "anthropic/")), (Hslash (lit "google/"));
    try (apply (bool_decide_unpack _); by vm_compute).
  rewrite !orb_false_r. cbn [orb].
  clear Hslash Hl Hn.
  destruct (startsWith modelId (lit "gpt-")) eqn:E1.
  { apply startsWith_prefix in E1 as [t ->]. cbn [orb providerId].
    repeat split; try done; intros H; vm_compute in H; discriminate H. }
  cbn [orb]. split; [done|].
  destruct (startsWith modelId (lit "o1")) eqn:E2.
  { apply startsWith_prefix in E2 as [t ->]. cbn [providerId].
    repeat split; try done; intros H; vm_compute in H; discriminate H. }
  destruct (startsWith modelId (lit "claude")) eqn:E3.
  { apply startsWith_prefix in E3 as [t ->]. cbn [providerId].
    repeat split; try done; intros H; vm_compute in H; discriminate H. }
  destruct (startsWith modelId (lit "gemini")) eqn:E4; cbn [providerId];
    repeat split; try done; intros H; vm_compute in H; discriminate H.
Qed.

Lemma parseModelId_agrees_witness :
  (isChatGPTModel (lit "gpt-4o") = true
     -> providerId (parseModelId (lit "gpt-4o")) = lit "openai")
  /\ (isAnthropicModel (lit "gpt-4o") = true
        <-> providerId (parseModelId (lit "gpt-4o")) = lit "anthropic")
  /\ (isGoogleGeminiModel (lit "gpt-4o") = true
        <-> providerId (parseModelId (lit "gpt-4o")) = lit "google").
Proof.
  apply (parseModelId_agrees (lit "gpt-4o")).
  apply (bool_decide_unpack (47%N ∉ lit "gpt-4o")). vm_compute. exact I.
Defined.

End ModelFacts.
